(** * RFM69 packet-radio driver (radio.go): shallow embedding and properties

    The driver talks to the transceiver through a register interface
    ([ReadRegister], [WriteRegister], [WriteBurst], [AwaitInterrupt],
    RSSI read).  The chip is an external collaborator: it is modelled as
    an arbitrary deterministic oracle over the history of calls made on
    the interface, and every call the driver makes is recorded in that
    history.  Polling loops of the driver that have no bound in the
    source take a fuel argument: one unit per iteration. *)

From Stdlib Require Import List ZArith NArith Bool Lia Arith.
From Stdlib.Strings Require Import Byte.
Import ListNotations.

(** ** Bytes and Go slice primitives *)

(** Conversion to [byte] truncates to the low 8 bits, as Go's [byte(x)]. *)
Definition byte_of_N (n : N) : byte :=
  match Byte.of_N (n mod 256) with
  | Some b => b
  | None => x00
  end.

(** [byte(len(data))]. *)
Definition byte_of_len (n : nat) : byte := byte_of_N (N.of_nat n).

(** [a + b] on bytes wraps around modulo 256. *)
Definition byte_add (a b : byte) : byte := byte_of_N (Byte.to_N a + Byte.to_N b).

(** [a & b] and [a | b]. *)
Definition byte_and (a b : byte) : byte := byte_of_N (N.land (Byte.to_N a) (Byte.to_N b)).
Definition byte_or (a b : byte) : byte := byte_of_N (N.lor (Byte.to_N a) (Byte.to_N b)).

(** [int(c)] for a byte [c]. *)
Definition int_of_byte (c : byte) : Z := Z.of_N (Byte.to_N c).

(** [time.Duration] is a signed 64-bit count of nanoseconds. *)
Definition wrap64 (z : Z) : Z := ((z + 2 ^ 63) mod 2 ^ 64 - 2 ^ 63)%Z.

(** [copy(dst, src)]: overwrites the first [min(len(dst), len(src))]
    elements of [dst]; the result is the new content of [dst]. *)
Definition go_copy (dst src : list byte) : list byte :=
  let n := Nat.min (length dst) (length src) in
  firstn n src ++ skipn n dst.

(** [s[i] = v]; [None] when the index is out of range (a run-time panic). *)
Definition store (s : list byte) (i : nat) (v : byte) : option (list byte) :=
  if i <? length s then Some (firstn i s ++ v :: skipn (S i) s) else None.

(** [s[:n]]; [None] when [n] exceeds the slice (a run-time panic). *)
Definition slice_to (s : list byte) (n : nat) : option (list byte) :=
  if n <=? length s then Some (firstn n s) else None.

(** ** Constants of radio.go *)

Definition maxPacketSize : nat := 110.
Definition fifoSize : nat := 66.
Definition fifoThreshold : nat := 20.

(** [byteDuration = time.Millisecond], in nanoseconds. *)
Definition byteDuration : Z := 1000000%Z.

(** Register addresses, flag masks and mode codes.  radio.go uses these
    names but their declarations are in another file of the package, so
    they are parameters of the development. *)
Record RegMap := {
  RegFifo : byte;
  RegOpMode : byte;
  RegAutoModes : byte;
  RegIrqFlags2 : byte;
  FifoFull : byte;
  FifoNotEmpty : byte;
  FifoLevel : byte;
  FifoOverrun : byte;
  EnterConditionFifoNotEmpty : byte;
  ExitConditionFifoEmpty : byte;
  IntermediateModeTx : byte;
  SleepMode : byte;
  StandbyMode : byte;
  TransmitterMode : byte;
  ReceiverMode : byte
}.

(** The values of the RFM69 register map, used for concrete runs. *)
Definition rfm69_regs : RegMap := {|
  RegFifo := x00;
  RegOpMode := x01;
  RegAutoModes := x3b;
  RegIrqFlags2 := x28;
  FifoFull := x80;
  FifoNotEmpty := x40;
  FifoLevel := x20;
  FifoOverrun := x10;
  EnterConditionFifoNotEmpty := x20;
  ExitConditionFifoEmpty := x04;
  IntermediateModeTx := x03;
  SleepMode := x00;
  StandbyMode := x04;
  TransmitterMode := x0c;
  ReceiverMode := x10
|}.

(** ** The hardware register interface *)

(** Go [error] values that can reach the latch: a failed register
    operation, or [io.EOF] from [bytes.Buffer.Read]. *)
Inductive error : Type :=
| hwFailure
| io_EOF.

(** One call on the hardware interface, with the value the chip
    answered where there is one. *)
Inductive HwCall : Type :=
| ReadRegister (addr v : byte)
| WriteRegister (addr v : byte)
| WriteBurst (addr : byte) (data : list byte)
| AwaitInterrupt (timeout : Z)
| RSSI (v : Z).

(** The chip: what it answers to a register read and to an RSSI read
    after a given history (newest call first), and whether the call that
    completes a history fails. *)
Record Chip := {
  chip_read : list HwCall -> byte -> byte;
  chip_rssi : list HwCall -> Z;
  chip_fails : list HwCall -> bool
}.

(** The handle [r.hw]: the calls made so far, newest first, and the
    first failure recorded by a register operation. *)
Record Hardware := {
  calls : list HwCall;
  fault : option error
}.

(** ** bytes.Buffer, as far as the driver uses it *)

Module Buffer.

Definition t := list byte.

Definition Len (b : t) : nat := length b.

(** [WriteByte] appends and always returns a nil error. *)
Definition WriteByte (b : t) (c : byte) : t * option error := (b ++ [c], None).

(** [Read(p)] with [len(p) = n]: the bytes copied into a zeroed [p],
    the error, and the unread rest.  An empty buffer gives [io.EOF]
    unless [n = 0]. *)
Definition Read (b : t) (n : nat) : list byte * option error * t :=
  match b with
  | [] => (repeat x00 n, if n =? 0 then None else Some io_EOF, [])
  | _ => (firstn n b ++ repeat x00 (n - length b), None, skipn n b)
  end.

Definition Reset (b : t) : t := [].

End Buffer.

(** ** The Radio instance *)

(** Modelled from the spec: the [Radio] type is declared outside
    radio.go.  Fields [hw], [receiveBuffer], [txPacket] and [err] are the
    ones radio.go uses; [curMode] is the [mode] of the spec's data model,
    written by the mode controller. *)
Record Radio := {
  hw : Hardware;
  receiveBuffer : Buffer.t;
  txPacket : list byte;
  err : option error;
  curMode : byte
}.

Definition set_hw (h : Hardware) (r : Radio) : Radio :=
  {| hw := h; receiveBuffer := receiveBuffer r; txPacket := txPacket r;
     err := err r; curMode := curMode r |}.

Definition set_receiveBuffer (b : Buffer.t) (r : Radio) : Radio :=
  {| hw := hw r; receiveBuffer := b; txPacket := txPacket r;
     err := err r; curMode := curMode r |}.

Definition set_txPacket (p : list byte) (r : Radio) : Radio :=
  {| hw := hw r; receiveBuffer := receiveBuffer r; txPacket := p;
     err := err r; curMode := curMode r |}.

Definition set_err (e : option error) (r : Radio) : Radio :=
  {| hw := hw r; receiveBuffer := receiveBuffer r; txPacket := txPacket r;
     err := e; curMode := curMode r |}.

Definition set_curMode (m : byte) (r : Radio) : Radio :=
  {| hw := hw r; receiveBuffer := receiveBuffer r; txPacket := txPacket r;
     err := err r; curMode := m |}.

(** ** Outcomes and the driver monad *)

(** A call returns, panics ([log.Panicf], index out of range), or is
    still polling when the fuel is spent.  Each case carries the
    instance as it is at that point. *)
Inductive Result (A : Type) : Type :=
| Done (a : A) (r : Radio)
| Panic (r : Radio)
| OutOfFuel (r : Radio).

Arguments Done {A} a r.
Arguments Panic {A} r.
Arguments OutOfFuel {A} r.

(** The instance an outcome carries. *)
Definition state_of {A} (res : Result A) : Radio :=
  match res with
  | Done _ r => r
  | Panic r => r
  | OutOfFuel r => r
  end.

Definition M (A : Type) : Type := Radio -> Result A.

Definition ret {A} (a : A) : M A := fun r => Done a r.

Definition bind {A B} (m : M A) (k : A -> M B) : M B := fun r =>
  match m r with
  | Done a r' => k a r'
  | Panic r' => Panic r'
  | OutOfFuel r' => OutOfFuel r'
  end.

Definition panic {A} : M A := fun r => Panic r.

Definition modify (f : Radio -> Radio) : M unit := fun r => Done tt (f r).

Definition gets {A} (f : Radio -> A) : M A := fun r => Done (f r) r.

Declare Scope radio_scope.
Delimit Scope radio_scope with radio.
Notation "x <- m ;; k" := (bind m (fun x => k))
  (at level 61, m at next level, right associativity) : radio_scope.
Notation "m ;; k" := (bind m (fun _ => k))
  (at level 61, right associativity) : radio_scope.
Local Open Scope radio_scope.

(** [defer d] around a body: [d] runs when the body returns or panics,
    and cannot change the values already returned. *)
Definition defer {A} (d : M unit) (body : M A) : M A := fun r =>
  match body r with
  | Done a r1 =>
      match d r1 with
      | Done _ r2 => Done a r2
      | Panic r2 => Panic r2
      | OutOfFuel r2 => OutOfFuel r2
      end
  | Panic r1 =>
      match d r1 with
      | Done _ r2 => Panic r2
      | Panic r2 => Panic r2
      | OutOfFuel r2 => OutOfFuel r2
      end
  | OutOfFuel r1 => OutOfFuel r1
  end.

(** The packet result [[]byte]: [None] is the nil slice. *)
Definition packet := option (list byte).

(** A nil slice has no elements. *)
Definition packet_bytes (p : packet) : list byte :=
  match p with
  | Some l => l
  | None => []
  end.

(** ** The driver *)

Section Driver.

Variable regs : RegMap.
Variable chip : Chip.

(** *** Calls on the hardware interface *)

(** Every call is recorded; a call the chip fails sets the handle's
    fault unless one is already recorded (first error wins). *)
Definition record_call (c : HwCall) (r : Radio) : Radio :=
  let l := c :: calls (hw r) in
  let f := match fault (hw r) with
           | Some e => Some e
           | None => if chip_fails chip l then Some hwFailure else None
           end in
  set_hw {| calls := l; fault := f |} r.

Definition hw_record (c : HwCall) : M unit := modify (record_call c).

Definition hw_ReadRegister (addr : byte) : M byte :=
  v <- gets (fun r => chip_read chip (calls (hw r)) addr) ;;
  hw_record (ReadRegister addr v) ;;
  ret v.

Definition hw_WriteRegister (addr v : byte) : M unit :=
  hw_record (WriteRegister addr v).

Definition hw_WriteBurst (addr : byte) (data : list byte) : M unit :=
  hw_record (WriteBurst addr data).

Definition hw_AwaitInterrupt (timeout : Z) : M unit :=
  hw_record (AwaitInterrupt timeout).

(** Modelled from the spec: [ReadRSSI] is declared outside radio.go.  The spec lists
    it with the hardware interface: it reads the signal strength, a
    signed integer, from the chip. *)
Definition ReadRSSI : M Z :=
  v <- gets (fun r => chip_rssi chip (calls (hw r))) ;;
  hw_record (RSSI v) ;;
  ret v.

(** *** Mode controller *)

(** Modelled from the spec: [Error] is declared outside radio.go.  It returns the
    sticky latch.  Register operations are methods of [r.hw] and return
    no error, so their first failure is kept by the handle; [r.err] is
    the field radio.go assigns from buffer operations. *)
Definition Error (r : Radio) : option error :=
  match fault (hw r) with
  | Some e => Some e
  | None => err r
  end.

(** Modelled from the spec: [setMode] is declared outside radio.go.  It requests the
    transition with a write of the mode register, returns once that
    write completes, and the instance's mode is then the target. *)
Definition setMode (target : byte) : M unit :=
  hw_WriteRegister (RegOpMode regs) target ;;
  modify (set_curMode target).

(** Modelled from the spec: [mode] is declared outside radio.go.  It polls the mode
    register; what the chip reports is the last known mode. *)
Definition mode : M byte :=
  s <- hw_ReadRegister (RegOpMode regs) ;;
  modify (set_curMode s) ;;
  ret s.

(** *** FIFO flags *)

Definition fifoEmpty : M bool :=
  v <- hw_ReadRegister (RegIrqFlags2 regs) ;;
  ret (Byte.eqb (byte_and v (FifoNotEmpty regs)) x00).

Definition fifoFull : M bool :=
  v <- hw_ReadRegister (RegIrqFlags2 regs) ;;
  ret (negb (Byte.eqb (byte_and v (FifoFull regs)) x00)).

Definition fifoThresholdExceeded : M bool :=
  v <- hw_ReadRegister (RegIrqFlags2 regs) ;;
  ret (negb (Byte.eqb (byte_and v (FifoLevel regs)) x00)).

Definition clearFIFO : M unit :=
  hw_WriteRegister (RegIrqFlags2 regs) (FifoOverrun regs).

(** *** Transmit pipeline *)

(** The completion poll of [finishTX]:
    [for r.Error() == nil { s := r.mode(); if s == StandbyMode { break }; ... }]. *)
Fixpoint finishTX_loop (fuel : nat) : M unit := fun r =>
  match Error r with
  | Some _ => Done tt r
  | None =>
      match fuel with
      | O => OutOfFuel r
      | S fuel' =>
          (s <- mode ;;
           if Byte.eqb s (StandbyMode regs) then ret tt
           else finishTX_loop fuel') r
      end
  end.

(** [finishTX(numBytes)]: the initial sleep touches nothing. *)
Definition finishTX (fuel : nat) (numBytes : nat) : M unit :=
  finishTX_loop fuel.

(** The pacing poll inside [transmit]:
    [for r.Error() == nil { if !r.fifoThresholdExceeded() { avail = fifoSize - fifoThreshold; break } }].
    The result is the value of [avail] after the loop. *)
Fixpoint awaitThreshold (fuel : nat) (avail : nat) : M nat := fun r =>
  match Error r with
  | Some _ => Done avail r
  | None =>
      match fuel with
      | O => OutOfFuel r
      | S fuel' =>
          (exceeded <- fifoThresholdExceeded ;;
           if exceeded then awaitThreshold fuel' avail
           else ret (fifoSize - fifoThreshold)) r
      end
  end.

(** The chunking loop of [transmit]; the result is the final [avail]. *)
Fixpoint transmit_loop (fuel : nat) (avail : nat) (data : list byte) : M nat := fun r =>
  match Error r with
  | Some _ => Done avail r
  | None =>
      match fuel with
      | O => OutOfFuel r
      | S fuel' =>
          let avail1 := if length data <? avail then length data else avail in
          (hw_WriteBurst (RegFifo regs) (firstn avail1 data) ;;
           let data1 := skipn avail1 data in
           if length data1 =? 0 then ret avail1
           else
             avail2 <- awaitThreshold fuel' avail1 ;;
             transmit_loop fuel' avail2 data1) r
      end
  end.

Definition transmit (fuel : nat) (data : list byte) : M unit :=
  avail <- transmit_loop fuel fifoSize data ;;
  finishTX fuel avail.

(** [r.txPacket[i] = v]. *)
Definition txPacket_store (i : nat) (v : byte) : M unit := fun r =>
  match store (txPacket r) i v with
  | Some p => Done tt (set_txPacket p r)
  | None => Panic r
  end.

Definition autoTransmit : byte :=
  byte_or (byte_or (EnterConditionFifoNotEmpty regs) (ExitConditionFifoEmpty regs))
          (IntermediateModeTx regs).

(** [Send(data)]. *)
Definition Send (fuel : nat) (data : list byte) : M unit := fun r =>
  match Error r with
  | Some _ => Done tt r
  | None =>
      if maxPacketSize <? length data then Panic r
      else
        (modify (fun r => set_txPacket (go_copy (txPacket r) data) r) ;;
         txPacket_store (length data) x00 ;;
         tx <- gets txPacket ;;
         match slice_to tx (length data + 1) with
         | None => panic
         | Some packet =>
             clearFIFO ;;
             setMode (StandbyMode regs) ;;
             hw_WriteRegister (RegAutoModes regs) autoTransmit ;;
             transmit fuel packet ;;
             setMode (StandbyMode regs)
         end) r
  end.

(** [SendRadioHead(data, to, from, id, flags)]. *)
Definition SendRadioHead (fuel : nat) (data : list byte) (to from id flags : byte)
  : M unit := fun r =>
  match Error r with
  | Some _ => Done tt r
  | None =>
      if maxPacketSize <? length data then Panic r
      else
        (txPacket_store 0 (byte_add (byte_of_len (length data)) x04) ;;
         txPacket_store 1 to ;;
         txPacket_store 2 from ;;
         txPacket_store 3 id ;;
         txPacket_store 4 flags ;;
         tx <- gets txPacket ;;
         match slice_to tx 5 with
         | None => panic
         | Some head =>
             modify (set_txPacket (go_copy head data ++ skipn 5 tx)) ;;
             clearFIFO ;;
             setMode (StandbyMode regs) ;;
             hw_WriteRegister (RegAutoModes regs) autoTransmit ;;
             tx' <- gets txPacket ;;
             transmit fuel tx' ;;
             setMode (StandbyMode regs)
         end) r
  end.

(** *** Receive pipeline *)

(** [finishRX(rssi)]. *)
Definition finishRX (rssi : Z) : M (packet * Z) :=
  setMode (StandbyMode regs) ;;
  size <- gets (fun r => Buffer.Len (receiveBuffer r)) ;;
  if size =? 0 then ret (None, rssi)
  else
    rd <- gets (fun r => Buffer.Read (receiveBuffer r) size) ;;
    let '(p, e, rest) := rd in
    modify (fun r => set_err e (set_receiveBuffer rest r)) ;;
    e' <- gets Error ;;
    match e' with
    | Some _ => ret (None, rssi)
    | None =>
        modify (fun r => set_receiveBuffer (Buffer.Reset (receiveBuffer r)) r) ;;
        ret (Some p, rssi)
    end.

(** [r.err = r.receiveBuffer.WriteByte(c)]. *)
Definition receiveBuffer_WriteByte (c : byte) : M unit :=
  modify (fun r =>
    let '(b, e) := Buffer.WriteByte (receiveBuffer r) c in
    set_err e (set_receiveBuffer b r)).

(** The polling loop of [Receive]: a zero byte ends the packet. *)
Fixpoint Receive_loop (fuel : nat) (timeout : Z) (rssi : Z) : M (packet * Z) := fun r =>
  match Error r with
  | Some _ => Done (None, rssi) r
  | None =>
      match fuel with
      | O => OutOfFuel r
      | S fuel' =>
          (empty <- fifoEmpty ;;
           if empty then
             if (timeout <=? 0)%Z then ret (None, rssi)
             else Receive_loop fuel' (wrap64 (timeout - byteDuration)) rssi
           else
             c <- hw_ReadRegister (RegFifo regs) ;;
             e <- gets Error ;;
             match e with
             | Some _ => ret (None, rssi)
             | None =>
                 if Byte.eqb c x00 then finishRX rssi
                 else
                   receiveBuffer_WriteByte c ;;
                   Receive_loop fuel' timeout rssi
             end) r
      end
  end.

(** [Receive(timeout)]. *)
Definition Receive (fuel : nat) (timeout : Z) : M (packet * Z) := fun r =>
  match Error r with
  | Some _ => Done (None, 0%Z) r
  | None =>
      (hw_WriteRegister (RegAutoModes regs) x00 ;;
       setMode (ReceiverMode regs) ;;
       defer (setMode (SleepMode regs))
         (hw_AwaitInterrupt timeout ;;
          rssi <- ReadRSSI ;;
          Receive_loop fuel timeout rssi)) r
  end.

(** The polling loop of [ReceiveRadioHead]: [length] is [-1] until the
    length byte has been read. *)
Fixpoint ReceiveRadioHead_loop (fuel : nat) (timeout : Z) (rssi : Z) (length_ : Z)
  : M (packet * Z) := fun r =>
  match Error r with
  | Some _ => Done (None, rssi) r
  | None =>
      match fuel with
      | O => OutOfFuel r
      | S fuel' =>
          (empty <- fifoEmpty ;;
           if empty then
             if (timeout <=? 0)%Z then ret (None, rssi)
             else ReceiveRadioHead_loop fuel' (wrap64 (timeout - byteDuration)) rssi length_
           else
             c <- hw_ReadRegister (RegFifo regs) ;;
             e <- gets Error ;;
             match e with
             | Some _ => ret (None, rssi)
             | None =>
                 if (length_ =? -1)%Z then
                   ReceiveRadioHead_loop fuel' timeout rssi (int_of_byte c)
                 else
                   receiveBuffer_WriteByte c ;;
                   len <- gets (fun r => Buffer.Len (receiveBuffer r)) ;;
                   if (Z.of_nat len =? length_)%Z then finishRX rssi
                   else ReceiveRadioHead_loop fuel' timeout rssi length_
             end) r
      end
  end.

(** [ReceiveRadioHead(timeout)]. *)
Definition ReceiveRadioHead (fuel : nat) (timeout : Z) : M (packet * Z) := fun r =>
  match Error r with
  | Some _ => Done (None, 0%Z) r
  | None =>
      (hw_WriteRegister (RegAutoModes regs) x00 ;;
       setMode (ReceiverMode regs) ;;
       defer (setMode (SleepMode regs))
         (hw_AwaitInterrupt timeout ;;
          rssi <- ReadRSSI ;;
          ReceiveRadioHead_loop fuel timeout rssi (-1)%Z)) r
  end.

(** *** Composite operation *)

(** [SendAndReceive(data, timeout)]. *)
Definition SendAndReceive (fuel : nat) (data : list byte) (timeout : Z)
  : M (packet * Z) :=
  Send fuel data ;;
  e <- gets Error ;;
  match e with
  | Some _ => ret (None, 0%Z)
  | None => Receive fuel timeout
  end.

End Driver.

(** ** Observations on the call history *)

(** Whether a call reads from, or bursts to, a given register. *)
Definition reads_from (addr : byte) (c : HwCall) : option byte :=
  match c with
  | ReadRegister a v => if Byte.eqb a addr then Some v else None
  | _ => None
  end.

Definition burst_to (addr : byte) (c : HwCall) : list (list byte) :=
  match c with
  | WriteBurst a data => if Byte.eqb a addr then [data] else []
  | _ => []
  end.

(** The burst writes to the FIFO found in a history, oldest first. *)
Fixpoint fifo_bursts (regs : RegMap) (l : list HwCall) : list (list byte) :=
  match l with
  | [] => []
  | c :: l' => fifo_bursts regs l' ++ burst_to (RegFifo regs) c
  end.

(** The bytes the FIFO received, in order. *)
Definition fifo_written (regs : RegMap) (l : list HwCall) : list byte :=
  concat (fifo_bursts regs l).

(** How many bytes were read from the FIFO. *)
Fixpoint fifo_reads (regs : RegMap) (l : list HwCall) : nat :=
  match l with
  | [] => 0
  | c :: l' =>
      match reads_from (RegFifo regs) c with
      | Some _ => S (fifo_reads regs l')
      | None => fifo_reads regs l'
      end
  end.

(** The oldest byte read from the FIFO in a history. *)
Fixpoint first_fifo_byte (regs : RegMap) (l : list HwCall) : option byte :=
  match l with
  | [] => None
  | c :: l' =>
      match first_fifo_byte regs l' with
      | Some b => Some b
      | None => reads_from (RegFifo regs) c
      end
  end.

(** The bytes read from the FIFO found in a history, oldest first. *)
Fixpoint fifo_bytes (regs : RegMap) (l : list HwCall) : list byte :=
  match l with
  | [] => []
  | c :: l' =>
      fifo_bytes regs l' ++
      match reads_from (RegFifo regs) c with
      | Some v => [v]
      | None => []
      end
  end.

(** How many polls of the flags register found in a history showed the
    FIFO empty (the FifoNotEmpty bit clear, as [fifoEmpty] tests it). *)
Fixpoint empty_polls (regs : RegMap) (l : list HwCall) : nat :=
  match l with
  | [] => 0
  | c :: l' =>
      match reads_from (RegIrqFlags2 regs) c with
      | Some v =>
          if Byte.eqb (byte_and v (FifoNotEmpty regs)) x00
          then S (empty_polls regs l')
          else empty_polls regs l'
      | None => empty_polls regs l'
      end
  end.

(** The calls an operation added to the history: those of [r'] that
    are not yet in [r]. *)
Definition calls_since (r r' : Radio) : list HwCall :=
  firstn (length (calls (hw r')) - length (calls (hw r))) (calls (hw r')).

(** ** Chips *)

(** A chip that never keeps the driver waiting: no call fails, the flags
    register reads zero (FIFO empty, level below threshold) and every
    other register reads as the Standby mode code. *)
Definition idle_chip (regs : RegMap) : Chip := {|
  chip_read := fun _ addr =>
    if Byte.eqb addr (RegIrqFlags2 regs) then x00 else StandbyMode regs;
  chip_rssi := fun _ => (-60)%Z;
  chip_fails := fun _ => false
|}.

(** A chip stuck in Transmitter mode: no call fails, but the mode
    register never reads Standby. *)
Definition stuck_chip (regs : RegMap) : Chip := {|
  chip_read := fun _ addr =>
    if Byte.eqb addr (RegIrqFlags2 regs) then x00 else TransmitterMode regs;
  chip_rssi := fun _ => (-60)%Z;
  chip_fails := fun _ => false
|}.

(** A chip whose every call fails. *)
Definition dead_chip : Chip := {|
  chip_read := fun _ _ => x00;
  chip_rssi := fun _ => 0%Z;
  chip_fails := fun _ => true
|}.

(** A chip whose FIFO delivers the bytes [bs], one per read of the FIFO
    register, to a driver that had read [base] bytes before: the flags
    register shows FifoNotEmpty while bytes remain.  No call fails. *)
Definition feed_chip (regs : RegMap) (base : nat) (bs : list byte) : Chip := {|
  chip_read := fun l addr =>
    let k := fifo_reads regs l - base in
    if Byte.eqb addr (RegFifo regs) then nth k bs x00
    else if Byte.eqb addr (RegIrqFlags2 regs) then
      if k <? length bs then FifoNotEmpty regs else x00
    else StandbyMode regs;
  chip_rssi := fun _ => (-60)%Z;
  chip_fails := fun _ => false
|}.

(** Modelled from the spec: the constructor of [Radio] is declared
    outside radio.go.  An instance as created: nothing called yet, latch
    clear, empty accumulator, Sleep mode (the initial mode), and a zeroed
    transmit buffer sized for the largest framed packet (110 payload
    bytes and up to 5 header or terminator bytes). *)
Definition new_radio (regs : RegMap) : Radio := {|
  hw := {| calls := []; fault := None |};
  receiveBuffer := [];
  txPacket := repeat x00 (maxPacketSize + 5);
  err := None;
  curMode := SleepMode regs
|}.

(** An instance whose latch was set by a buffer error. *)
Definition latched_radio (regs : RegMap) : Radio :=
  set_err (Some io_EOF) (new_radio regs).

(** ** Assumptions on the chip *)

(** No register operation ever fails. *)
Definition never_fails (chip : Chip) : Prop :=
  forall l, chip_fails chip l = false.

(** The mode register never reads as Standby. *)
Definition never_standby (regs : RegMap) (chip : Chip) : Prop :=
  forall l, chip_read chip l (RegOpMode regs) <> StandbyMode regs.

(** The history after [n] further consecutive reads of register [addr]. *)
Fixpoint polled (chip : Chip) (addr : byte) (n : nat) (l : list HwCall) : list HwCall :=
  match n with
  | O => l
  | S n' => polled chip addr n' (ReadRegister addr (chip_read chip l addr) :: l)
  end.

(** A chip that answers within [k] polls: from any history, polling the
    flags register shows the FIFO level below the threshold in fewer than
    [k] further reads, and polling the mode register shows Standby in
    fewer than [k] further reads; and no register operation fails. *)
Definition responsive (regs : RegMap) (chip : Chip) (k : nat) : Prop :=
  never_fails chip /\
  (forall l, exists j, j < k /\
     byte_and (chip_read chip (polled chip (RegIrqFlags2 regs) j l) (RegIrqFlags2 regs))
              (FifoLevel regs) = x00) /\
  (forall l, exists j, j < k /\
     chip_read chip (polled chip (RegOpMode regs) j l) (RegOpMode regs)
       = StandbyMode regs).

(** The instance when [Send] reaches [transmit]: the frame is in the
    transmit buffer [tx'], the FIFO overrun flag is cleared, Standby is
    requested and the auto modes are set. *)
Definition Send_armed (regs : RegMap) (chip : Chip) (tx' : list byte) (r : Radio) : Radio :=
  record_call chip (WriteRegister (RegAutoModes regs) (autoTransmit regs))
    (set_curMode (StandbyMode regs)
       (record_call chip (WriteRegister (RegOpMode regs) (StandbyMode regs))
          (record_call chip (WriteRegister (RegIrqFlags2 regs) (FifoOverrun regs))
             (set_txPacket tx' r)))).

(** What is left of a receive timeout after [n] waits of one
    [byteDuration] each ([timeout -= byteDuration], [n] times). *)
Definition budget_after (n : nat) (timeout : Z) : Z :=
  Nat.iter n (fun t => wrap64 (t - byteDuration)) timeout.

(** The packet [finishRX] makes of the accumulated bytes: nil when
    there are none. *)
Definition nil_if_empty (b : list byte) : packet :=
  match b with
  | [] => None
  | _ => Some b
  end.

(** ** The earlier variant kept in radio.go

    radio.go also holds an earlier [SendRadioHead] and [transmit]: one
    burst, explicit Transmitter mode, and a poll of the packet-sent
    flag. *)

Module Legacy.

Section Driver.

Variable regs : RegMap.
Variable chip : Chip.

(** [for r.Error() == nil { if (r.hw.ReadRegister(RegIrqFlags2) & 0x08) != 0 { break }; ... }] *)
Fixpoint awaitPacketSent (fuel : nat) : M unit := fun r =>
  match Error r with
  | Some _ => Done tt r
  | None =>
      match fuel with
      | O => OutOfFuel r
      | S fuel' =>
          (v <- hw_ReadRegister chip (RegIrqFlags2 regs) ;;
           if negb (Byte.eqb (byte_and v x08) x00) then ret tt
           else awaitPacketSent fuel') r
      end
  end.

Definition transmit (fuel : nat) (data : list byte) : M unit := fun r =>
  if fifoSize <? length data then Panic r
  else
    (clearFIFO regs chip ;;
     hw_WriteRegister chip (RegAutoModes regs) x00 ;;
     hw_WriteBurst chip (RegFifo regs) data ;;
     setMode regs chip (TransmitterMode regs) ;;
     awaitPacketSent fuel) r.

(** [copy(r.txPacket[5:], data)] after the header bytes, then
    [transmit(r.txPacket[:byte(len(data))+5])]. *)
Definition SendRadioHead (fuel : nat) (data : list byte) (to from id flags : byte)
  : M unit := fun r =>
  match Error r with
  | Some _ => Done tt r
  | None =>
      if maxPacketSize <? length data then Panic r
      else
        (txPacket_store 0 (byte_add (byte_of_len (length data)) x04) ;;
         txPacket_store 1 to ;;
         txPacket_store 2 from ;;
         txPacket_store 3 id ;;
         txPacket_store 4 flags ;;
         tx <- gets txPacket ;;
         if length tx <? 5 then panic
         else
           modify (set_txPacket (firstn 5 tx ++ go_copy (skipn 5 tx) data)) ;;
           setMode regs chip (StandbyMode regs) ;;
           tx' <- gets txPacket ;;
           match slice_to tx'
                   (N.to_nat (Byte.to_N (byte_add (byte_of_len (length data)) x05))) with
           | None => panic
           | Some frame =>
               transmit fuel frame ;;
               setMode regs chip (StandbyMode regs)
           end) r
  end.

(** [Send(data)]: the RadioHead send with the broadcast header
    [0xFF, 0xFF, 0x00, 0x00]. *)
Definition Send (fuel : nat) (data : list byte) : M unit :=
  SendRadioHead fuel data xff xff x00 x00.

(** The polling loop of the earlier [Receive]: the first byte read is
    the length.  It calls [fifoEmpty] and [finishRX], whose text is the
    same in both variants. *)
Fixpoint Receive_loop (fuel : nat) (timeout : Z) (rssi : Z) (length_ : Z)
  : M (packet * Z) := fun r =>
  match Error r with
  | Some _ => Done (None, rssi) r
  | None =>
      match fuel with
      | O => OutOfFuel r
      | S fuel' =>
          (empty <- fifoEmpty regs chip ;;
           if empty then
             if (timeout <=? 0)%Z then ret (None, rssi)
             else Receive_loop fuel' (wrap64 (timeout - byteDuration)) rssi length_
           else
             c <- hw_ReadRegister chip (RegFifo regs) ;;
             e <- gets Error ;;
             match e with
             | Some _ => ret (None, rssi)
             | None =>
                 if (length_ =? -1)%Z then
                   Receive_loop fuel' timeout rssi (int_of_byte c)
                 else
                   receiveBuffer_WriteByte c ;;
                   len <- gets (fun r => Buffer.Len (receiveBuffer r)) ;;
                   if (Z.of_nat len =? length_)%Z then finishRX regs chip rssi
                   else Receive_loop fuel' timeout rssi length_
             end) r
      end
  end.

(** [Receive(timeout)] of the earlier variant. *)
Definition Receive (fuel : nat) (timeout : Z) : M (packet * Z) := fun r =>
  match Error r with
  | Some _ => Done (None, 0%Z) r
  | None =>
      (hw_WriteRegister chip (RegAutoModes regs) x00 ;;
       setMode regs chip (ReceiverMode regs) ;;
       defer (setMode regs chip (SleepMode regs))
         (hw_AwaitInterrupt chip timeout ;;
          rssi <- ReadRSSI chip ;;
          Receive_loop fuel timeout rssi (-1)%Z)) r
  end.

(** [SendAndReceive(data, timeout)] of the earlier variant. *)
Definition SendAndReceive (fuel : nat) (data : list byte) (timeout : Z)
  : M (packet * Z) :=
  Send fuel data ;;
  e <- gets Error ;;
  match e with
  | Some _ => ret (None, 0%Z)
  | None => Receive fuel timeout
  end.

End Driver.

End Legacy.

(** ** Further assumptions on the chip *)

(** The flags register never shows a byte in the FIFO. *)
Definition fifo_stays_empty (regs : RegMap) (chip : Chip) : Prop :=
  forall l, byte_and (chip_read chip l (RegIrqFlags2 regs)) (FifoNotEmpty regs) = x00.

(** The flags register always shows a byte in the FIFO, and the FIFO
    register never reads zero. *)
Definition fifo_floods (regs : RegMap) (chip : Chip) : Prop :=
  (forall l, byte_and (chip_read chip l (RegIrqFlags2 regs)) (FifoNotEmpty regs) <> x00) /\
  (forall l, chip_read chip l (RegFifo regs) <> x00).

(** The flags register always shows the FIFO level above the threshold. *)
Definition level_stays_high (regs : RegMap) (chip : Chip) : Prop :=
  forall l, byte_and (chip_read chip l (RegIrqFlags2 regs)) (FifoLevel regs) <> x00.

(** The flags register never shows the packet-sent bit. *)
Definition never_sent (regs : RegMap) (chip : Chip) : Prop :=
  forall l, byte_and (chip_read chip l (RegIrqFlags2 regs)) x08 = x00.

(** No register operation fails, and from any history the flags
    register shows the packet-sent bit in fewer than [k] further reads. *)
Definition sends_within (regs : RegMap) (chip : Chip) (k : nat) : Prop :=
  never_fails chip /\
  (forall l, exists j, j < k /\
     byte_and (chip_read chip (polled chip (RegIrqFlags2 regs) j l) (RegIrqFlags2 regs))
              x08 <> x00).

(** A chip whose FIFO always has a byte, [0x55], to read.  No call fails. *)
Definition flood_chip (regs : RegMap) : Chip := {|
  chip_read := fun _ addr =>
    if Byte.eqb addr (RegFifo regs) then x55
    else if Byte.eqb addr (RegIrqFlags2 regs) then FifoNotEmpty regs
    else StandbyMode regs;
  chip_rssi := fun _ => (-60)%Z;
  chip_fails := fun _ => false
|}.

(** A chip whose FIFO level never drops below the threshold.  No call
    fails. *)
Definition full_chip (regs : RegMap) : Chip := {|
  chip_read := fun _ addr =>
    if Byte.eqb addr (RegIrqFlags2 regs) then FifoLevel regs else StandbyMode regs;
  chip_rssi := fun _ => (-60)%Z;
  chip_fails := fun _ => false
|}.

(** A chip for the earlier variant: no call fails and the flags
    register shows the packet-sent bit. *)
Definition sent_chip (regs : RegMap) : Chip := {|
  chip_read := fun _ addr =>
    if Byte.eqb addr (RegIrqFlags2 regs) then x08 else StandbyMode regs;
  chip_rssi := fun _ => (-60)%Z;
  chip_fails := fun _ => false
|}.

(** The header [SendRadioHead] stores at the head of the transmit
    buffer: LENGTH, TO, FROM, ID, FLAGS. *)
Definition radiohead_header (n : nat) (to from id flags : byte) : list byte :=
  [byte_add (byte_of_len n) x04; to; from; id; flags].

(** The RSSI a receive reads after the interrupt wait, and the instance
    when its polling loop starts: auto modes off, Receiver mode
    requested, the interrupt awaited and the RSSI read. *)
Definition Receive_rssi (regs : RegMap) (chip : Chip) (timeout : Z) (r : Radio) : Z :=
  chip_rssi chip
    (AwaitInterrupt timeout
       :: WriteRegister (RegOpMode regs) (ReceiverMode regs)
       :: WriteRegister (RegAutoModes regs) x00 :: calls (hw r)).

Definition Receive_armed (regs : RegMap) (chip : Chip) (timeout : Z) (r : Radio) : Radio :=
  record_call chip (RSSI (Receive_rssi regs chip timeout r))
    (record_call chip (AwaitInterrupt timeout)
       (set_curMode (ReceiverMode regs)
          (record_call chip (WriteRegister (RegOpMode regs) (ReceiverMode regs))
             (record_call chip (WriteRegister (RegAutoModes regs) x00) r)))).

(** The instance after the deferred [setMode(SleepMode)]. *)
Definition asleep (regs : RegMap) (chip : Chip) (r : Radio) : Radio :=
  set_curMode (SleepMode regs)
    (record_call chip (WriteRegister (RegOpMode regs) (SleepMode regs)) r).

(** What holds of a receive however it ends, from instance [r]: it
    wrote nothing to the FIFO, it did not panic, and with a chip that
    fails no operation the latch is still clear. *)
Definition receive_safe (regs : RegMap) (chip : Chip) (r : Radio)
    (res : Result (packet * Z)) : Prop :=
  fifo_bursts regs (calls (hw (state_of res))) = fifo_bursts regs (calls (hw r)) /\
  (forall r', res <> Panic r') /\
  (never_fails chip -> Error r = None -> Error (state_of res) = None).

(** An instance after an aborted receive: one byte, [0x41], arrived and
    the call timed out. *)
Definition radio_with_partial_packet (regs : RegMap) : Radio :=
  state_of (Receive regs (feed_chip regs 0 [x41]) 9 0 (new_radio regs)).

(** * Properties *)

(** ** Bytes *)

Lemma to_N_byte_of_N (n : N) : Byte.to_N (byte_of_N n) = (n mod 256)%N.
Proof.
  unfold byte_of_N.
  destruct (Byte.of_N (n mod 256)) as [b|] eqn:E.
  - now apply Byte.to_of_N.
  - apply Byte.of_N_None_iff in E.
    assert (n mod 256 < 256)%N by (apply N.mod_lt; discriminate).
    lia.
Qed.

Lemma byte_of_N_to_N (b : byte) : byte_of_N (Byte.to_N b) = b.
Proof.
  unfold byte_of_N.
  assert (H := Byte.to_N_bounded b).
  rewrite N.mod_small by lia.
  now rewrite Byte.of_to_N.
Qed.

Lemma byte_and_diag (b : byte) : byte_and b b = b.
Proof.
  unfold byte_and. rewrite N.land_diag. apply byte_of_N_to_N.
Qed.

Lemma byte_eqb_refl (b : byte) : Byte.eqb b b = true.
Proof. now apply Byte.byte_dec_lb. Qed.

Lemma byte_eqb_neq (a b : byte) : a <> b -> Byte.eqb a b = false.
Proof.
  intros H. destruct (Byte.eqb a b) eqn:E; [|reflexivity].
  apply Byte.byte_dec_bl in E. contradiction.
Qed.

(** The length byte of a headered frame does not wrap for payloads the
    driver accepts. *)
Lemma int_of_length_byte (n : nat) :
  n + 4 < 256 ->
  int_of_byte (byte_add (byte_of_len n) x04) = Z.of_nat (n + 4).
Proof.
  intros H. unfold int_of_byte, byte_add, byte_of_len.
  rewrite !to_N_byte_of_N. change (Byte.to_N x04) with 4%N.
  rewrite (N.mod_small (N.of_nat n)) by lia.
  rewrite N.mod_small by lia. lia.
Qed.

(** ** The monad *)

Lemma bind_Done {A B} (m : M A) (k : A -> M B) r b r' :
  bind m k r = Done b r' ->
  exists a r1, m r = Done a r1 /\ k a r1 = Done b r'.
Proof.
  unfold bind. destruct (m r) as [a r1|r1|r1]; try discriminate.
  intros H. now exists a, r1.
Qed.

Lemma defer_Done {A} (d : M unit) (body : M A) r a r' :
  defer d body r = Done a r' ->
  exists r1 u, body r = Done a r1 /\ d r1 = Done u r'.
Proof.
  unfold defer. destruct (body r) as [a1 r1|r1|r1].
  - destruct (d r1) as [u r2|r2|r2] eqn:E; try discriminate.
    intros H. injection H as -> ->. now exists r1, u.
  - destruct (d r1); discriminate.
  - discriminate.
Qed.

(** Peels one monadic step off a hypothesis [_ = Done _ _]. *)
Tactic Notation "step_in" hyp(H) "as" ident(a) ident(r1) ident(H1) :=
  apply bind_Done in H; destruct H as (a & r1 & H1 & H).

Tactic Notation "skip_in" hyp(H) "as" ident(a) :=
  let r1 := fresh "r" in
  let H1 := fresh "Hstep" in
  apply bind_Done in H; destruct H as (a & r1 & H1 & H); clear H1.

Ltac done_inv H :=
  cbv beta iota in H;
  first [ injection H as ? ?
        | unfold ret, modify, gets in H; injection H as ? ? ];
  subst.

(** ** The error latch at entry *)

Section Entry.

Variable regs : RegMap.
Variable chip : Chip.

(** A failure recorded by the handle stays: the latch is sticky. *)
Lemma record_call_sticky c r :
  Error r <> None -> Error (record_call chip c r) <> None.
Proof.
  unfold Error, record_call. simpl.
  destruct (fault (hw r)); [discriminate|].
  intros H. destruct (chip_fails chip _); [discriminate|exact H].
Qed.

(** C6. Every public operation invoked with the error latch set
    returns at once: the instance, and with it the history of hardware
    calls, is unchanged, [Send] and [SendRadioHead] return nothing, and
    the receive-shaped operations return the nil packet and RSSI 0. *)
Theorem latched_operations_touch_nothing
    (fuel : nat) (data : list byte) (to from id flags : byte)
    (timeout : Z) (r : Radio) :
  Error r <> None ->
  Send regs chip fuel data r = Done tt r /\
  SendRadioHead regs chip fuel data to from id flags r = Done tt r /\
  Receive regs chip fuel timeout r = Done (None, 0%Z) r /\
  ReceiveRadioHead regs chip fuel timeout r = Done (None, 0%Z) r /\
  SendAndReceive regs chip fuel data timeout r = Done (None, 0%Z) r.
Proof.
  intros H.
  assert (HS : Send regs chip fuel data r = Done tt r).
  { unfold Send. destruct (Error r); [reflexivity|contradiction]. }
  repeat split.
  - exact HS.
  - unfold SendRadioHead. destruct (Error r); [reflexivity|contradiction].
  - unfold Receive. destruct (Error r); [reflexivity|contradiction].
  - unfold ReceiveRadioHead. destruct (Error r); [reflexivity|contradiction].
  - unfold SendAndReceive, bind. rewrite HS. unfold gets.
    destruct (Error r); [reflexivity|contradiction].
Qed.

(** C9. With the latch clear, a payload longer than 110 bytes makes
    [Send] and [SendRadioHead] panic on the instance as it was passed:
    no hardware call was made, and the call does not return. *)
Theorem oversized_payload_panics
    (fuel : nat) (data : list byte) (to from id flags : byte) (r : Radio) :
  Error r = None ->
  maxPacketSize < length data ->
  Send regs chip fuel data r = Panic r /\
  SendRadioHead regs chip fuel data to from id flags r = Panic r.
Proof.
  intros HE HL. apply Nat.ltb_lt in HL.
  unfold Send, SendRadioHead. now rewrite HE, HL.
Qed.

End Entry.

Lemma latched_operations_touch_nothing_witness :
  Send rfm69_regs (idle_chip rfm69_regs) 9 [x01] (latched_radio rfm69_regs)
    = Done tt (latched_radio rfm69_regs) /\
  SendRadioHead rfm69_regs (idle_chip rfm69_regs) 9 [x01] x02 x01 x05 x00
    (latched_radio rfm69_regs) = Done tt (latched_radio rfm69_regs) /\
  Receive rfm69_regs (idle_chip rfm69_regs) 9 5000000 (latched_radio rfm69_regs)
    = Done (None, 0%Z) (latched_radio rfm69_regs) /\
  ReceiveRadioHead rfm69_regs (idle_chip rfm69_regs) 9 5000000 (latched_radio rfm69_regs)
    = Done (None, 0%Z) (latched_radio rfm69_regs) /\
  SendAndReceive rfm69_regs (idle_chip rfm69_regs) 9 [x01] 5000000
    (latched_radio rfm69_regs) = Done (None, 0%Z) (latched_radio rfm69_regs).
Proof.
  apply (latched_operations_touch_nothing rfm69_regs (idle_chip rfm69_regs)
           9 [x01] x02 x01 x05 x00 5000000%Z (latched_radio rfm69_regs)).
  vm_compute. discriminate.
Defined.

Lemma oversized_payload_panics_witness :
  Send rfm69_regs (idle_chip rfm69_regs) 9 (repeat x07 111) (new_radio rfm69_regs)
    = Panic (new_radio rfm69_regs) /\
  SendRadioHead rfm69_regs (idle_chip rfm69_regs) 9 (repeat x07 111) x02 x01 x05 x00
    (new_radio rfm69_regs) = Panic (new_radio rfm69_regs).
Proof.
  apply (oversized_payload_panics rfm69_regs (idle_chip rfm69_regs)
           9 (repeat x07 111) x02 x01 x05 x00 (new_radio rfm69_regs)).
  - reflexivity.
  - vm_compute. lia.
Defined.

Lemma bind_eq {A B} (m : M A) (k : A -> M B) r a r1 :
  m r = Done a r1 -> bind m k r = k a r1.
Proof. intros H. unfold bind. now rewrite H. Qed.

Lemma bind_OutOfFuel {A B} (m : M A) (k : A -> M B) r r1 :
  m r = OutOfFuel r1 -> bind m k r = OutOfFuel r1.
Proof. intros H. unfold bind. now rewrite H. Qed.

(** ** The transmit buffer *)

Lemma go_copy_fits (dst src : list byte) :
  length src <= length dst ->
  go_copy dst src = src ++ skipn (length src) dst.
Proof.
  intros H. unfold go_copy.
  rewrite Nat.min_r by exact H. now rewrite firstn_all.
Qed.

(** [copy(r.txPacket, data); r.txPacket[len(data)] = 0] followed by
    [r.txPacket[:len(data)+1]] yields the payload and its terminator. *)
Lemma raw_frame_in_txPacket (tx data : list byte) :
  length data < length tx ->
  exists tx',
    store (go_copy tx data) (length data) x00 = Some tx' /\
    slice_to tx' (length data + 1) = Some (data ++ [x00]).
Proof.
  intros H. rewrite go_copy_fits by lia.
  exists (data ++ x00 :: skipn (S (length data)) tx).
  assert (HL : length (skipn (length data) tx) = length tx - length data)
    by apply length_skipn.
  split.
  - unfold store. rewrite length_app, HL.
    replace (length data <? length data + (length tx - length data)) with true
      by (symmetry; apply Nat.ltb_lt; lia).
    f_equal.
    rewrite firstn_app, Nat.sub_diag, firstn_all, firstn_0, app_nil_r.
    f_equal. f_equal.
    rewrite skipn_app, skipn_all2 by lia.
    replace (S (length data) - length data) with 1 by lia.
    rewrite skipn_skipn. reflexivity.
  - generalize (skipn (S (length data)) tx). intros rest.
    unfold slice_to. rewrite length_app. cbn [length].
    replace (length data + 1 <=? length data + S (length rest))
      with true by (symmetry; apply Nat.leb_le; lia).
    f_equal.
    rewrite firstn_app, firstn_all2 by lia.
    replace (length data + 1 - length data) with 1 by lia.
    reflexivity.
Qed.

Section Transmit.

Variable regs : RegMap.
Variable chip : Chip.

Lemma Send_reaches_transmit fuel data r :
  Error r = None ->
  length data <= maxPacketSize ->
  maxPacketSize < length (txPacket r) ->
  exists tx',
    Send regs chip fuel data r =
      (transmit regs chip fuel (data ++ [x00]) ;; setMode regs chip (StandbyMode regs))
        (Send_armed regs chip tx' r).
Proof.
  intros HE HL HT.
  destruct (raw_frame_in_txPacket (txPacket r) data) as (tx' & Hst & Hsl); [lia|].
  exists tx'. unfold Send. rewrite HE.
  replace (maxPacketSize <? length data) with false
    by (symmetry; apply Nat.ltb_ge; exact HL).
  unfold bind at 1. unfold modify at 1.
  unfold bind at 1. unfold txPacket_store at 1.
  cbn [txPacket set_txPacket]. rewrite Hst.
  unfold bind at 1. unfold gets at 1.
  cbn [txPacket set_txPacket]. rewrite Hsl.
  reflexivity.
Qed.

Lemma record_call_ok c r :
  never_fails chip -> Error r = None -> Error (record_call chip c r) = None.
Proof.
  intros HN. unfold Error, record_call. simpl.
  destruct (fault (hw r)); [discriminate|].
  now rewrite HN.
Qed.

Lemma Send_armed_ok tx' r :
  never_fails chip -> Error r = None -> Error (Send_armed regs chip tx' r) = None.
Proof.
  intros HN HE. unfold Send_armed.
  apply record_call_ok; [exact HN|].
  change (Error (record_call chip (WriteRegister (RegOpMode regs) (StandbyMode regs))
            (record_call chip (WriteRegister (RegIrqFlags2 regs) (FifoOverrun regs))
               (set_txPacket tx' r))) = None).
  apply record_call_ok; [exact HN|].
  apply record_call_ok; [exact HN|].
  exact HE.
Qed.

(** *** Unfolding the loops *)

Lemma finishTX_loop_S fuel r :
  Error r = None ->
  finishTX_loop regs chip (S fuel) r =
    (s <- mode regs chip ;;
     if Byte.eqb s (StandbyMode regs) then ret tt
     else finishTX_loop regs chip fuel) r.
Proof. intros HE. cbn [finishTX_loop]. now rewrite HE. Qed.

Lemma awaitThreshold_S fuel avail r :
  Error r = None ->
  awaitThreshold regs chip (S fuel) avail r =
    (exceeded <- fifoThresholdExceeded regs chip ;;
     if exceeded then awaitThreshold regs chip fuel avail
     else ret (fifoSize - fifoThreshold)) r.
Proof. intros HE. cbn [awaitThreshold]. now rewrite HE. Qed.

Lemma transmit_loop_S fuel avail data r :
  Error r = None ->
  transmit_loop regs chip (S fuel) avail data r =
    (let avail1 := if length data <? avail then length data else avail in
     hw_WriteBurst chip (RegFifo regs) (firstn avail1 data) ;;
     let data1 := skipn avail1 data in
     if length data1 =? 0 then ret avail1
     else
       avail2 <- awaitThreshold regs chip fuel avail1 ;;
       transmit_loop regs chip fuel avail2 data1) r.
Proof. intros HE. cbn [transmit_loop]. now rewrite HE. Qed.

Lemma mode_run r :
  mode regs chip r =
    let v := chip_read chip (calls (hw r)) (RegOpMode regs) in
    Done v (set_curMode v (record_call chip (ReadRegister (RegOpMode regs) v) r)).
Proof. reflexivity. Qed.

Lemma fifoThresholdExceeded_run r :
  fifoThresholdExceeded regs chip r =
    let v := chip_read chip (calls (hw r)) (RegIrqFlags2 regs) in
    Done (negb (Byte.eqb (byte_and v (FifoLevel regs)) x00))
         (record_call chip (ReadRegister (RegIrqFlags2 regs) v) r).
Proof. reflexivity. Qed.

Lemma setMode_run target r :
  setMode regs chip target r =
    Done tt (set_curMode target
               (record_call chip (WriteRegister (RegOpMode regs) target) r)).
Proof. reflexivity. Qed.

(** *** The unbounded completion poll *)

Lemma finishTX_loop_stuck fuel r :
  never_fails chip -> never_standby regs chip -> Error r = None ->
  exists r',
    finishTX_loop regs chip fuel r = OutOfFuel r' /\
    Error r' = None /\
    length (calls (hw r')) = fuel + length (calls (hw r)).
Proof.
  intros HN HS. revert r.
  induction fuel as [|fuel IH]; intros r HE.
  - exists r. cbn [finishTX_loop]. now rewrite HE.
  - rewrite finishTX_loop_S by exact HE.
    set (v := chip_read chip (calls (hw r)) (RegOpMode regs)).
    set (r1 := set_curMode v (record_call chip (ReadRegister (RegOpMode regs) v) r)).
    assert (HE1 : Error r1 = None).
    { change (Error (record_call chip (ReadRegister (RegOpMode regs) v) r) = None).
      now apply record_call_ok. }
    destruct (IH r1 HE1) as (r' & Hrun & HE' & Hlen).
    exists r'. split; [|split].
    + rewrite (bind_eq _ _ r v r1) by apply mode_run.
      rewrite byte_eqb_neq by apply HS. exact Hrun.
    + exact HE'.
    + rewrite Hlen. subst r1. simpl. lia.
Qed.

(** With a chip that never fails, the pacing poll and the chunking
    loop either return with the latch still clear or are still running
    when the fuel is spent; they do not panic. *)
Lemma awaitThreshold_progress fuel avail r :
  never_fails chip -> Error r = None ->
  (exists a r', awaitThreshold regs chip fuel avail r = Done a r' /\ Error r' = None) \/
  (exists r', awaitThreshold regs chip fuel avail r = OutOfFuel r').
Proof.
  intros HN. revert r.
  induction fuel as [|fuel IH]; intros r HE.
  - right. exists r. cbn [awaitThreshold]. now rewrite HE.
  - rewrite awaitThreshold_S by exact HE.
    erewrite bind_eq by apply fifoThresholdExceeded_run.
    cbv zeta.
    match goal with |- context [record_call chip ?c r] =>
      assert (HE1 : Error (record_call chip c r) = None) by now apply record_call_ok
    end.
    destruct (negb _).
    + now apply IH.
    + left. eexists _, _. split; [reflexivity|exact HE1].
Qed.

Lemma transmit_loop_progress fuel avail data r :
  never_fails chip -> Error r = None ->
  (exists a r', transmit_loop regs chip fuel avail data r = Done a r' /\ Error r' = None) \/
  (exists r', transmit_loop regs chip fuel avail data r = OutOfFuel r').
Proof.
  intros HN. revert avail data r.
  induction fuel as [|fuel IH]; intros avail data r HE.
  - right. exists r. cbn [transmit_loop]. now rewrite HE.
  - rewrite transmit_loop_S by exact HE. cbv zeta.
    set (avail1 := if length data <? avail then length data else avail).
    assert (HE1 : Error (record_call chip (WriteBurst (RegFifo regs) (firstn avail1 data)) r)
                  = None) by now apply record_call_ok.
    rewrite (bind_eq _ _ r tt
               (record_call chip (WriteBurst (RegFifo regs) (firstn avail1 data)) r))
      by reflexivity.
    revert HE1.
    generalize (record_call chip (WriteBurst (RegFifo regs) (firstn avail1 data)) r).
    intros r1 HE1.
    destruct (length (skipn avail1 data) =? 0).
    + left. eexists _, _. split; [reflexivity|exact HE1].
    + destruct (awaitThreshold_progress fuel avail1 r1 HN HE1)
        as [(a & r2 & Hrun & HE2)|(r2 & Hrun)].
      * rewrite (bind_eq _ _ _ _ _ Hrun). now apply IH.
      * right. exists r2. now apply bind_OutOfFuel.
Qed.

End Transmit.

(** C7. The completion poll of [finishTX] has no bound: with a chip
    that never fails and whose mode register never reads Standby, the
    poll is still running after any number of iterations, each of which
    made one more read of the mode register, and so [Send] of any
    accepted payload is still running whatever the fuel. *)
Theorem finishTX_never_returns_without_standby
    (regs : RegMap) (chip : Chip) (r : Radio) :
  never_fails chip ->
  never_standby regs chip ->
  Error r = None ->
  (forall fuel numBytes, exists r',
      finishTX regs chip fuel numBytes r = OutOfFuel r' /\
      length (calls (hw r')) = fuel + length (calls (hw r))) /\
  (forall fuel data,
      length data <= maxPacketSize ->
      maxPacketSize < length (txPacket r) ->
      exists r', Send regs chip fuel data r = OutOfFuel r').
Proof.
  intros HN HS HE. split.
  - intros fuel numBytes. unfold finishTX.
    destruct (finishTX_loop_stuck regs chip fuel r HN HS HE) as (r' & H1 & _ & H2).
    now exists r'.
  - intros fuel data HL HT.
    destruct (Send_reaches_transmit regs chip fuel data r HE HL HT) as (tx' & ->).
    assert (HA := Send_armed_ok regs chip tx' r HN HE).
    unfold transmit.
    destruct (transmit_loop_progress regs chip fuel fifoSize (data ++ [x00]) _ HN HA)
      as [(a & r1 & Hrun & HE1)|(r1 & Hrun)].
    + destruct (finishTX_loop_stuck regs chip fuel r1 HN HS HE1) as (r' & H1 & _).
      exists r'. apply bind_OutOfFuel. rewrite (bind_eq _ _ _ _ _ Hrun).
      exact H1.
    + exists r1. apply bind_OutOfFuel. now apply bind_OutOfFuel.
Qed.

Lemma finishTX_never_returns_without_standby_witness :
  (forall fuel numBytes, exists r',
      finishTX rfm69_regs (stuck_chip rfm69_regs) fuel numBytes (new_radio rfm69_regs)
        = OutOfFuel r' /\
      length (calls (hw r')) = fuel + length (calls (hw (new_radio rfm69_regs)))) /\
  (forall fuel data,
      length data <= maxPacketSize ->
      maxPacketSize < length (txPacket (new_radio rfm69_regs)) ->
      exists r', Send rfm69_regs (stuck_chip rfm69_regs) fuel data (new_radio rfm69_regs)
                   = OutOfFuel r').
Proof.
  apply (finishTX_never_returns_without_standby rfm69_regs (stuck_chip rfm69_regs)
           (new_radio rfm69_regs)).
  - intros l. reflexivity.
  - intros l. vm_compute. discriminate.
  - reflexivity.
Defined.

(** ** Transmission to a responsive chip *)

Lemma fifo_bursts_cons regs c l :
  fifo_bursts regs (c :: l) = fifo_bursts regs l ++ burst_to (RegFifo regs) c.
Proof. reflexivity. Qed.

Lemma calls_record_call chip c r :
  calls (hw (record_call chip c r)) = c :: calls (hw r).
Proof. reflexivity. Qed.

Lemma burst_to_fifo regs data :
  burst_to (RegFifo regs) (WriteBurst (RegFifo regs) data) = [data].
Proof. unfold burst_to. now rewrite byte_eqb_refl. Qed.

Section Responsive.

Variable regs : RegMap.
Variable chip : Chip.
Hypothesis HN : never_fails chip.

(** The pacing poll returns once the flags register shows the level
    below the threshold, with [avail = fifoSize - fifoThreshold]. *)
Lemma awaitThreshold_answers j : forall fuel avail r,
  Error r = None ->
  j < fuel ->
  byte_and (chip_read chip (polled chip (RegIrqFlags2 regs) j (calls (hw r)))
              (RegIrqFlags2 regs)) (FifoLevel regs) = x00 ->
  exists r',
    awaitThreshold regs chip fuel avail r = Done (fifoSize - fifoThreshold) r' /\
    Error r' = None /\
    fifo_bursts regs (calls (hw r')) = fifo_bursts regs (calls (hw r)).
Proof.
  induction j as [|j IH]; intros fuel avail r HE Hj Hclear;
    (destruct fuel as [|fuel]; [lia|]);
    rewrite awaitThreshold_S by exact HE;
    erewrite bind_eq by apply fifoThresholdExceeded_run;
    cbv zeta;
    set (v := chip_read chip (calls (hw r)) (RegIrqFlags2 regs));
    set (r1 := record_call chip (ReadRegister (RegIrqFlags2 regs) v) r);
    assert (HE1 : Error r1 = None) by (now apply record_call_ok);
    assert (HB1 : fifo_bursts regs (calls (hw r1)) = fifo_bursts regs (calls (hw r)))
      by (subst r1; simpl; apply app_nil_r).
  - simpl in Hclear. fold v in Hclear. rewrite Hclear. simpl.
    exists r1. now repeat split.
  - destruct (negb (Byte.eqb (byte_and v (FifoLevel regs)) x00)).
    + destruct (IH fuel avail r1 HE1 ltac:(lia) Hclear) as (r' & Hrun & HE' & HB').
      exists r'. repeat split; [exact Hrun|exact HE'|congruence].
    + exists r1. now repeat split.
Qed.

(** The completion poll returns once the mode register reads Standby. *)
Lemma finishTX_loop_answers j : forall fuel r,
  Error r = None ->
  j < fuel ->
  chip_read chip (polled chip (RegOpMode regs) j (calls (hw r))) (RegOpMode regs)
    = StandbyMode regs ->
  exists r',
    finishTX_loop regs chip fuel r = Done tt r' /\
    Error r' = None /\
    fifo_bursts regs (calls (hw r')) = fifo_bursts regs (calls (hw r)).
Proof.
  induction j as [|j IH]; intros fuel r HE Hj Hsb;
    (destruct fuel as [|fuel]; [lia|]);
    rewrite finishTX_loop_S by exact HE;
    erewrite bind_eq by apply mode_run;
    cbv zeta;
    set (v := chip_read chip (calls (hw r)) (RegOpMode regs));
    set (r1 := set_curMode v (record_call chip (ReadRegister (RegOpMode regs) v) r));
    assert (HE1 : Error r1 = None)
      by (change (Error (record_call chip (ReadRegister (RegOpMode regs) v) r) = None);
          now apply record_call_ok);
    assert (HB1 : fifo_bursts regs (calls (hw r1)) = fifo_bursts regs (calls (hw r)))
      by (subst r1; simpl; apply app_nil_r).
  - simpl in Hsb. fold v in Hsb. rewrite Hsb, byte_eqb_refl.
    exists r1. now repeat split.
  - destruct (Byte.eqb v (StandbyMode regs)).
    + exists r1. now repeat split.
    + destruct (IH fuel r1 HE1 ltac:(lia) Hsb) as (r' & Hrun & HE' & HB').
      exists r'. repeat split; [exact Hrun|exact HE'|congruence].
Qed.

Variable k : nat.
Hypothesis HR : responsive regs chip k.

(** The chunking loop writes all of [data]: a first burst of at most
    [avail] bytes, then bursts of at most [fifoSize - fifoThreshold]. *)
Lemma transmit_loop_writes_all fuel : forall avail data r,
  Error r = None ->
  0 < avail ->
  length data + k < fuel ->
  exists a r' c rest,
    transmit_loop regs chip fuel avail data r = Done a r' /\
    Error r' = None /\
    fifo_bursts regs (calls (hw r')) = fifo_bursts regs (calls (hw r)) ++ c :: rest /\
    concat (c :: rest) = data /\
    length c <= avail /\
    Forall (fun x => length x <= fifoSize - fifoThreshold) rest.
Proof.
  induction fuel as [|fuel IH]; intros avail data r HE Ha Hf; [lia|].
  rewrite transmit_loop_S by exact HE. cbv zeta.
  set (avail1 := if length data <? avail then length data else avail).
  assert (Ha1 : avail1 <= avail /\ avail1 <= length data /\
                (length data <> 0 -> 0 < avail1)).
  { subst avail1. destruct (length data <? avail) eqn:E.
    - apply Nat.ltb_lt in E. lia.
    - apply Nat.ltb_ge in E. lia. }
  set (c := firstn avail1 data).
  set (r1 := record_call chip (WriteBurst (RegFifo regs) c) r).
  rewrite (bind_eq _ _ r tt r1) by reflexivity.
  assert (HE1 : Error r1 = None) by now apply record_call_ok.
  assert (HB1 : fifo_bursts regs (calls (hw r1)) = fifo_bursts regs (calls (hw r)) ++ [c]).
  { subst r1. now rewrite calls_record_call, fifo_bursts_cons, burst_to_fifo. }
  assert (Hc : length c <= avail).
  { subst c. rewrite length_firstn. lia. }
  assert (Hsplit : c ++ skipn avail1 data = data) by apply firstn_skipn.
  assert (Hlen : length (skipn avail1 data) = length data - avail1) by apply length_skipn.
  destruct (length (skipn avail1 data) =? 0) eqn:E.
  - apply Nat.eqb_eq in E. apply length_zero_iff_nil in E.
    exists avail1, r1, c, []. repeat split; try assumption.
    + simpl. rewrite app_nil_r. rewrite E, app_nil_r in Hsplit. exact Hsplit.
    + constructor.
  - apply Nat.eqb_neq in E.
    destruct HR as (_ & Hlevel & _).
    destruct (Hlevel (calls (hw r1))) as (j & Hj & Hclear).
    destruct (awaitThreshold_answers j fuel avail1 r1 HE1 ltac:(lia) Hclear)
      as (r2 & Hrun2 & HE2 & HB2).
    rewrite (bind_eq _ _ _ _ _ Hrun2).
    destruct (IH (fifoSize - fifoThreshold) (skipn avail1 data) r2 HE2)
      as (a & r' & c' & rest' & Hrun & HE' & HB' & Hcat & Hc' & Hrest).
    { unfold fifoSize, fifoThreshold. lia. }
    { lia. }
    exists a, r', c, (c' :: rest'). repeat split.
    + exact Hrun.
    + exact HE'.
    + rewrite HB', HB2, HB1, <- app_assoc. reflexivity.
    + change (concat (c :: c' :: rest')) with (c ++ concat (c' :: rest')).
      now rewrite Hcat.
    + exact Hc.
    + constructor; assumption.
Qed.

(** What [Send] does for an accepted payload on a responsive chip,
    given enough fuel for its polls. *)
Lemma Send_on_responsive_chip fuel data r :
  Error r = None ->
  length data <= maxPacketSize ->
  maxPacketSize < length (txPacket r) ->
  length data + 1 + k < fuel ->
  exists r' c rest,
    Send regs chip fuel data r = Done tt r' /\
    Error r' = None /\
    curMode r' = StandbyMode regs /\
    fifo_bursts regs (calls (hw r')) = fifo_bursts regs (calls (hw r)) ++ c :: rest /\
    concat (c :: rest) = data ++ [x00] /\
    length c <= fifoSize /\
    Forall (fun x => length x <= fifoSize - fifoThreshold) rest.
Proof.
  intros HE HL HT Hf.
  destruct (Send_reaches_transmit regs chip fuel data r HE HL HT) as (tx' & ->).
  assert (HA := Send_armed_ok regs chip tx' r HN HE).
  assert (HBA : fifo_bursts regs (calls (hw (Send_armed regs chip tx' r)))
                = fifo_bursts regs (calls (hw r))).
  { unfold Send_armed. simpl. now rewrite !app_nil_r. }
  destruct (transmit_loop_writes_all fuel fifoSize (data ++ [x00]) _ HA)
    as (a & r1 & c & rest & Hrun & HE1 & HB1 & Hcat & Hc & Hrest).
  { unfold fifoSize. lia. }
  { rewrite length_app. simpl. lia. }
  destruct HR as (_ & _ & Hmode).
  destruct (Hmode (calls (hw r1))) as (j & Hj & Hsb).
  destruct (finishTX_loop_answers j fuel r1 HE1 ltac:(lia) Hsb)
    as (r2 & Hrun2 & HE2 & HB2).
  unfold transmit.
  erewrite bind_eq; cycle 1.
  { erewrite bind_eq by exact Hrun. unfold finishTX. exact Hrun2. }
  rewrite setMode_run.
  eexists _, c, rest. repeat split.
  - change (Error (record_call chip (WriteRegister (RegOpMode regs) (StandbyMode regs)) r2)
            = None).
    now apply record_call_ok.
  - simpl. rewrite app_nil_r, HB2, HB1, HBA. reflexivity.
  - exact Hcat.
  - exact Hc.
  - exact Hrest.
Qed.

End Responsive.

(** ** What reaches the FIFO on any chip *)

Section AnyChip.

Variable regs : RegMap.
Variable chip : Chip.

Lemma transmit_loop_latched fuel avail data r :
  Error r <> None -> transmit_loop regs chip fuel avail data r = Done avail r.
Proof.
  intros H. destruct fuel; cbn [transmit_loop]; destruct (Error r); congruence.
Qed.

Lemma finishTX_loop_latched fuel r :
  Error r <> None -> finishTX_loop regs chip fuel r = Done tt r.
Proof.
  intros H. destruct fuel; cbn [finishTX_loop]; destruct (Error r); congruence.
Qed.

(** The pacing poll writes nothing to the FIFO and does not panic; when
    it returns with the latch clear, [avail] is [fifoSize - fifoThreshold]. *)
Lemma awaitThreshold_safe fuel : forall avail r,
  fifo_bursts regs (calls (hw (state_of (awaitThreshold regs chip fuel avail r))))
    = fifo_bursts regs (calls (hw r)) /\
  (forall a r', awaitThreshold regs chip fuel avail r = Done a r' ->
     a = fifoSize - fifoThreshold \/ Error r' <> None) /\
  (forall r', awaitThreshold regs chip fuel avail r <> Panic r').
Proof.
  induction fuel as [|fuel IH]; intros avail r.
  - cbn [awaitThreshold]. destruct (Error r) eqn:HE; cbn [state_of].
    + repeat split; [|discriminate].
      intros a r' H. injection H as <- <-. right. rewrite HE. discriminate.
    + repeat split; discriminate.
  - destruct (Error r) eqn:HE.
    + cbn [awaitThreshold]. rewrite HE. cbn [state_of].
      repeat split; [|discriminate].
      intros a r' H. injection H as <- <-. right. rewrite HE. discriminate.
    + rewrite awaitThreshold_S by exact HE.
      erewrite bind_eq by apply fifoThresholdExceeded_run. cbv zeta.
      set (r1 := record_call chip _ r).
      assert (HB1 : fifo_bursts regs (calls (hw r1)) = fifo_bursts regs (calls (hw r)))
        by (subst r1; simpl; apply app_nil_r).
      destruct (negb _).
      * destruct (IH avail r1) as (HB & Ha & Hp).
        repeat split; [congruence|exact Ha|exact Hp].
      * cbn [ret state_of]. repeat split; [exact HB1| |discriminate].
        intros a r' H. injection H as <- <-. now left.
Qed.

Lemma finishTX_loop_safe fuel : forall r,
  fifo_bursts regs (calls (hw (state_of (finishTX_loop regs chip fuel r))))
    = fifo_bursts regs (calls (hw r)) /\
  (forall r', finishTX_loop regs chip fuel r <> Panic r').
Proof.
  induction fuel as [|fuel IH]; intros r.
  - cbn [finishTX_loop]. destruct (Error r); cbn [state_of]; split; congruence.
  - destruct (Error r) eqn:HE.
    + cbn [finishTX_loop]. rewrite HE. cbn [state_of]. split; congruence.
    + rewrite finishTX_loop_S by exact HE.
      erewrite bind_eq by apply mode_run. cbv zeta.
      set (r1 := set_curMode _ _).
      assert (HB1 : fifo_bursts regs (calls (hw r1)) = fifo_bursts regs (calls (hw r)))
        by (subst r1; simpl; apply app_nil_r).
      destruct (Byte.eqb _ _).
      * cbn [ret state_of]. split; [exact HB1|discriminate].
      * destruct (IH r1) as (HB & Hp). split; [congruence|exact Hp].
Qed.

(** Whatever the chip does and however far the chunking loop gets: the
    bursts it added to the FIFO are consecutive pieces of [data] from its
    start, the first of at most [avail] bytes and the others of at most
    [fifoSize - fifoThreshold]; and they are all of [data] when the loop
    returns with the latch clear. *)
Lemma transmit_loop_safe fuel : forall avail data r,
  exists chunks rest,
    fifo_bursts regs (calls (hw (state_of (transmit_loop regs chip fuel avail data r))))
      = fifo_bursts regs (calls (hw r)) ++ chunks /\
    data = concat chunks ++ rest /\
    length (hd [] chunks) <= avail /\
    Forall (fun c => length c <= fifoSize - fifoThreshold) (tl chunks) /\
    (forall a r', transmit_loop regs chip fuel avail data r = Done a r' ->
       Error r' = None -> rest = []) /\
    (forall r', transmit_loop regs chip fuel avail data r <> Panic r').
Proof.
  induction fuel as [|fuel IH]; intros avail data r.
  - exists [], data. cbn [transmit_loop].
    destruct (Error r) eqn:HE; cbn [state_of]; rewrite app_nil_r;
      repeat split; try discriminate; try (simpl; lia); try constructor.
    intros a r' H HE'. injection H as <- <-. congruence.
  - destruct (Error r) eqn:HE.
    { exists [], data. cbn [transmit_loop]. rewrite HE. cbn [state_of].
      rewrite app_nil_r.
      repeat split; try discriminate; try (simpl; lia); try constructor.
      intros a r' H HE'. injection H as <- <-. congruence. }
    rewrite transmit_loop_S by exact HE. cbv zeta.
    set (avail1 := if length data <? avail then length data else avail).
    assert (Ha1 : avail1 <= avail).
    { subst avail1. destruct (length data <? avail) eqn:E; [|lia].
      apply Nat.ltb_lt in E. lia. }
    set (c := firstn avail1 data).
    set (r1 := record_call chip (WriteBurst (RegFifo regs) c) r).
    rewrite (bind_eq _ _ r tt r1) by reflexivity.
    assert (HB1 : fifo_bursts regs (calls (hw r1)) = fifo_bursts regs (calls (hw r)) ++ [c]).
    { subst r1. now rewrite calls_record_call, fifo_bursts_cons, burst_to_fifo. }
    assert (Hc : length c <= avail).
    { subst c. rewrite length_firstn. lia. }
    assert (Hsplit : data = c ++ skipn avail1 data)
      by (symmetry; apply firstn_skipn).
    clearbody r1.
    destruct (length (skipn avail1 data) =? 0) eqn:E.
    + apply Nat.eqb_eq, length_zero_iff_nil in E.
      exists [c], []. cbn [ret state_of].
      repeat split; try discriminate; try constructor.
      * exact HB1.
      * simpl. rewrite E, app_nil_r in Hsplit. now rewrite !app_nil_r.
      * exact Hc.
    + destruct (awaitThreshold_safe fuel avail1 r1) as (HB2 & Ha2 & Hp2).
      destruct (awaitThreshold regs chip fuel avail1 r1) as [a2 r2|r2|r2] eqn:Hrun2.
      * rewrite (bind_eq _ _ _ _ _ Hrun2). cbn [state_of] in HB2.
        destruct (Ha2 a2 r2 eq_refl) as [->|Herr].
        -- destruct (IH (fifoSize - fifoThreshold) (skipn avail1 data) r2)
             as (chunks & rest & HB & Hcat & Hhd & Htl & Hfull & Hp).
           exists (c :: chunks), rest. repeat split.
           ++ rewrite HB, HB2, HB1, <- app_assoc. reflexivity.
           ++ change (concat (c :: chunks)) with (c ++ concat chunks).
              rewrite <- app_assoc, <- Hcat. exact Hsplit.
           ++ exact Hc.
           ++ cbn [tl]. destruct chunks as [|c' chunks]; constructor; assumption.
           ++ exact Hfull.
           ++ exact Hp.
        -- rewrite (transmit_loop_latched fuel a2 _ r2 Herr). cbn [state_of].
           exists [c], (skipn avail1 data). repeat split; try discriminate; try constructor.
           ++ rewrite HB2. exact HB1.
           ++ simpl. rewrite app_nil_r. exact Hsplit.
           ++ exact Hc.
           ++ intros a r' H HE'. injection H as <- <-. contradiction.
      * exfalso. exact (Hp2 r2 eq_refl).
      * rewrite (bind_OutOfFuel _ _ _ _ Hrun2). cbn [state_of] in *.
        exists [c], (skipn avail1 data). repeat split; try discriminate; try constructor.
        -- rewrite HB2. exact HB1.
        -- simpl. rewrite app_nil_r. exact Hsplit.
        -- exact Hc.
Qed.

(** The same for [Send]: nothing but pieces of the payload and its
    terminator, in order, ever reaches the FIFO. *)
Lemma Send_safe fuel data r :
  Error r = None ->
  length data <= maxPacketSize ->
  maxPacketSize < length (txPacket r) ->
  exists chunks rest,
    fifo_bursts regs (calls (hw (state_of (Send regs chip fuel data r))))
      = fifo_bursts regs (calls (hw r)) ++ chunks /\
    data ++ [x00] = concat chunks ++ rest /\
    length (hd [] chunks) <= fifoSize /\
    Forall (fun c => length c <= fifoSize - fifoThreshold) (tl chunks) /\
    (forall r', Send regs chip fuel data r = Done tt r' -> Error r' = None -> rest = []) /\
    (forall r', Send regs chip fuel data r <> Panic r').
Proof.
  intros HE HL HT.
  destruct (Send_reaches_transmit regs chip fuel data r HE HL HT) as (tx' & ->).
  assert (HBA : fifo_bursts regs (calls (hw (Send_armed regs chip tx' r)))
                = fifo_bursts regs (calls (hw r))).
  { unfold Send_armed. simpl. now rewrite !app_nil_r. }
  generalize dependent (Send_armed regs chip tx' r). intros r0 HBA.
  destruct (transmit_loop_safe fuel fifoSize (data ++ [x00]) r0)
    as (chunks & rest & HB & Hcat & Hhd & Htl & Hfull & Hp).
  exists chunks, rest.
  unfold transmit.
  destruct (transmit_loop regs chip fuel fifoSize (data ++ [x00]) r0)
    as [a r1|r1|r1] eqn:Hrun; cbn [state_of] in HB.
  - destruct (finishTX_loop_safe fuel r1) as (HB2 & Hp2).
    unfold finishTX.
    destruct (finishTX_loop regs chip fuel r1) as [u r2|r2|r2] eqn:Hrun2;
      cbn [state_of] in HB2.
    + erewrite bind_eq; cycle 1.
      { erewrite bind_eq by exact Hrun. exact Hrun2. }
      rewrite setMode_run. cbn [state_of].
      repeat split; try assumption; try discriminate.
      * simpl. rewrite app_nil_r, HB2, HB, HBA. reflexivity.
      * intros r' H HE'. injection H as <-.
        apply (Hfull a r1 eq_refl).
        destruct (Error r1) eqn:HE1; [|reflexivity].
        rewrite finishTX_loop_latched in Hrun2 by (rewrite HE1; discriminate).
        injection Hrun2 as _ <-.
        exfalso.
        apply (record_call_sticky chip
                 (WriteRegister (RegOpMode regs) (StandbyMode regs)) r1);
          [rewrite HE1; discriminate|exact HE'].
    + exfalso. exact (Hp2 r2 eq_refl).
    + erewrite bind_OutOfFuel; cycle 1.
      { erewrite bind_eq by exact Hrun. exact Hrun2. }
      cbn [state_of].
      repeat split; try assumption; try discriminate.
      rewrite HB2, HB, HBA. reflexivity.
  - exfalso. exact (Hp r1 eq_refl).
  - erewrite bind_OutOfFuel; cycle 1.
    { erewrite bind_OutOfFuel by exact Hrun. reflexivity. }
    cbn [state_of].
    repeat split; try assumption; try discriminate.
    rewrite HB, HBA. reflexivity.
Qed.

End AnyChip.

Lemma idle_chip_responsive : responsive rfm69_regs (idle_chip rfm69_regs) 1.
Proof.
  repeat split; intros l; exists 0; (split; [lia|reflexivity]).
Qed.

(** C3. For every payload of at most 110 bytes, on an instance with a
    clear latch (and a transmit buffer that holds the frame): whatever
    the chip does, the bursts [Send] adds to the FIFO are consecutive
    pieces, from the start, of the payload followed by one zero byte,
    each of at most 66 bytes and each after the first of at most 46
    bytes, and they are the whole of it when [Send] returns with the
    latch clear; and [Send] does so return, having written exactly the
    payload and the zero byte, when the chip answers its polls and the
    fuel covers them. *)
Theorem Send_writes_payload_then_zero_in_bounded_bursts
    (regs : RegMap) (chip : Chip) (fuel : nat) (data : list byte) (r : Radio) :
  Error r = None ->
  length data <= maxPacketSize ->
  maxPacketSize < length (txPacket r) ->
  (exists chunks rest,
     fifo_bursts regs (calls (hw (state_of (Send regs chip fuel data r))))
       = fifo_bursts regs (calls (hw r)) ++ chunks /\
     data ++ [x00] = concat chunks ++ rest /\
     Forall (fun c => length c <= 66) chunks /\
     Forall (fun c => length c <= 46) (tl chunks) /\
     (forall r', Send regs chip fuel data r = Done tt r' -> Error r' = None ->
        rest = [])) /\
  (forall k, responsive regs chip k -> length data + 1 + k < fuel ->
     exists r',
       Send regs chip fuel data r = Done tt r' /\
       Error r' = None /\
       fifo_written regs (calls (hw r'))
         = fifo_written regs (calls (hw r)) ++ data ++ [x00]).
Proof.
  intros HE HL HT. split.
  - destruct (Send_safe regs chip fuel data r HE HL HT)
      as (chunks & rest & HB & Hcat & Hhd & Htl & Hfull & _).
    assert (Htl' : Forall (fun c => length c <= 46) (tl chunks)).
    { eapply Forall_impl; [|exact Htl].
      intros x Hx. unfold fifoSize, fifoThreshold in Hx. simpl in Hx. exact Hx. }
    exists chunks, rest. repeat split; try assumption.
    destruct chunks as [|c chunks]; constructor.
    + exact Hhd.
    + eapply Forall_impl; [|exact Htl']. intros x Hx. simpl in Hx. lia.
  - intros k HR Hf.
    destruct (Send_on_responsive_chip regs chip (proj1 HR) k HR fuel data r HE HL HT Hf)
      as (r' & c & rest & Hrun & HE' & _ & HB & Hcat & _ & _).
    exists r'. repeat split; [exact Hrun|exact HE'|].
    unfold fifo_written. now rewrite HB, concat_app, Hcat.
Qed.

Lemma Send_writes_payload_then_zero_in_bounded_bursts_witness :
  exists r',
    Send rfm69_regs (idle_chip rfm69_regs) 120 (repeat x07 110) (new_radio rfm69_regs)
      = Done tt r' /\
    Error r' = None /\
    fifo_written rfm69_regs (calls (hw r'))
      = fifo_written rfm69_regs (calls (hw (new_radio rfm69_regs)))
          ++ repeat x07 110 ++ [x00].
Proof.
  destruct (Send_writes_payload_then_zero_in_bounded_bursts
              rfm69_regs (idle_chip rfm69_regs) 120 (repeat x07 110)
              (new_radio rfm69_regs)) as [_ Hlive].
  - reflexivity.
  - vm_compute. lia.
  - vm_compute. lia.
  - apply (Hlive 1 idle_chip_responsive). vm_compute. lia.
Defined.

(** ** The receive pipeline on any chip *)

Section ReceiveAnyChip.

Variable regs : RegMap.
Variable chip : Chip.

Lemma Receive_loop_S fuel timeout rssi r :
  Error r = None ->
  Receive_loop regs chip (S fuel) timeout rssi r =
    (empty <- fifoEmpty regs chip ;;
     if empty then
       if (timeout <=? 0)%Z then ret (None, rssi)
       else Receive_loop regs chip fuel (wrap64 (timeout - byteDuration)) rssi
     else
       c <- hw_ReadRegister chip (RegFifo regs) ;;
       e <- gets Error ;;
       match e with
       | Some _ => ret (None, rssi)
       | None =>
           if Byte.eqb c x00 then finishRX regs chip rssi
           else
             receiveBuffer_WriteByte c ;;
             Receive_loop regs chip fuel timeout rssi
       end) r.
Proof. intros HE. cbn [Receive_loop]. now rewrite HE. Qed.

Lemma ReceiveRadioHead_loop_S fuel timeout rssi len r :
  Error r = None ->
  ReceiveRadioHead_loop regs chip (S fuel) timeout rssi len r =
    (empty <- fifoEmpty regs chip ;;
     if empty then
       if (timeout <=? 0)%Z then ret (None, rssi)
       else ReceiveRadioHead_loop regs chip fuel (wrap64 (timeout - byteDuration)) rssi len
     else
       c <- hw_ReadRegister chip (RegFifo regs) ;;
       e <- gets Error ;;
       match e with
       | Some _ => ret (None, rssi)
       | None =>
           if (len =? -1)%Z then
             ReceiveRadioHead_loop regs chip fuel timeout rssi (int_of_byte c)
           else
             receiveBuffer_WriteByte c ;;
             n <- gets (fun r => Buffer.Len (receiveBuffer r)) ;;
             if (Z.of_nat n =? len)%Z then finishRX regs chip rssi
             else ReceiveRadioHead_loop regs chip fuel timeout rssi len
       end) r.
Proof. intros HE. cbn [ReceiveRadioHead_loop]. now rewrite HE. Qed.

Lemma fifoEmpty_run r :
  fifoEmpty regs chip r =
    let v := chip_read chip (calls (hw r)) (RegIrqFlags2 regs) in
    Done (Byte.eqb (byte_and v (FifoNotEmpty regs)) x00)
         (record_call chip (ReadRegister (RegIrqFlags2 regs) v) r).
Proof. reflexivity. Qed.

Lemma hw_ReadRegister_run addr r :
  hw_ReadRegister chip addr r =
    let v := chip_read chip (calls (hw r)) addr in
    Done v (record_call chip (ReadRegister addr v) r).
Proof. reflexivity. Qed.

End ReceiveAnyChip.

(** ** The mode after a call *)

Section ModeAfterCall.

Variable regs : RegMap.
Variable chip : Chip.

Lemma ends_with_setMode {A} (m : M A) target r u r' :
  (m ;; setMode regs chip target) r = Done u r' ->
  curMode r' = target /\
  hd_error (calls (hw r')) = Some (WriteRegister (RegOpMode regs) target).
Proof.
  intros H. skip_in H as a. rewrite setMode_run in H. done_inv H.
  split; reflexivity.
Qed.

Lemma Send_ends_in_Standby fuel data r r' :
  Error r = None ->
  Send regs chip fuel data r = Done tt r' ->
  curMode r' = StandbyMode regs /\
  hd_error (calls (hw r')) = Some (WriteRegister (RegOpMode regs) (StandbyMode regs)).
Proof.
  intros HE H. unfold Send in H. rewrite HE in H.
  destruct (maxPacketSize <? length data); [discriminate|].
  skip_in H as u1. skip_in H as u2. skip_in H as tx.
  destruct (slice_to tx (length data + 1)); [|discriminate].
  skip_in H as u3. skip_in H as u4. skip_in H as u5.
  eapply ends_with_setMode, H.
Qed.

Lemma SendRadioHead_ends_in_Standby fuel data to from id flags r r' :
  Error r = None ->
  SendRadioHead regs chip fuel data to from id flags r = Done tt r' ->
  curMode r' = StandbyMode regs /\
  hd_error (calls (hw r')) = Some (WriteRegister (RegOpMode regs) (StandbyMode regs)).
Proof.
  intros HE H. unfold SendRadioHead in H. rewrite HE in H.
  destruct (maxPacketSize <? length data); [discriminate|].
  skip_in H as u1. skip_in H as u2. skip_in H as u3. skip_in H as u4.
  skip_in H as u5. skip_in H as tx.
  destruct (slice_to tx 5); [|discriminate].
  skip_in H as v1. skip_in H as v2. skip_in H as v3. skip_in H as v4.
  skip_in H as tx'.
  eapply ends_with_setMode, H.
Qed.

Lemma deferred_setMode {A} (body : M A) target r a r' :
  defer (setMode regs chip target) body r = Done a r' ->
  curMode r' = target /\
  hd_error (calls (hw r')) = Some (WriteRegister (RegOpMode regs) target).
Proof.
  intros H. apply defer_Done in H. destruct H as (r1 & u & _ & H).
  rewrite setMode_run in H. done_inv H. split; reflexivity.
Qed.

(** C5 (amended). After a send or receive call that was entered with
    the error latch clear returns -- with a packet, on timeout, or
    after a register operation failed on the way -- the instance's
    mode is Standby after a send and Sleep after a receive, and the
    last hardware call was the request for that mode. *)
Theorem mode_after_call_entered_unlatched
    (fuel : nat) (data : list byte) (to from id flags : byte) (timeout : Z)
    (r : Radio) :
  Error r = None ->
  (forall r', Send regs chip fuel data r = Done tt r' ->
     curMode r' = StandbyMode regs /\
     hd_error (calls (hw r')) = Some (WriteRegister (RegOpMode regs) (StandbyMode regs))) /\
  (forall r', SendRadioHead regs chip fuel data to from id flags r = Done tt r' ->
     curMode r' = StandbyMode regs /\
     hd_error (calls (hw r')) = Some (WriteRegister (RegOpMode regs) (StandbyMode regs))) /\
  (forall res r', Receive regs chip fuel timeout r = Done res r' ->
     curMode r' = SleepMode regs /\
     hd_error (calls (hw r')) = Some (WriteRegister (RegOpMode regs) (SleepMode regs))) /\
  (forall res r', ReceiveRadioHead regs chip fuel timeout r = Done res r' ->
     curMode r' = SleepMode regs /\
     hd_error (calls (hw r')) = Some (WriteRegister (RegOpMode regs) (SleepMode regs))).
Proof.
  intros HE. split; [|split; [|split]].
  - intros r' H. eapply Send_ends_in_Standby; eassumption.
  - intros r' H. eapply SendRadioHead_ends_in_Standby; eassumption.
  - intros res r' H. unfold Receive in H. rewrite HE in H.
    skip_in H as u1. skip_in H as u2. eapply deferred_setMode, H.
  - intros res r' H. unfold ReceiveRadioHead in H. rewrite HE in H.
    skip_in H as u1. skip_in H as u2. eapply deferred_setMode, H.
Qed.

End ModeAfterCall.

(** A register failure on the way: every call on [dead_chip] fails, and
    the modes are still Standby after the send and Sleep after the
    receive. *)
Lemma mode_after_call_entered_unlatched_witness :
  exists r1 r2,
    Send rfm69_regs dead_chip 9 [x01] (new_radio rfm69_regs) = Done tt r1 /\
    Error r1 = Some hwFailure /\
    curMode r1 = StandbyMode rfm69_regs /\
    Receive rfm69_regs dead_chip 9 0 (new_radio rfm69_regs) = Done (None, 0%Z) r2 /\
    Error r2 = Some hwFailure /\
    curMode r2 = SleepMode rfm69_regs.
Proof.
  pose proof (mode_after_call_entered_unlatched rfm69_regs dead_chip 9 [x01]
                x02 x01 x05 x00 0%Z (new_radio rfm69_regs) eq_refl)
    as (HS & _ & HR & _).
  eexists. eexists.
  split; [vm_compute; reflexivity|].
  split; [vm_compute; reflexivity|].
  split; [apply HS; vm_compute; reflexivity|].
  split; [vm_compute; reflexivity|].
  split; [vm_compute; reflexivity|].
  eapply HR. vm_compute. reflexivity.
Defined.

(** C5 as stated fails for a call entered with the latch set: a receive
    on a failing chip ends in Sleep with the latch set, and the send that
    follows returns at once and leaves the mode at Sleep. *)
Lemma mode_untouched_by_latched_send :
  (exists r1,
     Receive rfm69_regs dead_chip 9 0 (new_radio rfm69_regs) = Done (None, 0%Z) r1 /\
     Send rfm69_regs dead_chip 9 [x01] r1 = Done tt r1 /\
     curMode r1 = SleepMode rfm69_regs /\
     curMode r1 <> StandbyMode rfm69_regs) /\
  ~ (forall regs chip fuel data r r',
       Send regs chip fuel data r = Done tt r' -> curMode r' = StandbyMode regs).
Proof.
  assert (H : exists r1,
     Receive rfm69_regs dead_chip 9 0 (new_radio rfm69_regs) = Done (None, 0%Z) r1 /\
     Send rfm69_regs dead_chip 9 [x01] r1 = Done tt r1 /\
     curMode r1 = SleepMode rfm69_regs /\
     curMode r1 <> StandbyMode rfm69_regs).
  { eexists. split; [vm_compute; reflexivity|].
    split; [vm_compute; reflexivity|].
    split; [vm_compute; reflexivity|].
    vm_compute. discriminate. }
  split; [exact H|].
  intros Hall. destruct H as (r1 & _ & Hsend & _ & Hne).
  apply Hall in Hsend. contradiction.
Qed.

(** ** A headered frame whose length byte is zero *)

Lemma first_fifo_byte_stable regs c seg b :
  first_fifo_byte regs seg = Some b -> first_fifo_byte regs (c :: seg) = Some b.
Proof. intros H. simpl. now rewrite H. Qed.

Lemma first_fifo_byte_skip regs c seg :
  reads_from (RegFifo regs) c = None ->
  first_fifo_byte regs (c :: seg) = first_fifo_byte regs seg.
Proof. intros H. simpl. rewrite H. now destruct (first_fifo_byte regs seg). Qed.

Lemma first_fifo_byte_first regs c seg b :
  first_fifo_byte regs seg = None ->
  reads_from (RegFifo regs) c = Some b ->
  first_fifo_byte regs (c :: seg) = Some b.
Proof. intros H1 H2. simpl. now rewrite H1. Qed.

Lemma calls_since_app r r' seg :
  calls (hw r') = seg ++ calls (hw r) -> calls_since r r' = seg.
Proof.
  intros H. unfold calls_since. rewrite H, length_app.
  replace (length seg + length (calls (hw r)) - length (calls (hw r)))
    with (length seg) by lia.
  rewrite firstn_app, Nat.sub_diag, firstn_all. simpl. apply app_nil_r.
Qed.

Section ZeroLength.

Variable regs : RegMap.
Variable chip : Chip.
Hypothesis Hdistinct : RegIrqFlags2 regs <> RegFifo regs.

Lemma finishRX_calls rssi r res r' :
  finishRX regs chip rssi r = Done res r' ->
  calls (hw r') = WriteRegister (RegOpMode regs) (StandbyMode regs) :: calls (hw r).
Proof.
  unfold finishRX. intros H.
  step_in H as u r1 Hs. rewrite setMode_run in Hs. done_inv Hs.
  step_in H as size r1 Hs. done_inv Hs.
  destruct (_ =? 0).
  - done_inv H. reflexivity.
  - step_in H as rd r1 Hs. done_inv Hs.
    destruct (Buffer.Read _ _) as [[p e] rest].
    step_in H as u r1 Hs. done_inv Hs.
    step_in H as e' r1 Hs. done_inv Hs.
    destruct (Error _) in H.
    + done_inv H. reflexivity.
    + step_in H as u r1 Hs. done_inv Hs. done_inv H. reflexivity.
Qed.

Lemma fifoEmpty_calls r empty r1 :
  fifoEmpty regs chip r = Done empty r1 ->
  exists v, calls (hw r1) = ReadRegister (RegIrqFlags2 regs) v :: calls (hw r).
Proof.
  rewrite fifoEmpty_run. cbv zeta. intros H. injection H as _ <-.
  eexists. reflexivity.
Qed.

Lemma hw_ReadRegister_calls addr r c r1 :
  hw_ReadRegister chip addr r = Done c r1 ->
  calls (hw r1) = ReadRegister addr c :: calls (hw r).
Proof.
  rewrite hw_ReadRegister_run. cbv zeta. intros H. injection H as <- <-.
  reflexivity.
Qed.

Lemma receiveBuffer_WriteByte_spec c r u r1 :
  receiveBuffer_WriteByte c r = Done u r1 ->
  calls (hw r1) = calls (hw r) /\ receiveBuffer r1 = receiveBuffer r ++ [c].
Proof.
  unfold receiveBuffer_WriteByte, modify. intros H. injection H as _ <-.
  split; reflexivity.
Qed.

Lemma fifoEmpty_poll r empty r1 :
  fifoEmpty regs chip r = Done empty r1 ->
  exists v,
    calls (hw r1) = ReadRegister (RegIrqFlags2 regs) v :: calls (hw r) /\
    empty = Byte.eqb (byte_and v (FifoNotEmpty regs)) x00.
Proof.
  rewrite fifoEmpty_run. cbv zeta. intros H. injection H as <- <-.
  eexists. split; reflexivity.
Qed.

Lemma empty_polls_skip c l :
  reads_from (RegIrqFlags2 regs) c = None ->
  empty_polls regs (c :: l) = empty_polls regs l.
Proof. intros H. cbn [empty_polls]. now rewrite H. Qed.

Lemma empty_polls_poll v l :
  empty_polls regs (ReadRegister (RegIrqFlags2 regs) v :: l) =
    if Byte.eqb (byte_and v (FifoNotEmpty regs)) x00
    then S (empty_polls regs l) else empty_polls regs l.
Proof. cbn [empty_polls reads_from]. now rewrite byte_eqb_refl. Qed.

Lemma empty_polls_fifo c l :
  empty_polls regs (ReadRegister (RegFifo regs) c :: l) = empty_polls regs l.
Proof.
  apply empty_polls_skip. cbn [reads_from].
  rewrite byte_eqb_neq; [reflexivity|].
  intros E. apply Hdistinct. now symmetry.
Qed.

(** The loop invariant.  [seg0] are the calls since entry and [T] is
    the timeout at entry.  [len] is [-1] as long as no byte was read
    from the FIFO; afterwards it is the first byte read.  The running
    timeout is what is left of [T] after one wait per empty poll, and
    it was positive at each of these polls. *)
Lemma ReceiveRadioHead_loop_zero fuel :
  forall T timeout rssi len r res r' seg0 l0,
    calls (hw r) = seg0 ++ l0 ->
    ((len = -1)%Z -> first_fifo_byte regs seg0 = None) ->
    ((len <> -1)%Z ->
       exists b, first_fifo_byte regs seg0 = Some b /\ int_of_byte b = len) ->
    timeout = budget_after (empty_polls regs seg0) T ->
    (forall j, j < empty_polls regs seg0 -> (0 < budget_after j T)%Z) ->
    ReceiveRadioHead_loop regs chip fuel timeout rssi len r = Done res r' ->
    exists seg,
      calls (hw r') = seg ++ l0 /\
      (first_fifo_byte regs seg = Some x00 ->
       res = (None, rssi) /\
       (Error r' <> None \/
        exists m,
          empty_polls regs seg = S m /\
          (budget_after m T <= 0)%Z /\
          forall j, j < m -> (0 < budget_after j T)%Z)).
Proof.
  induction fuel as [|fuel IH];
    intros T timeout rssi len r res r' seg0 l0 Hcalls Hm1 Hlen Ht Hpos H.
  - cbn [ReceiveRadioHead_loop] in H.
    destruct (Error r) eqn:HE; [|discriminate].
    injection H as <- <-. exists seg0. split; [exact Hcalls|].
    intros _. split; [reflexivity|]. left. rewrite HE. discriminate.
  - destruct (Error r) eqn:HE.
    { cbn [ReceiveRadioHead_loop] in H. rewrite HE in H.
      injection H as <- <-. exists seg0. split; [exact Hcalls|].
      intros _. split; [reflexivity|]. left. rewrite HE. discriminate. }
    rewrite ReceiveRadioHead_loop_S in H by exact HE.
    step_in H as empty r1 Hs.
    apply fifoEmpty_poll in Hs. destruct Hs as (v & Hcalls1 & Hempty).
    set (c1 := ReadRegister (RegIrqFlags2 regs) v) in *.
    assert (Hskip : first_fifo_byte regs (c1 :: seg0) = first_fifo_byte regs seg0).
    { apply first_fifo_byte_skip. subst c1. simpl.
      now rewrite byte_eqb_neq by exact Hdistinct. }
    assert (Hpolls1 : empty_polls regs (c1 :: seg0)
                      = if empty then S (empty_polls regs seg0) else empty_polls regs seg0).
    { subst c1. rewrite empty_polls_poll, <- Hempty. reflexivity. }
    rewrite Hcalls in Hcalls1. change (calls (hw r1) = (c1 :: seg0) ++ l0) in Hcalls1.
    assert (Hm1' : (len = -1)%Z -> first_fifo_byte regs (c1 :: seg0) = None)
      by (intros E; rewrite Hskip; auto).
    assert (Hlen' : (len <> -1)%Z ->
              exists b, first_fifo_byte regs (c1 :: seg0) = Some b /\ int_of_byte b = len)
      by (intros E; rewrite Hskip; auto).
    destruct empty.
    + destruct (timeout <=? 0)%Z eqn:Hle.
      * injection H as <- <-. exists (c1 :: seg0). split; [exact Hcalls1|].
        intros _. split; [reflexivity|]. right. exists (empty_polls regs seg0).
        split; [exact Hpolls1|]. split; [|exact Hpos].
        apply Z.leb_le in Hle. rewrite <- Ht. exact Hle.
      * apply Z.leb_gt in Hle.
        assert (Ht' : wrap64 (timeout - byteDuration)
                      = budget_after (empty_polls regs (c1 :: seg0)) T).
        { rewrite Hpolls1, Ht. reflexivity. }
        assert (Hpos' : forall j, j < empty_polls regs (c1 :: seg0) ->
                                  (0 < budget_after j T)%Z).
        { rewrite Hpolls1. intros j Hj.
          destruct (Nat.eq_dec j (empty_polls regs seg0)) as [->|Hne].
          - rewrite <- Ht. exact Hle.
          - apply Hpos. lia. }
        exact (IH T _ _ _ _ _ _ (c1 :: seg0) l0 Hcalls1 Hm1' Hlen' Ht' Hpos' H).
    + step_in H as c r2 Hs.
      apply hw_ReadRegister_calls in Hs. rename Hs into Hcalls2.
      set (c2 := ReadRegister (RegFifo regs) c) in *.
      rewrite Hcalls1 in Hcalls2.
      change (calls (hw r2) = (c2 :: c1 :: seg0) ++ l0) in Hcalls2.
      assert (Hpolls2 : empty_polls regs (c2 :: c1 :: seg0) = empty_polls regs seg0).
      { subst c2. now rewrite empty_polls_fifo, Hpolls1. }
      assert (Ht2 : timeout = budget_after (empty_polls regs (c2 :: c1 :: seg0)) T)
        by (now rewrite Hpolls2).
      assert (Hpos2 : forall j, j < empty_polls regs (c2 :: c1 :: seg0) ->
                                (0 < budget_after j T)%Z)
        by (now rewrite Hpolls2).
      step_in H as e r3 Hs. unfold gets in Hs. injection Hs as <- <-.
      destruct (Error r2) eqn:HE2.
      { injection H as <- <-. exists (c2 :: c1 :: seg0). split; [exact Hcalls2|].
        intros _. split; [reflexivity|]. left. rewrite HE2. discriminate. }
      destruct (len =? -1)%Z eqn:El.
      * apply Z.eqb_eq in El.
        assert (Hfirst : first_fifo_byte regs (c2 :: c1 :: seg0) = Some c).
        { apply first_fifo_byte_first.
          - exact (Hm1' El).
          - subst c2. simpl. now rewrite byte_eqb_refl. }
        assert (Hm1'' : (int_of_byte c = -1)%Z ->
                  first_fifo_byte regs (c2 :: c1 :: seg0) = None)
          by (intros E; unfold int_of_byte in E; lia).
        assert (Hlen'' : (int_of_byte c <> -1)%Z ->
                  exists b, first_fifo_byte regs (c2 :: c1 :: seg0) = Some b /\
                            int_of_byte b = int_of_byte c)
          by (intros _; exists c; split; [exact Hfirst|reflexivity]).
        exact (IH T _ _ _ _ _ _ (c2 :: c1 :: seg0) l0 Hcalls2 Hm1'' Hlen'' Ht2 Hpos2 H).
      * apply Z.eqb_neq in El.
        destruct (Hlen' El) as (b & Hb & Hbl).
        assert (Hfirst : first_fifo_byte regs (c2 :: c1 :: seg0) = Some b)
          by (now apply first_fifo_byte_stable).
        step_in H as u r3 Hs.
        apply receiveBuffer_WriteByte_spec in Hs. destruct Hs as (Hcalls3 & Hbuf3).
        rewrite Hcalls2 in Hcalls3.
        step_in H as n r4 Hs. unfold gets in Hs. injection Hs as <- <-.
        assert (Hn : (1 <= Z.of_nat (Buffer.Len (receiveBuffer r3)))%Z).
        { unfold Buffer.Len. rewrite Hbuf3, length_app. simpl. lia. }
        destruct (Z.of_nat (Buffer.Len (receiveBuffer r3)) =? len)%Z eqn:En.
        -- apply Z.eqb_eq in En.
           apply finishRX_calls in H.
           exists (WriteRegister (RegOpMode regs) (StandbyMode regs) :: c2 :: c1 :: seg0).
           split; [rewrite H, Hcalls3; reflexivity|].
           intros Hz.
           rewrite (first_fifo_byte_stable _ _ _ _ Hfirst) in Hz.
           injection Hz as Hz. subst b.
           change (int_of_byte x00) with 0%Z in Hbl. lia.
        -- assert (Hm1'' : (len = -1)%Z -> first_fifo_byte regs (c2 :: c1 :: seg0) = None)
             by (intros E; contradiction).
           assert (Hlen'' : (len <> -1)%Z ->
                     exists b0, first_fifo_byte regs (c2 :: c1 :: seg0) = Some b0 /\
                                int_of_byte b0 = len)
             by (intros _; exists b; split; [exact Hfirst|exact Hbl]).
           exact (IH T _ _ _ _ _ _ (c2 :: c1 :: seg0) l0 Hcalls3 Hm1'' Hlen'' Ht2 Hpos2 H).
Qed.

End ZeroLength.

(** C10. In [ReceiveRadioHead], when the first byte read from the FIFO
    (the length byte) is zero, the call can only return the nil packet,
    together with the RSSI read after the interrupt wait, and it does so
    only with the error latch set or once the timeout budget is spent:
    the poll that found the FIFO empty with nothing left of the timeout
    is the last one, and at every earlier empty poll of the call the
    budget was still positive.  The accumulator length is compared with
    the target after a byte was written, so it is at least 1 and never
    equal to 0. *)
Theorem zero_length_headered_frame_never_delivered
    (regs : RegMap) (chip : Chip) (fuel : nat) (timeout : Z)
    (r r' : Radio) (res : packet * Z) :
  RegIrqFlags2 regs <> RegFifo regs ->
  Error r = None ->
  ReceiveRadioHead regs chip fuel timeout r = Done res r' ->
  first_fifo_byte regs (calls_since r r') = Some x00 ->
  res = (None,
         chip_rssi chip
           (AwaitInterrupt timeout
              :: WriteRegister (RegOpMode regs) (ReceiverMode regs)
              :: WriteRegister (RegAutoModes regs) x00 :: calls (hw r))) /\
  (Error r' <> None \/
   exists m,
     empty_polls regs (calls_since r r') = S m /\
     (budget_after m timeout <= 0)%Z /\
     forall j, j < m -> (0 < budget_after j timeout)%Z).
Proof.
  intros Hdistinct HE H Hzero.
  unfold ReceiveRadioHead in H. rewrite HE in H.
  step_in H as u1 r1 Hs.
  unfold hw_WriteRegister, hw_record, modify in Hs. injection Hs as _ <-.
  step_in H as u2 r2 Hs. rewrite setMode_run in Hs. injection Hs as _ <-.
  apply defer_Done in H. destruct H as (r3 & u & Hbody & Hd).
  rewrite setMode_run in Hd. injection Hd as _ <-.
  step_in Hbody as u3 r4 Hs.
  unfold hw_AwaitInterrupt, hw_record, modify in Hs. injection Hs as _ <-.
  step_in Hbody as rssi r5 Hs.
  unfold ReadRSSI in Hs.
  step_in Hs as v r6 Hg. unfold gets in Hg. injection Hg as <- <-.
  step_in Hs as u4 r6 Hg. unfold hw_record, modify in Hg. injection Hg as _ <-.
  unfold ret in Hs. injection Hs as <- <-.
  match type of Hbody with
  | ReceiveRadioHead_loop _ _ _ _ ?rssi0 _ ?r0 = _ =>
      set (rssi := rssi0) in *; set (r5 := r0) in *
  end.
  set (seg0 := [RSSI rssi; AwaitInterrupt timeout;
                WriteRegister (RegOpMode regs) (ReceiverMode regs);
                WriteRegister (RegAutoModes regs) x00]).
  assert (Hcalls5 : calls (hw r5) = seg0 ++ calls (hw r)) by reflexivity.
  destruct (ReceiveRadioHead_loop_zero regs chip Hdistinct fuel timeout timeout rssi (-1)%Z
              r5 res r3 seg0 (calls (hw r)) Hcalls5)
    as (seg & Hseg & Hconcl);
    [reflexivity | intros E; contradiction | reflexivity
     | intros j Hj; exfalso; revert Hj; apply Nat.nlt_0_r | exact Hbody |].
  set (r' := set_curMode (SleepMode regs)
               (record_call chip (WriteRegister (RegOpMode regs) (SleepMode regs)) r3)) in *.
  assert (Hcalls' : calls (hw r')
                    = (WriteRegister (RegOpMode regs) (SleepMode regs) :: seg) ++ calls (hw r)).
  { subst r'. cbn [calls hw set_curMode]. rewrite calls_record_call, Hseg. reflexivity. }
  rewrite (calls_since_app _ _ _ Hcalls') in Hzero.
  rewrite first_fifo_byte_skip in Hzero by reflexivity.
  destruct (Hconcl Hzero) as (Hres & Hexit).
  split; [exact Hres|].
  destruct Hexit as [Herr|Hbudget].
  - left.
    change (Error (record_call chip (WriteRegister (RegOpMode regs) (SleepMode regs)) r3)
            <> None).
    now apply record_call_sticky.
  - right. rewrite (calls_since_app _ _ _ Hcalls').
    rewrite (empty_polls_skip regs) by reflexivity. exact Hbudget.
Qed.

Lemma zero_length_headered_frame_never_delivered_witness :
  exists r',
    ReceiveRadioHead rfm69_regs
      (feed_chip rfm69_regs 0 [x00; x02; x01; x05; x00; xaa; xbb]) 50 2000000
      (new_radio rfm69_regs) = Done (None, (-60)%Z) r' /\
    (Error r' <> None \/
     exists m,
       empty_polls rfm69_regs (calls_since (new_radio rfm69_regs) r') = S m /\
       (budget_after m 2000000 <= 0)%Z /\
       forall j, j < m -> (0 < budget_after j 2000000)%Z).
Proof.
  eexists. split.
  - vm_compute. reflexivity.
  - eapply (zero_length_headered_frame_never_delivered rfm69_regs
              (feed_chip rfm69_regs 0 [x00; x02; x01; x05; x00; xaa; xbb]) 50 2000000%Z
              (new_radio rfm69_regs)).
    + vm_compute. discriminate.
    + reflexivity.
    + vm_compute. reflexivity.
    + vm_compute. reflexivity.
Defined.

(** ** Receiving from a FIFO that delivers given bytes *)

Lemma packet_bytes_nil_if_empty b : packet_bytes (nil_if_empty b) = b.
Proof. now destruct b. Qed.

Lemma fifo_reads_skip regs c l :
  reads_from (RegFifo regs) c = None ->
  fifo_reads regs (c :: l) = fifo_reads regs l.
Proof. intros H. simpl. now rewrite H. Qed.

Lemma fifo_reads_fifo regs v l :
  fifo_reads regs (ReadRegister (RegFifo regs) v :: l) = S (fifo_reads regs l).
Proof. simpl. now rewrite byte_eqb_refl. Qed.

Section Feed.

Variable regs : RegMap.
Variable base : nat.
Variable bs : list byte.
Hypothesis Hdistinct : RegIrqFlags2 regs <> RegFifo regs.
Hypothesis Hflag : FifoNotEmpty regs <> x00.

Let chip := feed_chip regs base bs.

Lemma feed_never_fails : never_fails chip.
Proof. intros l. reflexivity. Qed.

Lemma feed_flags l n :
  fifo_reads regs l = base + n ->
  n < length bs ->
  chip_read chip l (RegIrqFlags2 regs) = FifoNotEmpty regs.
Proof.
  intros Hl Hn. unfold chip, feed_chip. cbn [chip_read].
  rewrite byte_eqb_neq by exact Hdistinct. rewrite byte_eqb_refl.
  replace (fifo_reads regs l - base) with n by lia.
  now apply Nat.ltb_lt in Hn as ->.
Qed.

Lemma feed_fifo l n :
  fifo_reads regs l = base + n ->
  chip_read chip l (RegFifo regs) = nth n bs x00.
Proof.
  intros Hl. unfold chip, feed_chip. cbn [chip_read].
  rewrite byte_eqb_refl.
  now replace (fifo_reads regs l - base) with n by lia.
Qed.

(** [finishRX] on a chip that does not fail: the packet is the
    accumulator's content, which is then empty. *)
Lemma finishRX_run rssi r :
  Error r = None ->
  exists r',
    finishRX regs chip rssi r = Done (nil_if_empty (receiveBuffer r), rssi) r' /\
    Error r' = None /\
    receiveBuffer r' = [].
Proof.
  intros HE. unfold finishRX.
  rewrite (bind_eq _ _ _ _ _ (setMode_run regs chip (StandbyMode regs) r)).
  set (r1 := set_curMode (StandbyMode regs)
               (record_call chip (WriteRegister (RegOpMode regs) (StandbyMode regs)) r)).
  assert (HE1 : Error r1 = None).
  { change (Error (record_call chip (WriteRegister (RegOpMode regs) (StandbyMode regs)) r)
            = None).
    apply record_call_ok; [apply feed_never_fails|exact HE]. }
  assert (HB1 : receiveBuffer r1 = receiveBuffer r) by reflexivity.
  clearbody r1.
  unfold bind at 1. unfold gets at 1. rewrite HB1.
  destruct (receiveBuffer r) as [|b l] eqn:EB.
  - exists r1. cbn. repeat split; [exact HE1|congruence].
  - cbn [Buffer.Len length Nat.eqb].
    unfold bind at 1. unfold gets at 1. rewrite HB1.
    unfold Buffer.Read.
    replace (S (length l) - length (b :: l)) with 0 by (simpl; lia).
    replace (firstn (S (length l)) (b :: l)) with (b :: l)
      by (symmetry; exact (firstn_all (b :: l))).
    replace (skipn (S (length l)) (b :: l)) with (@nil byte)
      by (symmetry; exact (skipn_all (b :: l))).
    cbn [repeat]. rewrite app_nil_r.
    unfold bind at 1. unfold modify at 1.
    unfold bind at 1. unfold gets at 1.
    assert (HE2 : Error (set_err None (set_receiveBuffer [] r1)) = None).
    { unfold Error in *. cbn [hw fault err set_err set_receiveBuffer].
      destruct (fault (hw r1)); [discriminate|reflexivity]. }
    rewrite HE2.
    unfold bind, modify, ret.
    eexists. repeat split. exact HE2.
Qed.

(** The raw delimiter: with [todo] still to come before the zero
    byte, the loop returns what is accumulated followed by [todo]. *)
Lemma Receive_loop_feed todo : forall fuel timeout rssi r done junk,
  bs = done ++ todo ++ x00 :: junk ->
  ~ In x00 todo ->
  Error r = None ->
  fifo_reads regs (calls (hw r)) = base + length done ->
  length todo < fuel ->
  exists r',
    Receive_loop regs chip fuel timeout rssi r
      = Done (nil_if_empty (receiveBuffer r ++ todo), rssi) r' /\
    Error r' = None /\
    receiveBuffer r' = [].
Proof.
  induction todo as [|t todo IH]; intros fuel timeout rssi r done junk Hbs Hnz HE Hreads Hf;
    (destruct fuel as [|fuel]; [simpl in Hf; lia|]);
    rewrite Receive_loop_S by exact HE;
    rewrite (bind_eq _ _ _ _ _ (fifoEmpty_run regs chip r)); cbv zeta;
    (rewrite (feed_flags _ (length done) Hreads)
       by (rewrite Hbs, !length_app; simpl; lia));
    rewrite byte_and_diag, byte_eqb_neq by exact Hflag;
    set (r1 := record_call chip (ReadRegister (RegIrqFlags2 regs) (FifoNotEmpty regs)) r);
    assert (HE1 : Error r1 = None)
      by (apply record_call_ok; [apply feed_never_fails|exact HE]);
    assert (Hreads1 : fifo_reads regs (calls (hw r1)) = base + length done)
      by (subst r1; rewrite calls_record_call, fifo_reads_skip;
          [exact Hreads|simpl; now rewrite byte_eqb_neq by exact Hdistinct]);
    assert (HB1 : receiveBuffer r1 = receiveBuffer r) by reflexivity;
    clearbody r1;
    rewrite (bind_eq _ _ _ _ _ (hw_ReadRegister_run chip (RegFifo regs) r1)); cbv zeta;
    rewrite (feed_fifo _ (length done) Hreads1), Hbs; cbn [app]; rewrite nth_middle.
  - set (r2 := record_call chip (ReadRegister (RegFifo regs) x00) r1).
    assert (HE2 : Error r2 = None)
      by (apply record_call_ok; [apply feed_never_fails|exact HE1]).
    unfold bind at 1. unfold gets at 1. rewrite HE2.
    cbn [Byte.eqb]. rewrite byte_eqb_refl.
    destruct (finishRX_run rssi r2 HE2) as (r' & Hrun & HE' & HB').
    exists r'. rewrite app_nil_r.
    change (receiveBuffer r2) with (receiveBuffer r1) in Hrun.
    rewrite HB1 in Hrun. now repeat split.
  - set (r2 := record_call chip (ReadRegister (RegFifo regs) t) r1).
    assert (HE2 : Error r2 = None)
      by (apply record_call_ok; [apply feed_never_fails|exact HE1]).
    unfold bind at 1. unfold gets at 1. rewrite HE2.
    rewrite byte_eqb_neq by (intros ->; apply Hnz; now left).
    unfold bind at 1. unfold receiveBuffer_WriteByte, modify. cbv beta iota zeta.
    unfold Buffer.WriteByte. cbv beta iota zeta.
    set (r3 := set_err None (set_receiveBuffer (receiveBuffer r2 ++ [t]) r2)).
    assert (HE3 : Error r3 = None).
    { unfold Error in *. cbn [hw fault err set_err set_receiveBuffer r3].
      destruct (fault (hw r2)); [discriminate|reflexivity]. }
    destruct (IH fuel timeout rssi r3 (done ++ [t]) junk) as (r' & Hrun & HE' & HB').
    + rewrite Hbs, <- app_assoc. reflexivity.
    + intros Hin. apply Hnz. now right.
    + exact HE3.
    + subst r3 r2. cbn [calls hw set_err set_receiveBuffer].
      rewrite calls_record_call, fifo_reads_fifo, Hreads1, length_app. simpl. lia.
    + simpl in Hf. lia.
    + exists r'. repeat split; [|exact HE'|exact HB'].
      rewrite Hrun. subst r3 r2. cbn [receiveBuffer set_err set_receiveBuffer record_call set_hw].
      rewrite HB1, <- app_assoc. reflexivity.
Qed.

(** [Receive] on an instance with an empty accumulator, fed a payload
    without zero bytes and then a zero byte, returns the payload. *)
Lemma Receive_feed fuel timeout r data junk :
  bs = data ++ x00 :: junk ->
  ~ In x00 data ->
  Error r = None ->
  receiveBuffer r = [] ->
  fifo_reads regs (calls (hw r)) = base ->
  length data < fuel ->
  exists rssi r',
    Receive regs chip fuel timeout r = Done (nil_if_empty data, rssi) r' /\
    Error r' = None /\
    receiveBuffer r' = [].
Proof.
  intros Hbs Hnz HE HB Hreads Hf.
  unfold Receive. rewrite HE.
  set (r1 := record_call chip (WriteRegister (RegAutoModes regs) x00) r).
  rewrite (bind_eq _ _ r tt r1) by reflexivity.
  set (r2 := set_curMode (ReceiverMode regs)
               (record_call chip (WriteRegister (RegOpMode regs) (ReceiverMode regs)) r1)).
  rewrite (bind_eq _ _ r1 tt r2) by reflexivity.
  set (r3 := record_call chip (AwaitInterrupt timeout) r2).
  set (rssi := chip_rssi chip (calls (hw r3))).
  set (r4 := record_call chip (RSSI rssi) r3).
  assert (HE4 : Error r4 = None).
  { apply record_call_ok; [apply feed_never_fails|].
    apply record_call_ok; [apply feed_never_fails|].
    change (Error (record_call chip (WriteRegister (RegOpMode regs) (ReceiverMode regs)) r1)
            = None).
    apply record_call_ok; [apply feed_never_fails|].
    apply record_call_ok; [apply feed_never_fails|exact HE]. }
  assert (HR4 : fifo_reads regs (calls (hw r4)) = base + length (@nil byte)).
  { subst r4 r3 r2 r1. simpl. lia. }
  assert (HB4 : receiveBuffer r4 = []) by exact HB.
  destruct (Receive_loop_feed data fuel timeout rssi r4 [] junk Hbs Hnz HE4 HR4 Hf)
    as (r5 & Hrun & HE5 & HB5).
  rewrite HB4 in Hrun. cbn [app] in Hrun.
  unfold defer.
  rewrite (bind_eq _ _ r2 tt r3) by reflexivity.
  rewrite (bind_eq _ _ r3 rssi r4) by reflexivity.
  rewrite Hrun, setMode_run.
  eexists _, _. repeat split.
  - change (Error (record_call chip (WriteRegister (RegOpMode regs) (SleepMode regs)) r5)
            = None).
    apply record_call_ok; [apply feed_never_fails|exact HE5].
  - exact HB5.
Qed.

End Feed.

(** C8. For every payload without a zero byte that [Send] accepts: the
    bytes [Send] writes to the FIFO (the payload and its zero
    terminator), delivered through the FIFO to [Receive] on an instance
    with an empty accumulator, come back as the payload.  (An empty
    payload comes back as the nil packet.) *)
Theorem raw_frame_round_trip
    (regs : RegMap) (txchip : Chip) (k fuel : nat) (data : list byte) (r : Radio)
    (rx : Radio) (rxfuel : nat) (timeout : Z) :
  RegIrqFlags2 regs <> RegFifo regs ->
  FifoNotEmpty regs <> x00 ->
  responsive regs txchip k ->
  Error r = None ->
  length data <= maxPacketSize ->
  maxPacketSize < length (txPacket r) ->
  length data + 1 + k < fuel ->
  ~ In x00 data ->
  Error rx = None ->
  receiveBuffer rx = [] ->
  length data < rxfuel ->
  exists r' chunks p rssi rx',
    Send regs txchip fuel data r = Done tt r' /\
    fifo_bursts regs (calls (hw r')) = fifo_bursts regs (calls (hw r)) ++ chunks /\
    Receive regs (feed_chip regs (fifo_reads regs (calls (hw rx))) (concat chunks))
      rxfuel timeout rx = Done (p, rssi) rx' /\
    packet_bytes p = data /\
    (data <> [] -> p = Some data).
Proof.
  intros Hdistinct Hflag HR HE HL HT Hf Hnz HErx HBrx Hfrx.
  destruct (Send_on_responsive_chip regs txchip (proj1 HR) k HR fuel data r HE HL HT Hf)
    as (r' & c & rest & Hrun & _ & _ & HB & Hcat & _ & _).
  destruct (Receive_feed regs (fifo_reads regs (calls (hw rx))) (concat (c :: rest))
              Hdistinct Hflag rxfuel timeout rx data [] Hcat Hnz HErx HBrx eq_refl Hfrx)
    as (rssi & rx' & Hrx & _ & _).
  exists r', (c :: rest), (nil_if_empty data), rssi, rx'.
  repeat split.
  - exact Hrun.
  - exact HB.
  - exact Hrx.
  - apply packet_bytes_nil_if_empty.
  - intros Hne. destruct data; [contradiction|reflexivity].
Qed.

Lemma raw_frame_round_trip_witness :
  exists r' chunks p rssi rx',
    Send rfm69_regs (idle_chip rfm69_regs) 9 [x68; x65; x6c; x6c; x6f]
      (new_radio rfm69_regs) = Done tt r' /\
    fifo_bursts rfm69_regs (calls (hw r'))
      = fifo_bursts rfm69_regs (calls (hw (new_radio rfm69_regs))) ++ chunks /\
    Receive rfm69_regs
      (feed_chip rfm69_regs (fifo_reads rfm69_regs (calls (hw (new_radio rfm69_regs))))
         (concat chunks))
      9 0 (new_radio rfm69_regs) = Done (p, rssi) rx' /\
    packet_bytes p = [x68; x65; x6c; x6c; x6f] /\
    ([x68; x65; x6c; x6c; x6f] <> [] -> p = Some [x68; x65; x6c; x6c; x6f]).
Proof.
  apply (raw_frame_round_trip rfm69_regs (idle_chip rfm69_regs) 1 9
           [x68; x65; x6c; x6c; x6f] (new_radio rfm69_regs)
           (new_radio rfm69_regs) 9 0%Z).
  - vm_compute. discriminate.
  - vm_compute. discriminate.
  - exact idle_chip_responsive.
  - reflexivity.
  - vm_compute. lia.
  - vm_compute. lia.
  - vm_compute. lia.
  - vm_compute. intros H. decompose [or] H; discriminate || contradiction.
  - reflexivity.
  - reflexivity.
  - vm_compute. lia.
Defined.

(** ** The headered send *)

Section Headered.

Variable regs : RegMap.
Variable chip : Chip.

(** The five header stores and [copy(r.txPacket[:5], data)] leave in
    the transmit buffer the header overwritten from its first byte by
    the payload's first bytes, followed by whatever the buffer held
    from index 5 on; and the whole buffer goes to [transmit]. *)
Lemma SendRadioHead_reaches_transmit fuel data to from id flags r :
  Error r = None ->
  length data <= maxPacketSize ->
  5 <= length (txPacket r) ->
  let tx' := go_copy (radiohead_header (length data) to from id flags) data
             ++ skipn 5 (txPacket r) in
  SendRadioHead regs chip fuel data to from id flags r =
    (transmit regs chip fuel tx' ;; setMode regs chip (StandbyMode regs))
      (Send_armed regs chip tx' r).
Proof.
  intros HE HL HT tx'. subst tx'.
  unfold SendRadioHead. rewrite HE.
  replace (maxPacketSize <? length data) with false
    by (symmetry; apply Nat.ltb_ge; exact HL).
  destruct r as [h rb tx e m]. cbn [txPacket] in HT.
  destruct tx as [|t0 [|t1 [|t2 [|t3 [|t4 rest]]]]]; simpl in HT; try lia.
  reflexivity.
Qed.

Variable k : nat.
Hypothesis HR : responsive regs chip k.

(** What [SendRadioHead] writes to the FIFO on a responsive chip. *)
Lemma SendRadioHead_on_responsive_chip fuel data to from id flags r :
  Error r = None ->
  length data <= maxPacketSize ->
  5 <= length (txPacket r) ->
  length (txPacket r) + k < fuel ->
  exists r',
    SendRadioHead regs chip fuel data to from id flags r = Done tt r' /\
    fifo_written regs (calls (hw r')) =
      fifo_written regs (calls (hw r))
        ++ go_copy (radiohead_header (length data) to from id flags) data
        ++ skipn 5 (txPacket r).
Proof.
  intros HE HL HT Hf.
  rewrite SendRadioHead_reaches_transmit by assumption. cbv zeta.
  set (tx' := go_copy (radiohead_header (length data) to from id flags) data
              ++ skipn 5 (txPacket r)).
  assert (Hlen : length tx' = length (txPacket r)).
  { subst tx'. unfold go_copy. rewrite !length_app, length_firstn, !length_skipn.
    unfold radiohead_header. cbn [length]. lia. }
  assert (HN := proj1 HR).
  assert (HA := Send_armed_ok regs chip tx' r HN HE).
  assert (HBA : fifo_bursts regs (calls (hw (Send_armed regs chip tx' r)))
                = fifo_bursts regs (calls (hw r))).
  { unfold Send_armed. simpl. now rewrite !app_nil_r. }
  destruct (transmit_loop_writes_all regs chip HN k HR fuel fifoSize tx' _ HA)
    as (a & r1 & c & rest & Hrun & HE1 & HB1 & Hcat & _ & _).
  { unfold fifoSize. lia. }
  { lia. }
  destruct HR as (_ & _ & Hmode).
  destruct (Hmode (calls (hw r1))) as (j & Hj & Hsb).
  destruct (finishTX_loop_answers regs chip HN j fuel r1 HE1 ltac:(lia) Hsb)
    as (r2 & Hrun2 & HE2 & HB2).
  unfold transmit.
  erewrite bind_eq; cycle 1.
  { erewrite bind_eq by exact Hrun. unfold finishTX. exact Hrun2. }
  rewrite setMode_run.
  eexists. split; [reflexivity|].
  unfold fifo_written. simpl.
  rewrite app_nil_r, HB2, HB1, HBA, concat_app, Hcat. reflexivity.
Qed.

End Headered.

(** C1, at the input [sendHeadered([0xAA,0xBB], to=2, from=1, id=5, flags=0)]
    of the spec's example: [SendRadioHead] returns, and the FIFO received
    not the frame [06 02 01 05 00 AA BB] but the whole 115-byte transmit
    buffer, whose header was overwritten by the payload from its first
    byte. *)
Theorem SendRadioHead_sends_overwritten_header :
  exists r',
    SendRadioHead rfm69_regs (idle_chip rfm69_regs) 9 [xaa; xbb] x02 x01 x05 x00
      (new_radio rfm69_regs) = Done tt r' /\
    fifo_written rfm69_regs (calls (hw r'))
      = [xaa; xbb; x01; x05; x00] ++ repeat x00 110 /\
    fifo_written rfm69_regs (calls (hw r'))
      <> radiohead_header 2 x02 x01 x05 x00 ++ [xaa; xbb].
Proof.
  eexists. split; [vm_compute; reflexivity|].
  split; [vm_compute; reflexivity|].
  vm_compute. discriminate.
Qed.

(** The earlier variant in the same file, on the same input, writes the
    frame in one burst. *)
Lemma Legacy_SendRadioHead_sends_frame :
  exists r',
    Legacy.SendRadioHead rfm69_regs (sent_chip rfm69_regs) 9 [xaa; xbb] x02 x01 x05 x00
      (new_radio rfm69_regs) = Done tt r' /\
    fifo_bursts rfm69_regs (calls (hw r'))
      = [[x06; x02; x01; x05; x00; xaa; xbb]].
Proof.
  eexists. split; vm_compute; reflexivity.
Qed.

(** ** The headered receive *)

Section FeedHeadered.

Variable regs : RegMap.
Variable base : nat.
Variable bs : list byte.
Hypothesis Hdistinct : RegIrqFlags2 regs <> RegFifo regs.
Hypothesis Hflag : FifoNotEmpty regs <> x00.

Let chip := feed_chip regs base bs.

(** One iteration of the polling loop while the FIFO has a byte: the
    flags register is read, then the FIFO register. *)
Lemma feed_next r done c rest :
  bs = done ++ c :: rest ->
  Error r = None ->
  fifo_reads regs (calls (hw r)) = base + length done ->
  exists r2,
    fifoEmpty regs chip r =
      Done false (record_call chip (ReadRegister (RegIrqFlags2 regs) (FifoNotEmpty regs)) r) /\
    hw_ReadRegister chip (RegFifo regs)
      (record_call chip (ReadRegister (RegIrqFlags2 regs) (FifoNotEmpty regs)) r)
      = Done c r2 /\
    Error r2 = None /\
    receiveBuffer r2 = receiveBuffer r /\
    fifo_reads regs (calls (hw r2)) = base + length (done ++ [c]).
Proof.
  intros Hbs HE Hreads.
  assert (HNF : never_fails chip) by (intros l; reflexivity).
  set (r1 := record_call chip (ReadRegister (RegIrqFlags2 regs) (FifoNotEmpty regs)) r).
  assert (HE1 : Error r1 = None) by (apply record_call_ok; assumption).
  assert (Hreads1 : fifo_reads regs (calls (hw r1)) = base + length done).
  { subst r1. rewrite calls_record_call, fifo_reads_skip; [exact Hreads|].
    simpl. now rewrite byte_eqb_neq by exact Hdistinct. }
  exists (record_call chip (ReadRegister (RegFifo regs) c) r1).
  split; [|split; [|split; [|split]]].
  - rewrite fifoEmpty_run. cbv zeta. unfold chip.
    rewrite (feed_flags regs base bs Hdistinct _ (length done) Hreads)
      by (rewrite Hbs, length_app; simpl; lia).
    now rewrite byte_and_diag, byte_eqb_neq by exact Hflag.
  - rewrite hw_ReadRegister_run. cbv zeta.
    replace (chip_read chip (calls (hw r1)) (RegFifo regs)) with c; [reflexivity|].
    unfold chip.
    now rewrite (feed_fifo regs base bs _ (length done) Hreads1), Hbs, nth_middle.
  - apply record_call_ok; assumption.
  - reflexivity.
  - rewrite calls_record_call, fifo_reads_fifo, Hreads1, length_app. simpl. lia.
Qed.

(** Once the length byte is read, the loop accumulates until the
    accumulator has that many bytes and returns them. *)
Lemma ReceiveRadioHead_loop_feed todo : forall fuel timeout rssi r done junk,
  todo <> [] ->
  bs = done ++ todo ++ junk ->
  Error r = None ->
  fifo_reads regs (calls (hw r)) = base + length done ->
  length todo <= fuel ->
  exists r',
    ReceiveRadioHead_loop regs chip fuel timeout rssi
      (Z.of_nat (length (receiveBuffer r) + length todo)) r
      = Done (Some (receiveBuffer r ++ todo), rssi) r' /\
    Error r' = None /\
    receiveBuffer r' = [].
Proof.
  induction todo as [|t todo IH]; intros fuel timeout rssi r done junk Hne Hbs HE Hreads Hf;
    [contradiction|].
  destruct fuel as [|fuel]; [simpl in Hf; lia|].
  rewrite ReceiveRadioHead_loop_S by exact HE.
  destruct (feed_next r done t (todo ++ junk) Hbs HE Hreads)
    as (r2 & Hflags & Hread & HE2 & HB2 & Hreads2).
  rewrite (bind_eq _ _ _ _ _ Hflags).
  rewrite (bind_eq _ _ _ _ _ Hread).
  unfold bind at 1. unfold gets at 1. rewrite HE2.
  replace (Z.of_nat (length (receiveBuffer r) + length (t :: todo)) =? -1)%Z with false
    by (symmetry; apply Z.eqb_neq; lia).
  unfold bind at 1. unfold receiveBuffer_WriteByte, modify, Buffer.WriteByte.
  cbv beta iota zeta.
  set (r3 := set_err None (set_receiveBuffer (receiveBuffer r2 ++ [t]) r2)).
  assert (HE3 : Error r3 = None).
  { unfold Error in *. cbn [hw fault err set_err set_receiveBuffer r3].
    destruct (fault (hw r2)); [discriminate|reflexivity]. }
  assert (HB3 : receiveBuffer r3 = receiveBuffer r ++ [t]).
  { subst r3. cbn [receiveBuffer set_err set_receiveBuffer]. now rewrite HB2. }
  assert (Hreads3 : fifo_reads regs (calls (hw r3)) = base + length (done ++ [t]))
    by exact Hreads2.
  clearbody r3.
  unfold bind at 1. unfold gets at 1.
  unfold Buffer.Len. rewrite HB3, length_app. cbn [length].
  destruct todo as [|t' todo].
  - rewrite Z.eqb_refl.
    destruct (finishRX_run regs base bs rssi r3 HE3) as (r' & Hrun & HE' & HB').
    exists r'. rewrite HB3 in Hrun.
    replace (nil_if_empty (receiveBuffer r ++ [t])) with (Some (receiveBuffer r ++ [t]))
      in Hrun by (now destruct (receiveBuffer r)).
    now repeat split.
  - replace (Z.of_nat (length (receiveBuffer r) + 1)
             =? Z.of_nat (length (receiveBuffer r) + S (length (t' :: todo))))%Z
      with false by (symmetry; apply Z.eqb_neq; simpl; lia).
    destruct (IH fuel timeout rssi r3 (done ++ [t]) junk) as (r' & Hrun & HE' & HB').
    + discriminate.
    + rewrite Hbs, <- app_assoc. reflexivity.
    + exact HE3.
    + exact Hreads3.
    + simpl in Hf. simpl. lia.
    + exists r'. repeat split; [|exact HE'|exact HB'].
      rewrite HB3, length_app, <- app_assoc in Hrun. cbn [length app] in Hrun.
      replace (length (receiveBuffer r) + S (length (t' :: todo)))
        with (length (receiveBuffer r) + 1 + length (t' :: todo)) by lia.
      exact Hrun.
Qed.

(** [ReceiveRadioHead] on an instance with an empty accumulator, fed
    a length byte and at least that many further bytes, returns those
    further bytes. *)
Lemma ReceiveRadioHead_feed fuel timeout r lb body junk :
  bs = lb :: body ++ junk ->
  int_of_byte lb = Z.of_nat (length body) ->
  body <> [] ->
  Error r = None ->
  receiveBuffer r = [] ->
  fifo_reads regs (calls (hw r)) = base ->
  length body < fuel ->
  exists rssi r',
    ReceiveRadioHead regs chip fuel timeout r = Done (Some body, rssi) r' /\
    Error r' = None /\
    receiveBuffer r' = [].
Proof.
  intros Hbs Hlb Hne HE HB Hreads Hf.
  assert (HNF : never_fails chip) by (intros l; reflexivity).
  unfold ReceiveRadioHead. rewrite HE.
  set (r1 := record_call chip (WriteRegister (RegAutoModes regs) x00) r).
  rewrite (bind_eq _ _ r tt r1) by reflexivity.
  set (r2 := set_curMode (ReceiverMode regs)
               (record_call chip (WriteRegister (RegOpMode regs) (ReceiverMode regs)) r1)).
  rewrite (bind_eq _ _ r1 tt r2) by reflexivity.
  set (r3 := record_call chip (AwaitInterrupt timeout) r2).
  set (rssi := chip_rssi chip (calls (hw r3))).
  set (r4 := record_call chip (RSSI rssi) r3).
  assert (HE4 : Error r4 = None).
  { apply record_call_ok; [exact HNF|].
    apply record_call_ok; [exact HNF|].
    change (Error (record_call chip (WriteRegister (RegOpMode regs) (ReceiverMode regs)) r1)
            = None).
    apply record_call_ok; [exact HNF|].
    apply record_call_ok; [exact HNF|exact HE]. }
  assert (HR4 : fifo_reads regs (calls (hw r4)) = base + length (@nil byte)).
  { subst r4 r3 r2 r1. simpl. lia. }
  assert (HB4 : receiveBuffer r4 = []) by exact HB.
  unfold defer.
  rewrite (bind_eq _ _ r2 tt r3) by reflexivity.
  rewrite (bind_eq _ _ r3 rssi r4) by reflexivity.
  clearbody r4. clearbody rssi. clear r1 r2 r3.
  destruct fuel as [|fuel]; [lia|].
  rewrite ReceiveRadioHead_loop_S by exact HE4.
  destruct (feed_next r4 [] lb (body ++ junk) Hbs HE4 HR4)
    as (r5 & Hflags & Hread & HE5 & HB5 & Hreads5).
  rewrite (bind_eq _ _ _ _ _ Hflags).
  rewrite (bind_eq _ _ _ _ _ Hread).
  unfold bind at 1. unfold gets at 1. rewrite HE5.
  rewrite Z.eqb_refl.
  destruct (ReceiveRadioHead_loop_feed body fuel timeout rssi r5 [lb] junk Hne Hbs HE5 Hreads5)
    as (r6 & Hrun & HE6 & HB6); [lia|].
  rewrite HB5, HB4 in Hrun. cbn [length app Nat.add] in Hrun.
  rewrite Hlb, Hrun, setMode_run.
  eexists _, _. repeat split.
  - change (Error (record_call chip (WriteRegister (RegOpMode regs) (SleepMode regs)) r6)
            = None).
    apply record_call_ok; [exact HNF|exact HE6].
  - exact HB6.
Qed.

End FeedHeadered.

(** The headered delimiter itself is right: fed the frame
    [len+4, to, from, id, flags] followed by the payload, it returns
    [to, from, id, flags] followed by the payload. *)
Lemma ReceiveRadioHead_returns_header_and_payload
    (regs : RegMap) (data : list byte) (to from id flags : byte)
    (r : Radio) (fuel : nat) (timeout : Z) :
  RegIrqFlags2 regs <> RegFifo regs ->
  FifoNotEmpty regs <> x00 ->
  length data <= maxPacketSize ->
  Error r = None ->
  receiveBuffer r = [] ->
  length data + 4 < fuel ->
  exists rssi r',
    ReceiveRadioHead regs
      (feed_chip regs (fifo_reads regs (calls (hw r)))
         (radiohead_header (length data) to from id flags ++ data))
      fuel timeout r
    = Done (Some ([to; from; id; flags] ++ data), rssi) r'.
Proof.
  intros Hdistinct Hflag HL HE HB Hf.
  destruct (ReceiveRadioHead_feed regs (fifo_reads regs (calls (hw r)))
              (radiohead_header (length data) to from id flags ++ data)
              Hdistinct Hflag fuel timeout r
              (byte_add (byte_of_len (length data)) x04)
              ([to; from; id; flags] ++ data) [])
    as (rssi & r' & Hrun & _).
  - unfold radiohead_header. simpl. now rewrite app_nil_r.
  - rewrite int_of_length_byte by (unfold maxPacketSize in HL; lia).
    simpl length. f_equal. lia.
  - discriminate.
  - exact HE.
  - exact HB.
  - reflexivity.
  - simpl length. lia.
  - now exists rssi, r'.
Qed.

(** C2, at the input [sendHeadered([0xAA,0xBB], to=2, from=1, id=5, flags=0)]:
    the bytes [SendRadioHead] wrote to the FIFO, fed to
    [ReceiveRadioHead], do not come back as [02 01 05 00 AA BB]; the
    first byte, [0xAA], is taken as the length, the 115 bytes run out
    and the call returns nil. *)
Theorem headered_round_trip_fails :
  exists r' rx',
    SendRadioHead rfm69_regs (idle_chip rfm69_regs) 9 [xaa; xbb] x02 x01 x05 x00
      (new_radio rfm69_regs) = Done tt r' /\
    ReceiveRadioHead rfm69_regs
      (feed_chip rfm69_regs 0 (fifo_written rfm69_regs (calls (hw r'))))
      300 0 (new_radio rfm69_regs) = Done (None, (-60)%Z) rx' /\
    fifo_reads rfm69_regs (calls (hw rx')) = 115.
Proof.
  eexists. eexists. split; [vm_compute; reflexivity|].
  split; vm_compute; reflexivity.
Qed.

(** * Further properties of the driver *)

(** ** What a receive returns, on any chip *)

Section ReceiveResults.

Variable regs : RegMap.
Variable chip : Chip.

Lemma fifoEmpty_inv r empty r1 :
  fifoEmpty regs chip r = Done empty r1 ->
  exists v, r1 = record_call chip (ReadRegister (RegIrqFlags2 regs) v) r.
Proof.
  rewrite fifoEmpty_run. cbv zeta. intros H. injection H as _ <-.
  eexists. reflexivity.
Qed.

Lemma hw_ReadRegister_inv addr r c r1 :
  hw_ReadRegister chip addr r = Done c r1 ->
  r1 = record_call chip (ReadRegister addr c) r.
Proof.
  rewrite hw_ReadRegister_run. cbv zeta. intros H. injection H as <- <-.
  reflexivity.
Qed.

(** [finishRX] returns the RSSI it was given and either nil or the whole,
    non-empty accumulator. *)
Lemma finishRX_inv rssi r p x r' :
  finishRX regs chip rssi r = Done (p, x) r' ->
  x = rssi /\
  (p = None \/ (p = Some (receiveBuffer r) /\ receiveBuffer r <> [])).
Proof.
  unfold finishRX. intros H.
  step_in H as u r1 Hs. rewrite setMode_run in Hs. injection Hs as _ <-.
  step_in H as size r1 Hs. unfold gets in Hs. injection Hs as <- <-.
  cbn [receiveBuffer set_curMode record_call set_hw] in H.
  destruct (receiveBuffer r) as [|b l] eqn:EB.
  - cbn in H. injection H as <- <- _. split; [reflexivity|now left].
  - cbn [Buffer.Len length Nat.eqb] in H.
    step_in H as rd r1 Hs. unfold gets in Hs. injection Hs as <- <-.
    cbn [receiveBuffer set_curMode record_call set_hw] in H.
    rewrite EB in H. unfold Buffer.Read in H.
    replace (S (length l) - length (b :: l)) with 0 in H by (simpl; lia).
    replace (firstn (S (length l)) (b :: l)) with (b :: l) in H
      by (symmetry; exact (firstn_all (b :: l))).
    cbn [repeat] in H. rewrite app_nil_r in H.
    step_in H as u1 r1 Hs. clear Hs.
    step_in H as e r2 Hs. clear Hs.
    destruct e.
    + unfold ret in H. injection H as <- <- _. split; [reflexivity|now left].
    + step_in H as u2 r3 Hs. clear Hs.
      unfold ret in H. injection H as <- <- _.
      split; [reflexivity|]. right. split; [reflexivity|discriminate].
Qed.

Lemma Receive_loop_inv fuel : forall timeout rssi r p x r',
  Receive_loop regs chip fuel timeout rssi r = Done (p, x) r' ->
  x = rssi /\
  (forall l, p = Some l ->
     l <> [] /\ exists new, l = receiveBuffer r ++ new /\ ~ In x00 new).
Proof.
  induction fuel as [|fuel IH]; intros timeout rssi r p x r' H.
  - cbn [Receive_loop] in H. destruct (Error r); [|discriminate].
    injection H as <- <- _. split; [reflexivity|discriminate].
  - destruct (Error r) eqn:HE.
    { cbn [Receive_loop] in H. rewrite HE in H.
      injection H as <- <- _. split; [reflexivity|discriminate]. }
    rewrite Receive_loop_S in H by exact HE.
    step_in H as empty r1 Hs. apply fifoEmpty_inv in Hs. destruct Hs as (v & ->).
    destruct empty.
    + destruct (timeout <=? 0)%Z.
      * unfold ret in H. injection H as <- <- _. split; [reflexivity|discriminate].
      * apply IH in H. exact H.
    + step_in H as c r2 Hs. apply hw_ReadRegister_inv in Hs. subst r2.
      step_in H as e r3 Hs. unfold gets in Hs. injection Hs as <- <-.
      destruct (Error _).
      { unfold ret in H. injection H as <- <- _. split; [reflexivity|discriminate]. }
      destruct (Byte.eqb c x00) eqn:Ec.
      * apply finishRX_inv in H. destruct H as (-> & [->|(-> & Hne)]).
        -- split; [reflexivity|discriminate].
        -- split; [reflexivity|]. intros l Hl. injection Hl as <-.
           split; [exact Hne|]. exists []. cbn [receiveBuffer record_call set_hw].
           rewrite app_nil_r. split; [reflexivity|]. intros [].
      * step_in H as u r3 Hs.
        apply receiveBuffer_WriteByte_spec in Hs. destruct Hs as (_ & Hbuf).
        cbn [receiveBuffer record_call set_hw] in Hbuf.
        apply IH in H. destruct H as (-> & Hp).
        split; [reflexivity|]. intros l Hl.
        destruct (Hp l Hl) as (Hne & new & -> & Hnz).
        split; [exact Hne|]. exists (c :: new). rewrite Hbuf, <- app_assoc.
        split; [reflexivity|].
        intros [Hc|Hin]; [|contradiction].
        subst c. discriminate.
Qed.


(** The three receive entry points, once past the latch test, run their
    polling loop on the armed instance and then request Sleep. *)
Lemma deferred_Sleep {A} (body : M A) r :
  defer (setMode regs chip (SleepMode regs)) body r =
    match body r with
    | Done a r1 => Done a (asleep regs chip r1)
    | Panic r1 => Panic (asleep regs chip r1)
    | OutOfFuel r1 => OutOfFuel r1
    end.
Proof. unfold defer. destruct (body r); reflexivity. Qed.

Lemma Receive_unfold fuel timeout r :
  Error r = None ->
  Receive regs chip fuel timeout r =
    defer (setMode regs chip (SleepMode regs))
      (Receive_loop regs chip fuel timeout (Receive_rssi regs chip timeout r))
      (Receive_armed regs chip timeout r).
Proof. intros HE. unfold Receive. rewrite HE. reflexivity. Qed.

Lemma ReceiveRadioHead_unfold fuel timeout r :
  Error r = None ->
  ReceiveRadioHead regs chip fuel timeout r =
    defer (setMode regs chip (SleepMode regs))
      (ReceiveRadioHead_loop regs chip fuel timeout (Receive_rssi regs chip timeout r) (-1)%Z)
      (Receive_armed regs chip timeout r).
Proof. intros HE. unfold ReceiveRadioHead. rewrite HE. reflexivity. Qed.

Lemma Receive_Done_inv fuel timeout r res r' :
  Error r = None ->
  Receive regs chip fuel timeout r = Done res r' ->
  exists r1,
    Receive_loop regs chip fuel timeout (Receive_rssi regs chip timeout r)
      (Receive_armed regs chip timeout r) = Done res r1 /\
    r' = asleep regs chip r1.
Proof.
  intros HE H. rewrite Receive_unfold, deferred_Sleep in H by exact HE.
  destruct (Receive_loop _ _ _ _ _ _) as [a r1|r1|r1]; try discriminate.
  injection H as <- <-. now exists r1.
Qed.

Lemma ReceiveRadioHead_Done_inv fuel timeout r res r' :
  Error r = None ->
  ReceiveRadioHead regs chip fuel timeout r = Done res r' ->
  exists r1,
    ReceiveRadioHead_loop regs chip fuel timeout (Receive_rssi regs chip timeout r) (-1)%Z
      (Receive_armed regs chip timeout r) = Done res r1 /\
    r' = asleep regs chip r1.
Proof.
  intros HE H. rewrite ReceiveRadioHead_unfold, deferred_Sleep in H by exact HE.
  destruct (ReceiveRadioHead_loop _ _ _ _ _ _ _) as [a r1|r1|r1]; try discriminate.
  injection H as <- <-. now exists r1.
Qed.

(** The headered loop: the RSSI is the one passed in, and a packet
    returned is non-empty and as long as the first byte read from the
    FIFO since entry says. *)
Lemma ReceiveRadioHead_loop_inv fuel :
  RegIrqFlags2 regs <> RegFifo regs ->
  forall timeout rssi len r p x r' seg0 l0,
    calls (hw r) = seg0 ++ l0 ->
    ((len = -1)%Z -> first_fifo_byte regs seg0 = None) ->
    ((len <> -1)%Z ->
       exists b, first_fifo_byte regs seg0 = Some b /\ int_of_byte b = len) ->
    ReceiveRadioHead_loop regs chip fuel timeout rssi len r = Done (p, x) r' ->
    x = rssi /\
    exists seg,
      calls (hw r') = seg ++ l0 /\
      (forall l, p = Some l ->
         l <> [] /\
         exists b, first_fifo_byte regs seg = Some b /\
                   Z.of_nat (length l) = int_of_byte b).
Proof.
  intros Hdistinct.
  induction fuel as [|fuel IH]; intros timeout rssi len r p x r' seg0 l0 Hcalls Hm1 Hlen H.
  - cbn [ReceiveRadioHead_loop] in H. destruct (Error r); [|discriminate].
    injection H as <- <- <-. split; [reflexivity|].
    exists seg0. split; [exact Hcalls|discriminate].
  - destruct (Error r) eqn:HE.
    { cbn [ReceiveRadioHead_loop] in H. rewrite HE in H.
      injection H as <- <- <-. split; [reflexivity|].
      exists seg0. split; [exact Hcalls|discriminate]. }
    rewrite ReceiveRadioHead_loop_S in H by exact HE.
    step_in H as empty r1 Hs.
    apply (fifoEmpty_calls regs chip) in Hs. destruct Hs as (v & Hcalls1).
    set (c1 := ReadRegister (RegIrqFlags2 regs) v) in *.
    assert (Hskip : first_fifo_byte regs (c1 :: seg0) = first_fifo_byte regs seg0).
    { apply first_fifo_byte_skip. subst c1. simpl.
      now rewrite byte_eqb_neq by exact Hdistinct. }
    rewrite Hcalls in Hcalls1. change (calls (hw r1) = (c1 :: seg0) ++ l0) in Hcalls1.
    assert (Hm1' : (len = -1)%Z -> first_fifo_byte regs (c1 :: seg0) = None)
      by (intros E; rewrite Hskip; auto).
    assert (Hlen' : (len <> -1)%Z ->
              exists b, first_fifo_byte regs (c1 :: seg0) = Some b /\ int_of_byte b = len)
      by (intros E; rewrite Hskip; auto).
    destruct empty.
    + destruct (timeout <=? 0)%Z.
      * unfold ret in H. injection H as <- <- <-. split; [reflexivity|].
        exists (c1 :: seg0). split; [exact Hcalls1|discriminate].
      * exact (IH _ _ _ _ _ _ _ (c1 :: seg0) l0 Hcalls1 Hm1' Hlen' H).
    + step_in H as c r2 Hs.
      apply (hw_ReadRegister_calls chip) in Hs. rename Hs into Hcalls2.
      set (c2 := ReadRegister (RegFifo regs) c) in *.
      rewrite Hcalls1 in Hcalls2.
      change (calls (hw r2) = (c2 :: c1 :: seg0) ++ l0) in Hcalls2.
      step_in H as e r3 Hs. unfold gets in Hs. injection Hs as <- <-.
      destruct (Error r2).
      { unfold ret in H. injection H as <- <- <-. split; [reflexivity|].
        exists (c2 :: c1 :: seg0). split; [exact Hcalls2|discriminate]. }
      destruct (len =? -1)%Z eqn:El.
      * apply Z.eqb_eq in El.
        assert (Hfirst : first_fifo_byte regs (c2 :: c1 :: seg0) = Some c).
        { apply first_fifo_byte_first.
          - exact (Hm1' El).
          - subst c2. simpl. now rewrite byte_eqb_refl. }
        apply (IH _ _ _ _ _ _ _ (c2 :: c1 :: seg0) l0 Hcalls2) in H.
        -- exact H.
        -- intros E. unfold int_of_byte in E. lia.
        -- intros _. exists c. split; [exact Hfirst|reflexivity].
      * apply Z.eqb_neq in El.
        destruct (Hlen' El) as (b & Hb & Hbl).
        assert (Hfirst : first_fifo_byte regs (c2 :: c1 :: seg0) = Some b)
          by (now apply first_fifo_byte_stable).
        step_in H as u r3 Hs.
        apply receiveBuffer_WriteByte_spec in Hs. destruct Hs as (Hcalls3 & Hbuf3).
        rewrite Hcalls2 in Hcalls3.
        step_in H as n r4 Hs. unfold gets in Hs. injection Hs as <- <-.
        destruct (Z.of_nat (Buffer.Len (receiveBuffer r3)) =? len)%Z eqn:En.
        -- apply Z.eqb_eq in En.
           pose proof (finishRX_calls regs chip _ _ _ _ H) as Hcalls'.
           apply finishRX_inv in H. destruct H as (-> & Hp).
           split; [reflexivity|].
           exists (WriteRegister (RegOpMode regs) (StandbyMode regs) :: c2 :: c1 :: seg0).
           split; [rewrite Hcalls', Hcalls3; reflexivity|].
           intros l Hl. destruct Hp as [->|(-> & Hne)]; [discriminate|].
           injection Hl as <-. split; [exact Hne|].
           exists b. split; [now apply first_fifo_byte_stable|].
           rewrite Hbl, <- En. reflexivity.
        -- apply (IH _ _ _ _ _ _ _ (c2 :: c1 :: seg0) l0 Hcalls3) in H.
           ++ exact H.
           ++ intros E. contradiction.
           ++ intros _. exists b. split; [exact Hfirst|exact Hbl].
Qed.


Lemma ReceiveRadioHead_loop_rssi fuel : forall timeout rssi len r p x r',
  ReceiveRadioHead_loop regs chip fuel timeout rssi len r = Done (p, x) r' ->
  x = rssi.
Proof.
  induction fuel as [|fuel IH]; intros timeout rssi len r p x r' H.
  - cbn [ReceiveRadioHead_loop] in H. destruct (Error r); [|discriminate].
    now injection H as _ <- _.
  - destruct (Error r) eqn:HE.
    { cbn [ReceiveRadioHead_loop] in H. rewrite HE in H. now injection H as _ <- _. }
    rewrite ReceiveRadioHead_loop_S in H by exact HE.
    skip_in H as empty. destruct empty.
    + destruct (timeout <=? 0)%Z; [now injection H as _ <- _|]. eapply IH, H.
    + skip_in H as c. skip_in H as e.
      destruct e; [now injection H as _ <- _|].
      destruct (len =? -1)%Z; [eapply IH, H|].
      skip_in H as u. skip_in H as n.
      destruct (Z.of_nat n =? len)%Z; [|eapply IH, H].
      now apply finishRX_inv in H.
Qed.

(** [finishRX] always returns; when no register operation fails it
    returns the accumulator's content (nil if there is none) and leaves
    the latch clear. *)
Lemma finishRX_returns rssi r :
  exists res r',
    finishRX regs chip rssi r = Done res r' /\
    (never_fails chip -> Error r = None ->
       res = (nil_if_empty (receiveBuffer r), rssi) /\
       Error r' = None /\ receiveBuffer r' = []).
Proof.
  unfold finishRX.
  rewrite (bind_eq _ _ _ _ _ (setMode_run regs chip (StandbyMode regs) r)).
  set (r1 := set_curMode (StandbyMode regs)
               (record_call chip (WriteRegister (RegOpMode regs) (StandbyMode regs)) r)).
  assert (HE1 : never_fails chip -> Error r = None -> Error r1 = None).
  { intros HN HE.
    change (Error (record_call chip (WriteRegister (RegOpMode regs) (StandbyMode regs)) r)
            = None).
    now apply record_call_ok. }
  assert (HB1 : receiveBuffer r1 = receiveBuffer r) by reflexivity.
  clearbody r1.
  unfold bind at 1. unfold gets at 1. rewrite HB1.
  destruct (receiveBuffer r) as [|b l] eqn:EB.
  - exists (None, rssi), r1. cbn. split; [reflexivity|].
    intros HN HE. repeat split; [now apply HE1|congruence].
  - cbn [Buffer.Len length Nat.eqb].
    unfold bind at 1. unfold gets at 1. rewrite HB1.
    unfold Buffer.Read.
    replace (S (length l) - length (b :: l)) with 0 by (simpl; lia).
    replace (firstn (S (length l)) (b :: l)) with (b :: l)
      by (symmetry; exact (firstn_all (b :: l))).
    replace (skipn (S (length l)) (b :: l)) with (@nil byte)
      by (symmetry; exact (skipn_all (b :: l))).
    cbn [repeat]. rewrite app_nil_r.
    unfold bind at 1. unfold modify at 1.
    unfold bind at 1. unfold gets at 1.
    set (r2 := set_err None (set_receiveBuffer [] r1)).
    assert (HE2 : never_fails chip -> Error r = None -> Error r2 = None).
    { intros HN HE. specialize (HE1 HN HE).
      unfold Error in *. cbn [hw fault err set_err set_receiveBuffer r2].
      destruct (fault (hw r1)); [discriminate|reflexivity]. }
    destruct (Error r2) eqn:E2.
    + eexists _, _. split; [reflexivity|].
      intros HN HE. discriminate (HE2 HN HE).
    + unfold bind, modify, ret. eexists _, _. split; [reflexivity|].
      intros HN HE. repeat split. exact E2.
Qed.

Lemma receive_safe_step r r1 res :
  fifo_bursts regs (calls (hw r1)) = fifo_bursts regs (calls (hw r)) ->
  (never_fails chip -> Error r = None -> Error r1 = None) ->
  receive_safe regs chip r1 res -> receive_safe regs chip r res.
Proof.
  intros HB HE (HB' & Hp & HE'). split; [congruence|split; [exact Hp|auto]].
Qed.

Lemma receive_safe_Done r a :
  receive_safe regs chip r (Done a r).
Proof. split; [reflexivity|split; [intros ? H; discriminate H|auto]]. Qed.

Lemma receive_safe_OutOfFuel r :
  receive_safe regs chip r (OutOfFuel r).
Proof. split; [reflexivity|split; [intros ? H; discriminate H|auto]]. Qed.

Lemma receive_safe_finishRX rssi r :
  receive_safe regs chip r (finishRX regs chip rssi r).
Proof.
  destruct (finishRX_returns rssi r) as (res & r' & Hrun & Hok).
  pose proof (finishRX_calls regs chip _ _ _ _ Hrun) as Hcalls.
  rewrite Hrun. split; [|split].
  - cbn [state_of]. rewrite Hcalls. simpl. apply app_nil_r.
  - intros ? H; discriminate H.
  - intros HN HE. now destruct (Hok HN HE) as (_ & ? & _).
Qed.

Lemma receive_safe_poll r v res :
  receive_safe regs chip (record_call chip (ReadRegister (RegIrqFlags2 regs) v) r) res ->
  receive_safe regs chip r res.
Proof.
  apply receive_safe_step.
  - simpl. apply app_nil_r.
  - intros HN HE. now apply record_call_ok.
Qed.

Lemma receive_safe_read r c res :
  receive_safe regs chip (record_call chip (ReadRegister (RegFifo regs) c) r) res ->
  receive_safe regs chip r res.
Proof.
  apply receive_safe_step.
  - simpl. apply app_nil_r.
  - intros HN HE. now apply record_call_ok.
Qed.

Lemma receive_safe_write r c res :
  Error r = None ->
  receive_safe regs chip (set_err None (set_receiveBuffer (receiveBuffer r ++ [c]) r)) res ->
  receive_safe regs chip r res.
Proof.
  intros HE. apply receive_safe_step; [reflexivity|].
  intros _ _. unfold Error in *. cbn [hw fault err set_err set_receiveBuffer].
  destruct (fault (hw r)); [discriminate|reflexivity].
Qed.

Lemma Receive_loop_safe fuel : forall timeout rssi r,
  receive_safe regs chip r (Receive_loop regs chip fuel timeout rssi r).
Proof.
  induction fuel as [|fuel IH]; intros timeout rssi r.
  - cbn [Receive_loop].
    destruct (Error r); [apply receive_safe_Done|apply receive_safe_OutOfFuel].
  - destruct (Error r) eqn:HE.
    { cbn [Receive_loop]. rewrite HE. apply receive_safe_Done. }
    rewrite Receive_loop_S by exact HE.
    rewrite (bind_eq _ _ _ _ _ (fifoEmpty_run regs chip r)). cbv zeta.
    set (v := chip_read chip (calls (hw r)) (RegIrqFlags2 regs)).
    apply (receive_safe_poll r v).
    set (r1 := record_call chip (ReadRegister (RegIrqFlags2 regs) v) r).
    destruct (Byte.eqb _ x00).
    + destruct (timeout <=? 0)%Z; [apply receive_safe_Done|apply IH].
    + rewrite (bind_eq _ _ _ _ _ (hw_ReadRegister_run chip (RegFifo regs) r1)). cbv zeta.
      set (c := chip_read chip (calls (hw r1)) (RegFifo regs)).
      apply (receive_safe_read r1 c).
      set (r2 := record_call chip (ReadRegister (RegFifo regs) c) r1).
      rewrite (bind_eq _ _ r2 (Error r2) r2) by reflexivity.
      destruct (Error r2) eqn:E2; [apply receive_safe_Done|].
      destruct (Byte.eqb c x00); [apply receive_safe_finishRX|].
      rewrite (bind_eq _ _ r2 tt
                 (set_err None (set_receiveBuffer (receiveBuffer r2 ++ [c]) r2)))
        by reflexivity.
      apply (receive_safe_write r2 c); [exact E2|apply IH].
Qed.

Lemma ReceiveRadioHead_loop_safe fuel : forall timeout rssi len r,
  receive_safe regs chip r (ReceiveRadioHead_loop regs chip fuel timeout rssi len r).
Proof.
  induction fuel as [|fuel IH]; intros timeout rssi len r.
  - cbn [ReceiveRadioHead_loop].
    destruct (Error r); [apply receive_safe_Done|apply receive_safe_OutOfFuel].
  - destruct (Error r) eqn:HE.
    { cbn [ReceiveRadioHead_loop]. rewrite HE. apply receive_safe_Done. }
    rewrite ReceiveRadioHead_loop_S by exact HE.
    rewrite (bind_eq _ _ _ _ _ (fifoEmpty_run regs chip r)). cbv zeta.
    set (v := chip_read chip (calls (hw r)) (RegIrqFlags2 regs)).
    apply (receive_safe_poll r v).
    set (r1 := record_call chip (ReadRegister (RegIrqFlags2 regs) v) r).
    destruct (Byte.eqb _ x00).
    + destruct (timeout <=? 0)%Z; [apply receive_safe_Done|apply IH].
    + rewrite (bind_eq _ _ _ _ _ (hw_ReadRegister_run chip (RegFifo regs) r1)). cbv zeta.
      set (c := chip_read chip (calls (hw r1)) (RegFifo regs)).
      apply (receive_safe_read r1 c).
      set (r2 := record_call chip (ReadRegister (RegFifo regs) c) r1).
      rewrite (bind_eq _ _ r2 (Error r2) r2) by reflexivity.
      destruct (Error r2) eqn:E2; [apply receive_safe_Done|].
      destruct (len =? -1)%Z; [apply IH|].
      set (r3 := set_err None (set_receiveBuffer (receiveBuffer r2 ++ [c]) r2)).
      rewrite (bind_eq _ _ r2 tt r3) by reflexivity.
      apply (receive_safe_write r2 c); [exact E2|]. fold r3.
      rewrite (bind_eq _ _ r3 (Buffer.Len (receiveBuffer r3)) r3) by reflexivity.
      destruct (Z.of_nat _ =? len)%Z; [apply receive_safe_finishRX|apply IH].
Qed.

End ReceiveResults.

(** ** How a receive leaves the accumulator *)

Section ReceiveExits.

Variable regs : RegMap.
Variable chip : Chip.
Hypothesis Hdistinct : RegIrqFlags2 regs <> RegFifo regs.

Lemma fifo_bytes_skip c l :
  reads_from (RegFifo regs) c = None -> fifo_bytes regs (c :: l) = fifo_bytes regs l.
Proof. intros H. cbn [fifo_bytes]. rewrite H. apply app_nil_r. Qed.

Lemma fifo_bytes_poll v l :
  fifo_bytes regs (ReadRegister (RegIrqFlags2 regs) v :: l) = fifo_bytes regs l.
Proof.
  apply fifo_bytes_skip. cbn [reads_from].
  now rewrite byte_eqb_neq by exact Hdistinct.
Qed.

Lemma fifo_bytes_fifo c l :
  fifo_bytes regs (ReadRegister (RegFifo regs) c :: l) = fifo_bytes regs l ++ [c].
Proof. cbn [fifo_bytes reads_from]. now rewrite byte_eqb_refl. Qed.

(** [finishRX] leaves the accumulator empty however it returns; it
    returns the whole accumulator as the packet, or nil when there is
    nothing in it or when the latch is set after the read. *)
Lemma finishRX_exits rssi r p x r' :
  finishRX regs chip rssi r = Done (p, x) r' ->
  receiveBuffer r' = [] /\
  ((p = Some (receiveBuffer r) /\ receiveBuffer r <> [] /\ Error r' = None) \/
   (p = None /\ (receiveBuffer r = [] \/ Error r' <> None))).
Proof.
  unfold finishRX. intros H.
  step_in H as u r1 Hs. rewrite setMode_run in Hs. injection Hs as _ <-.
  step_in H as size r1 Hs. unfold gets in Hs. injection Hs as <- <-.
  cbn [receiveBuffer set_curMode record_call set_hw] in H.
  destruct (receiveBuffer r) as [|b l] eqn:EB.
  - cbn [Buffer.Len length Nat.eqb] in H. unfold ret in H. injection H as <- _ <-.
    split; [exact EB|]. right. split; [reflexivity|now left].
  - cbn [Buffer.Len length Nat.eqb] in H.
    step_in H as rd r1 Hs. unfold gets in Hs. injection Hs as <- <-.
    cbn [receiveBuffer set_curMode record_call set_hw] in H.
    rewrite EB in H. unfold Buffer.Read in H.
    replace (S (length l) - length (b :: l)) with 0 in H by (simpl; lia).
    replace (firstn (S (length l)) (b :: l)) with (b :: l) in H
      by (symmetry; exact (firstn_all (b :: l))).
    replace (skipn (S (length l)) (b :: l)) with (@nil byte) in H
      by (symmetry; exact (skipn_all (b :: l))).
    cbn [repeat] in H. rewrite app_nil_r in H.
    step_in H as u1 r1 Hs. unfold modify in Hs. injection Hs as _ <-.
    step_in H as e r2 Hs. unfold gets in Hs. injection Hs as <- <-.
    match type of H with
    | context [match ?e with _ => _ end] => destruct e eqn:E2
    end.
    + unfold ret in H. injection H as <- _ <-.
      split; [reflexivity|]. right. split; [reflexivity|].
      right. rewrite E2. discriminate.
    + step_in H as u2 r3 Hs. unfold modify in Hs. injection Hs as _ <-.
      unfold ret in H. injection H as <- _ <-.
      split; [reflexivity|]. left.
      split; [reflexivity|]. split; [discriminate|exact E2].
Qed.

(** The raw loop.  [seg0] are the calls since entry and [buf0] is the
    accumulator at entry: every byte read from the FIFO so far was
    appended, and none was zero.  The loop ends in [finishRX] with a
    packet, in [finishRX] without one, or at its bottom. *)
Lemma Receive_loop_exits fuel :
  forall timeout rssi r p x r' seg0 l0 buf0,
    calls (hw r) = seg0 ++ l0 ->
    receiveBuffer r = buf0 ++ fifo_bytes regs seg0 ->
    ~ In x00 (fifo_bytes regs seg0) ->
    Receive_loop regs chip fuel timeout rssi r = Done (p, x) r' ->
    exists seg,
      calls (hw r') = seg ++ l0 /\
      ((exists new,
          p = Some (buf0 ++ new) /\ buf0 ++ new <> [] /\ ~ In x00 new /\
          fifo_bytes regs seg = new ++ [x00] /\ receiveBuffer r' = []) \/
       (p = None /\ receiveBuffer r' = [] /\
        (Error r' <> None \/ (buf0 = [] /\ fifo_bytes regs seg = [x00]))) \/
       (p = None /\
        exists new rest,
          receiveBuffer r' = buf0 ++ new /\ fifo_bytes regs seg = new ++ rest /\
          (Error r' = None -> rest = []))).
Proof.
  induction fuel as [|fuel IH];
    intros timeout rssi r p x r' seg0 l0 buf0 Hcalls Hbuf Hnz H.
  - cbn [Receive_loop] in H. destruct (Error r); [|discriminate].
    injection H as <- _ <-. exists seg0. split; [exact Hcalls|].
    right. right. split; [reflexivity|].
    exists (fifo_bytes regs seg0), []. rewrite app_nil_r. auto.
  - destruct (Error r) eqn:HE.
    { cbn [Receive_loop] in H. rewrite HE in H.
      injection H as <- _ <-. exists seg0. split; [exact Hcalls|].
      right. right. split; [reflexivity|].
      exists (fifo_bytes regs seg0), []. rewrite app_nil_r. auto. }
    rewrite Receive_loop_S in H by exact HE.
    step_in H as empty r1 Hs. apply fifoEmpty_inv in Hs. destruct Hs as (v & ->).
    set (c1 := ReadRegister (RegIrqFlags2 regs) v) in *.
    set (r1 := record_call chip c1 r) in *.
    assert (Hcalls1 : calls (hw r1) = (c1 :: seg0) ++ l0).
    { subst r1. rewrite calls_record_call, Hcalls. reflexivity. }
    assert (Hbytes1 : fifo_bytes regs (c1 :: seg0) = fifo_bytes regs seg0)
      by (subst c1; apply fifo_bytes_poll).
    assert (Hbuf1 : receiveBuffer r1 = buf0 ++ fifo_bytes regs (c1 :: seg0))
      by (rewrite Hbytes1; exact Hbuf).
    assert (Hnz1 : ~ In x00 (fifo_bytes regs (c1 :: seg0)))
      by (rewrite Hbytes1; exact Hnz).
    destruct empty.
    + destruct (timeout <=? 0)%Z.
      * unfold ret in H. injection H as <- _ <-.
        exists (c1 :: seg0). split; [exact Hcalls1|].
        right. right. split; [reflexivity|].
        exists (fifo_bytes regs (c1 :: seg0)), []. rewrite app_nil_r. auto.
      * exact (IH _ _ _ _ _ _ _ _ _ Hcalls1 Hbuf1 Hnz1 H).
    + step_in H as c r2 Hs. apply hw_ReadRegister_inv in Hs. subst r2.
      set (c2 := ReadRegister (RegFifo regs) c) in *.
      set (r2 := record_call chip c2 r1) in *.
      assert (Hcalls2 : calls (hw r2) = (c2 :: c1 :: seg0) ++ l0).
      { subst r2. rewrite calls_record_call, Hcalls1. reflexivity. }
      assert (Hbytes2 : fifo_bytes regs (c2 :: c1 :: seg0) = fifo_bytes regs seg0 ++ [c])
        by (subst c2; rewrite fifo_bytes_fifo, Hbytes1; reflexivity).
      assert (Hbuf2 : receiveBuffer r2 = buf0 ++ fifo_bytes regs seg0) by exact Hbuf.
      step_in H as e r3 Hs. unfold gets in Hs. injection Hs as <- <-.
      destruct (Error r2) eqn:HE2.
      { unfold ret in H. injection H as <- _ <-.
        exists (c2 :: c1 :: seg0). split; [exact Hcalls2|].
        right. right. split; [reflexivity|].
        exists (fifo_bytes regs seg0), [c].
        split; [exact Hbuf2|]. split; [exact Hbytes2|].
        rewrite HE2. discriminate. }
      destruct (Byte.eqb c x00) eqn:Ec.
      * apply Byte.byte_dec_bl in Ec. subst c.
        pose proof (finishRX_calls regs chip _ _ _ _ H) as Hcalls'.
        apply finishRX_exits in H. destruct H as (Hempty & Hp).
        exists (WriteRegister (RegOpMode regs) (StandbyMode regs) :: c2 :: c1 :: seg0).
        split; [rewrite Hcalls', Hcalls2; reflexivity|].
        assert (Hbytes' :
                  fifo_bytes regs
                    (WriteRegister (RegOpMode regs) (StandbyMode regs) :: c2 :: c1 :: seg0)
                  = fifo_bytes regs seg0 ++ [x00]).
        { rewrite fifo_bytes_skip by reflexivity. exact Hbytes2. }
        destruct Hp as [(-> & Hne & _)|(-> & Hwhy)].
        -- left. exists (fifo_bytes regs seg0).
           rewrite <- Hbuf2. repeat split; try assumption.
        -- right. left. split; [reflexivity|]. split; [exact Hempty|].
           destruct Hwhy as [Hnil|Herr]; [right|now left].
           rewrite Hbuf2 in Hnil. apply app_eq_nil in Hnil. destruct Hnil as (-> & Hnil).
           split; [reflexivity|]. rewrite Hbytes', Hnil. reflexivity.
      * step_in H as u r3 Hs.
        apply receiveBuffer_WriteByte_spec in Hs. destruct Hs as (Hcalls3 & Hbuf3).
        rewrite Hcalls2 in Hcalls3.
        rewrite Hbuf2, <- app_assoc, <- Hbytes2 in Hbuf3.
        assert (Hnz3 : ~ In x00 (fifo_bytes regs (c2 :: c1 :: seg0))).
        { rewrite Hbytes2. intros Hin. apply in_app_or in Hin.
          destruct Hin as [Hin|[Hin|[]]]; [exact (Hnz Hin)|].
          subst c. discriminate. }
        exact (IH _ _ _ _ _ _ _ _ _ Hcalls3 Hbuf3 Hnz3 H).
Qed.

Lemma tl_snoc {A} (l : list A) (a : A) :
  l <> [] -> tl (l ++ [a]) = tl l ++ [a].
Proof. destruct l; [contradiction|reflexivity]. Qed.

(** The headered loop.  The first byte read from the FIFO sets the
    length ([len] is [-1] before); every later byte was appended. *)
Lemma ReceiveRadioHead_loop_exits fuel :
  forall timeout rssi len r p x r' seg0 l0 buf0,
    calls (hw r) = seg0 ++ l0 ->
    receiveBuffer r = buf0 ++ tl (fifo_bytes regs seg0) ->
    ((len = -1)%Z -> fifo_bytes regs seg0 = []) ->
    ((len <> -1)%Z -> fifo_bytes regs seg0 <> []) ->
    ReceiveRadioHead_loop regs chip fuel timeout rssi len r = Done (p, x) r' ->
    exists seg,
      calls (hw r') = seg ++ l0 /\
      ((p = Some (buf0 ++ tl (fifo_bytes regs seg)) /\ receiveBuffer r' = []) \/
       (p = None /\ receiveBuffer r' = [] /\ Error r' <> None) \/
       (p = None /\
        exists new rest,
          receiveBuffer r' = buf0 ++ new /\ tl (fifo_bytes regs seg) = new ++ rest /\
          (Error r' = None -> rest = []))).
Proof.
  induction fuel as [|fuel IH];
    intros timeout rssi len r p x r' seg0 l0 buf0 Hcalls Hbuf Hm1 Hlen H.
  - cbn [ReceiveRadioHead_loop] in H. destruct (Error r); [|discriminate].
    injection H as <- _ <-. exists seg0. split; [exact Hcalls|].
    right. right. split; [reflexivity|].
    exists (tl (fifo_bytes regs seg0)), []. rewrite app_nil_r. auto.
  - destruct (Error r) eqn:HE.
    { cbn [ReceiveRadioHead_loop] in H. rewrite HE in H.
      injection H as <- _ <-. exists seg0. split; [exact Hcalls|].
      right. right. split; [reflexivity|].
      exists (tl (fifo_bytes regs seg0)), []. rewrite app_nil_r. auto. }
    rewrite ReceiveRadioHead_loop_S in H by exact HE.
    step_in H as empty r1 Hs. apply fifoEmpty_inv in Hs. destruct Hs as (v & ->).
    set (c1 := ReadRegister (RegIrqFlags2 regs) v) in *.
    set (r1 := record_call chip c1 r) in *.
    assert (Hcalls1 : calls (hw r1) = (c1 :: seg0) ++ l0).
    { subst r1. rewrite calls_record_call, Hcalls. reflexivity. }
    assert (Hbytes1 : fifo_bytes regs (c1 :: seg0) = fifo_bytes regs seg0)
      by (subst c1; apply fifo_bytes_poll).
    assert (Hbuf1 : receiveBuffer r1 = buf0 ++ tl (fifo_bytes regs (c1 :: seg0)))
      by (rewrite Hbytes1; exact Hbuf).
    assert (Hm1' : (len = -1)%Z -> fifo_bytes regs (c1 :: seg0) = [])
      by (rewrite Hbytes1; exact Hm1).
    assert (Hlen' : (len <> -1)%Z -> fifo_bytes regs (c1 :: seg0) <> [])
      by (rewrite Hbytes1; exact Hlen).
    destruct empty.
    + destruct (timeout <=? 0)%Z.
      * unfold ret in H. injection H as <- _ <-.
        exists (c1 :: seg0). split; [exact Hcalls1|].
        right. right. split; [reflexivity|].
        exists (tl (fifo_bytes regs (c1 :: seg0))), []. rewrite app_nil_r. auto.
      * exact (IH _ _ _ _ _ _ _ _ _ _ Hcalls1 Hbuf1 Hm1' Hlen' H).
    + step_in H as c r2 Hs. apply hw_ReadRegister_inv in Hs. subst r2.
      set (c2 := ReadRegister (RegFifo regs) c) in *.
      set (r2 := record_call chip c2 r1) in *.
      assert (Hcalls2 : calls (hw r2) = (c2 :: c1 :: seg0) ++ l0).
      { subst r2. rewrite calls_record_call, Hcalls1. reflexivity. }
      assert (Hbytes2 : fifo_bytes regs (c2 :: c1 :: seg0) = fifo_bytes regs seg0 ++ [c])
        by (subst c2; rewrite fifo_bytes_fifo, Hbytes1; reflexivity).
      assert (Hbuf2 : receiveBuffer r2 = buf0 ++ tl (fifo_bytes regs seg0)) by exact Hbuf.
      assert (Hne2 : fifo_bytes regs (c2 :: c1 :: seg0) <> []).
      { rewrite Hbytes2. intros E. apply app_eq_nil in E. destruct E as (_ & E).
        discriminate. }
      step_in H as e r3 Hs. unfold gets in Hs. injection Hs as <- <-.
      destruct (Error r2) eqn:HE2.
      { unfold ret in H. injection H as <- _ <-.
        exists (c2 :: c1 :: seg0). split; [exact Hcalls2|].
        right. right. split; [reflexivity|].
        exists (tl (fifo_bytes regs seg0)).
        destruct (fifo_bytes regs seg0) as [|b bs] eqn:Eb.
        - exists []. split; [exact Hbuf2|]. rewrite Hbytes2. split; [reflexivity|auto].
        - exists [c]. split; [exact Hbuf2|]. rewrite Hbytes2. split; [reflexivity|].
          rewrite HE2. discriminate. }
      destruct (len =? -1)%Z eqn:El.
      * apply Z.eqb_eq in El.
        assert (Hbuf2' : receiveBuffer r2 = buf0 ++ tl (fifo_bytes regs (c2 :: c1 :: seg0))).
        { rewrite Hbuf2, Hbytes2, (Hm1 El). reflexivity. }
        apply (IH _ _ _ _ _ _ _ _ _ _ Hcalls2 Hbuf2') in H.
        -- exact H.
        -- intros E. unfold int_of_byte in E. lia.
        -- intros _. exact Hne2.
      * apply Z.eqb_neq in El.
        step_in H as u r3 Hs.
        apply receiveBuffer_WriteByte_spec in Hs. destruct Hs as (Hcalls3 & Hbuf3).
        rewrite Hcalls2 in Hcalls3.
        rewrite Hbuf2, <- app_assoc, <- (tl_snoc _ c (Hlen El)), <- Hbytes2 in Hbuf3.
        step_in H as n r4 Hs. unfold gets in Hs. injection Hs as <- <-.
        destruct (Z.of_nat (Buffer.Len (receiveBuffer r3)) =? len)%Z.
        -- pose proof (finishRX_calls regs chip _ _ _ _ H) as Hcalls'.
           apply finishRX_exits in H. destruct H as (Hempty & Hp).
           exists (WriteRegister (RegOpMode regs) (StandbyMode regs) :: c2 :: c1 :: seg0).
           split; [rewrite Hcalls', Hcalls3; reflexivity|].
           rewrite fifo_bytes_skip by reflexivity.
           destruct Hp as [(-> & _ & _)|(-> & [Hnil|Herr])].
           ++ left. split; [now rewrite Hbuf3|exact Hempty].
           ++ exfalso. rewrite Hbuf3, Hbytes2, (tl_snoc _ c (Hlen El)) in Hnil.
              apply app_eq_nil in Hnil. destruct Hnil as (_ & Hnil).
              apply app_eq_nil in Hnil. destruct Hnil as (_ & Hnil). discriminate.
           ++ right. left. auto.
        -- apply (IH _ _ _ _ _ _ _ _ _ _ Hcalls3 Hbuf3) in H.
           ++ exact H.
           ++ intros E. contradiction.
           ++ intros _. exact Hne2.
Qed.

(** After the loop, the deferred Sleep request adds one register write:
    it reads nothing from the FIFO and leaves the accumulator alone; if
    the latch is clear after it, it was clear before. *)
Lemma asleep_calls_since r r1 seg :
  calls (hw r1) = seg ++ calls (hw r) ->
  calls_since r (asleep regs chip r1)
    = WriteRegister (RegOpMode regs) (SleepMode regs) :: seg.
Proof.
  intros Hseg. apply calls_since_app.
  unfold asleep. cbn [calls hw set_curMode]. rewrite calls_record_call, Hseg. reflexivity.
Qed.

Lemma asleep_clear r1 : Error (asleep regs chip r1) = None -> Error r1 = None.
Proof.
  intros H. destruct (Error r1) eqn:E; [|reflexivity].
  exfalso.
  apply (record_call_sticky chip (WriteRegister (RegOpMode regs) (SleepMode regs)) r1).
  - rewrite E. discriminate.
  - exact H.
Qed.

(** The entry sequence of a receive reads nothing from the FIFO. *)
Lemma Receive_armed_calls timeout r :
  exists seg0,
    calls (hw (Receive_armed regs chip timeout r)) = seg0 ++ calls (hw r) /\
    fifo_bytes regs seg0 = [].
Proof.
  exists [RSSI (Receive_rssi regs chip timeout r); AwaitInterrupt timeout;
          WriteRegister (RegOpMode regs) (ReceiverMode regs);
          WriteRegister (RegAutoModes regs) x00].
  split; reflexivity.
Qed.

End ReceiveExits.

(** C4 (amended). After a receive operation ([Receive] or
    [ReceiveRadioHead]), entered with the latch clear, returns a packet,
    the receive accumulator is empty.  When it returns no packet, the
    accumulator is either empty or not cleared, holding what it held at
    entry followed by a prefix of the bytes the call read from the FIFO
    (in [ReceiveRadioHead]: of the bytes read after the length byte).
    When it returns no packet and the latch is still clear at return (as
    on the timeout exit), the accumulator is not cleared: it holds the
    entry content followed by all of these bytes (in [Receive]: all
    bytes read, or all but a final zero byte).  The flags register and
    the FIFO register are different registers. *)
Theorem accumulator_after_receive
    (regs : RegMap) (chip : Chip) (fuel : nat) (timeout : Z)
    (r r' : Radio) (p : packet) (rssi : Z) :
  RegIrqFlags2 regs <> RegFifo regs ->
  Error r = None ->
  (Receive regs chip fuel timeout r = Done (p, rssi) r' ->
   (p <> None -> receiveBuffer r' = []) /\
   (p = None ->
      receiveBuffer r' = [] \/
      exists new rest,
        receiveBuffer r' = receiveBuffer r ++ new /\
        fifo_bytes regs (calls_since r r') = new ++ rest) /\
   (p = None -> Error r' = None ->
      exists new,
        receiveBuffer r' = receiveBuffer r ++ new /\
        (fifo_bytes regs (calls_since r r') = new \/
         fifo_bytes regs (calls_since r r') = new ++ [x00]))) /\
  (ReceiveRadioHead regs chip fuel timeout r = Done (p, rssi) r' ->
   (p <> None -> receiveBuffer r' = []) /\
   (p = None ->
      receiveBuffer r' = [] \/
      exists new rest,
        receiveBuffer r' = receiveBuffer r ++ new /\
        tl (fifo_bytes regs (calls_since r r')) = new ++ rest) /\
   (p = None -> Error r' = None ->
      receiveBuffer r' = receiveBuffer r ++ tl (fifo_bytes regs (calls_since r r')))).
Proof.
  intros Hdistinct HE.
  destruct (Receive_armed_calls regs chip timeout r) as (seg0 & Hcalls0 & Hbytes0).
  assert (Hbuf0 : receiveBuffer (Receive_armed regs chip timeout r)
                  = receiveBuffer r ++ fifo_bytes regs seg0)
    by (rewrite Hbytes0, app_nil_r; reflexivity).
  split; intros H.
  - destruct (Receive_Done_inv regs chip fuel timeout r _ r' HE H) as (r1 & Hloop & ->).
    apply (Receive_loop_exits regs chip Hdistinct fuel _ _ _ _ _ _ seg0 (calls (hw r))
             (receiveBuffer r) Hcalls0 Hbuf0) in Hloop;
      [|rewrite Hbytes0; intros []].
    destruct Hloop as (seg & Hseg & Hexit).
    rewrite (asleep_calls_since regs chip r r1 seg Hseg).
    rewrite (fifo_bytes_skip regs) by reflexivity.
    change (receiveBuffer (asleep regs chip r1)) with (receiveBuffer r1).
    destruct Hexit as [(new & -> & _ & _ & _ & Hempty)
                      |[(-> & Hempty & Hwhy)|(-> & new & rest & Hkept & Hbytes & Hall)]].
    + split; [intros _; exact Hempty|]. split; intros Hp; discriminate Hp.
    + split; [intros Hp; now contradiction Hp|].
      split; [intros _; now left|].
      intros _ HE'. apply asleep_clear in HE'.
      destruct Hwhy as [Herr|(Hb0 & Hbytes)]; [contradiction|].
      exists []. rewrite Hempty, Hb0. split; [reflexivity|]. right. exact Hbytes.
    + split; [intros Hp; now contradiction Hp|].
      split.
      * intros _. right. exists new, rest. split; assumption.
      * intros _ HE'. apply asleep_clear in HE'.
        exists new. split; [exact Hkept|]. left.
        rewrite Hbytes, (Hall HE'). apply app_nil_r.
  - destruct (ReceiveRadioHead_Done_inv regs chip fuel timeout r _ r' HE H)
      as (r1 & Hloop & ->).
    assert (Hbuf0' : receiveBuffer (Receive_armed regs chip timeout r)
                     = receiveBuffer r ++ tl (fifo_bytes regs seg0))
      by (rewrite Hbytes0, app_nil_r; reflexivity).
    apply (ReceiveRadioHead_loop_exits regs chip Hdistinct fuel _ _ _ _ _ _ _ seg0
             (calls (hw r)) (receiveBuffer r) Hcalls0 Hbuf0') in Hloop;
      [|intros _; exact Hbytes0|intros E; now contradiction E].
    destruct Hloop as (seg & Hseg & Hexit).
    rewrite (asleep_calls_since regs chip r r1 seg Hseg).
    rewrite (fifo_bytes_skip regs) by reflexivity.
    change (receiveBuffer (asleep regs chip r1)) with (receiveBuffer r1).
    destruct Hexit as [(-> & Hempty)
                      |[(-> & Hempty & Herr)|(-> & new & rest & Hkept & Hbytes & Hall)]].
    + split; [intros _; exact Hempty|]. split; intros Hp; discriminate Hp.
    + split; [intros Hp; now contradiction Hp|].
      split; [intros _; now left|].
      intros _ HE'. apply asleep_clear in HE'. contradiction.
    + split; [intros Hp; now contradiction Hp|].
      split.
      * intros _. right. exists new, rest. split; assumption.
      * intros _ HE'. apply asleep_clear in HE'.
        rewrite Hbytes, (Hall HE'), app_nil_r. exact Hkept.
Qed.

Lemma accumulator_after_receive_witness :
  (exists r',
     Receive rfm69_regs (feed_chip rfm69_regs 0 [x01; x02; x03; x00]) 9 0
       (new_radio rfm69_regs) = Done (Some [x01; x02; x03], (-60)%Z) r' /\
     receiveBuffer r' = []) /\
  (exists r',
     ReceiveRadioHead rfm69_regs (feed_chip rfm69_regs 0 [x06; x02; x01]) 9 0
       (new_radio rfm69_regs) = Done (None, (-60)%Z) r' /\
     receiveBuffer r'
       = receiveBuffer (new_radio rfm69_regs)
           ++ tl (fifo_bytes rfm69_regs (calls_since (new_radio rfm69_regs) r'))).
Proof.
  assert (Hd : RegIrqFlags2 rfm69_regs <> RegFifo rfm69_regs)
    by (vm_compute; discriminate).
  split.
  - exists (state_of (Receive rfm69_regs (feed_chip rfm69_regs 0 [x01; x02; x03; x00]) 9 0
                        (new_radio rfm69_regs))).
    assert (Hrun : Receive rfm69_regs (feed_chip rfm69_regs 0 [x01; x02; x03; x00]) 9 0
                     (new_radio rfm69_regs)
                   = Done (Some [x01; x02; x03], (-60)%Z)
                       (state_of (Receive rfm69_regs
                                    (feed_chip rfm69_regs 0 [x01; x02; x03; x00]) 9 0
                                    (new_radio rfm69_regs))))
      by (vm_compute; reflexivity).
    split; [exact Hrun|].
    match type of Hrun with
    | _ = Done (?p, ?x) ?r1 =>
        destruct (accumulator_after_receive rfm69_regs
                    (feed_chip rfm69_regs 0 [x01; x02; x03; x00]) 9 0%Z
                    (new_radio rfm69_regs) r1 p x Hd eq_refl) as (HR & _)
    end.
    destruct (HR Hrun) as (Hpkt & _).
    apply Hpkt. discriminate.
  - exists (state_of (ReceiveRadioHead rfm69_regs (feed_chip rfm69_regs 0 [x06; x02; x01]) 9 0
                        (new_radio rfm69_regs))).
    assert (Hrun : ReceiveRadioHead rfm69_regs (feed_chip rfm69_regs 0 [x06; x02; x01]) 9 0
                     (new_radio rfm69_regs)
                   = Done (None, (-60)%Z)
                       (state_of (ReceiveRadioHead rfm69_regs
                                    (feed_chip rfm69_regs 0 [x06; x02; x01]) 9 0
                                    (new_radio rfm69_regs))))
      by (vm_compute; reflexivity).
    split; [exact Hrun|].
    match type of Hrun with
    | _ = Done (?p, ?x) ?r1 =>
        destruct (accumulator_after_receive rfm69_regs
                    (feed_chip rfm69_regs 0 [x06; x02; x01]) 9 0%Z
                    (new_radio rfm69_regs) r1 p x Hd eq_refl) as (_ & HR)
    end.
    destruct (HR Hrun) as (_ & _ & Hkept).
    apply Hkept; [reflexivity|vm_compute; reflexivity].
Defined.

(** C4 as stated fails on the timeout exit: one byte arrives, then the
    FIFO stays empty and the budget is spent; [Receive] returns nil and
    the byte is still in the accumulator. *)
Lemma accumulator_kept_on_timeout :
  (exists r',
     Receive rfm69_regs (feed_chip rfm69_regs 0 [x41]) 9 0 (new_radio rfm69_regs)
       = Done (None, (-60)%Z) r' /\
     receiveBuffer r' = [x41]) /\
  ~ (forall regs chip fuel timeout r res r',
       Receive regs chip fuel timeout r = Done res r' -> receiveBuffer r' = []).
Proof.
  assert (H : exists r',
     Receive rfm69_regs (feed_chip rfm69_regs 0 [x41]) 9 0 (new_radio rfm69_regs)
       = Done (None, (-60)%Z) r' /\
     receiveBuffer r' = [x41]).
  { eexists. split; vm_compute; reflexivity. }
  split; [exact H|].
  intros Hall. destruct H as (r' & Hrun & Hbuf).
  apply Hall in Hrun. rewrite Hrun in Hbuf. discriminate.
Qed.

(** X1. A packet returned by [Receive] is never empty.  It is what the
    accumulator held at entry followed by the bytes the call read from
    the FIFO before the zero byte that ended the packet: the call's
    reads of the FIFO register returned exactly these bytes, none of
    them zero, and then the zero. *)
Theorem Receive_packet_is_accumulator_then_nonzero_bytes
    (regs : RegMap) (chip : Chip) (fuel : nat) (timeout : Z)
    (r r' : Radio) (l : list byte) (x : Z) :
  RegIrqFlags2 regs <> RegFifo regs ->
  Receive regs chip fuel timeout r = Done (Some l, x) r' ->
  l <> [] /\
  exists new,
    l = receiveBuffer r ++ new /\
    ~ In x00 new /\
    fifo_bytes regs (calls_since r r') = new ++ [x00].
Proof.
  intros Hdistinct H.
  destruct (Error r) eqn:HE.
  { unfold Receive in H. rewrite HE in H. discriminate. }
  destruct (Receive_Done_inv regs chip fuel timeout r _ r' HE H) as (r1 & Hloop & ->).
  destruct (Receive_armed_calls regs chip timeout r) as (seg0 & Hcalls0 & Hbytes0).
  apply (Receive_loop_exits regs chip Hdistinct fuel _ _ _ _ _ _ seg0 (calls (hw r))
           (receiveBuffer r) Hcalls0) in Hloop;
    [|rewrite Hbytes0, app_nil_r; reflexivity|rewrite Hbytes0; intros []].
  destruct Hloop as (seg & Hseg & Hexit).
  rewrite (asleep_calls_since regs chip r r1 seg Hseg).
  rewrite (fifo_bytes_skip regs) by reflexivity.
  destruct Hexit as [(new & Hp & Hne & Hnz & Hbytes & _)|[(Hp & _)|(Hp & _)]];
    try discriminate Hp.
  injection Hp as ->.
  split; [exact Hne|]. exists new. repeat split; assumption.
Qed.

Lemma Receive_packet_is_accumulator_then_nonzero_bytes_witness :
  exists r',
    Receive rfm69_regs (feed_chip rfm69_regs 0 [x01; x02; x03; x00]) 9 0
      (new_radio rfm69_regs) = Done (Some [x01; x02; x03], (-60)%Z) r' /\
    [x01; x02; x03] <> [] /\
    exists new,
      [x01; x02; x03] = receiveBuffer (new_radio rfm69_regs) ++ new /\
      ~ In x00 new /\
      fifo_bytes rfm69_regs (calls_since (new_radio rfm69_regs) r') = new ++ [x00].
Proof.
  eexists. split.
  - vm_compute. reflexivity.
  - eapply (Receive_packet_is_accumulator_then_nonzero_bytes rfm69_regs
             (feed_chip rfm69_regs 0 [x01; x02; x03; x00]) 9 0%Z
             (new_radio rfm69_regs) _ [x01; x02; x03] (-60)%Z).
    + vm_compute. discriminate.
    + vm_compute. reflexivity.
Defined.

(** X2. A packet returned by [ReceiveRadioHead] is never empty, and its
    length is the value of the first byte the call read from the FIFO
    (the length byte). *)
Theorem ReceiveRadioHead_packet_length_is_length_byte
    (regs : RegMap) (chip : Chip) (fuel : nat) (timeout : Z)
    (r r' : Radio) (l : list byte) (x : Z) :
  RegIrqFlags2 regs <> RegFifo regs ->
  ReceiveRadioHead regs chip fuel timeout r = Done (Some l, x) r' ->
  l <> [] /\
  exists b, first_fifo_byte regs (calls_since r r') = Some b /\
            Z.of_nat (length l) = int_of_byte b.
Proof.
  intros Hdistinct H.
  destruct (Error r) eqn:HE.
  { unfold ReceiveRadioHead in H. rewrite HE in H. discriminate. }
  destruct (ReceiveRadioHead_Done_inv regs chip fuel timeout r _ r' HE H)
    as (r1 & Hloop & ->).
  set (seg0 := [RSSI (Receive_rssi regs chip timeout r); AwaitInterrupt timeout;
                WriteRegister (RegOpMode regs) (ReceiverMode regs);
                WriteRegister (RegAutoModes regs) x00]).
  assert (Hcalls0 : calls (hw (Receive_armed regs chip timeout r)) = seg0 ++ calls (hw r))
    by reflexivity.
  eapply (ReceiveRadioHead_loop_inv regs chip fuel Hdistinct) in Hloop;
    [|exact Hcalls0|reflexivity|intros E; contradiction].
  destruct Hloop as (_ & seg & Hseg & Hp).
  destruct (Hp l eq_refl) as (Hne & b & Hb & Hlen).
  split; [exact Hne|]. exists b. split; [|exact Hlen].
  assert (Hcalls' : calls (hw (asleep regs chip r1))
                    = (WriteRegister (RegOpMode regs) (SleepMode regs) :: seg)
                        ++ calls (hw r)).
  { unfold asleep. cbn [calls hw set_curMode]. rewrite calls_record_call, Hseg. reflexivity. }
  rewrite (calls_since_app _ _ _ Hcalls').
  now apply first_fifo_byte_stable.
Qed.

Lemma ReceiveRadioHead_packet_length_is_length_byte_witness :
  exists r',
    ReceiveRadioHead rfm69_regs
      (feed_chip rfm69_regs 0 [x06; x02; x01; x05; x00; xaa; xbb]) 9 0
      (new_radio rfm69_regs)
      = Done (Some [x02; x01; x05; x00; xaa; xbb], (-60)%Z) r' /\
    [x02; x01; x05; x00; xaa; xbb] <> [] /\
    exists b, first_fifo_byte rfm69_regs (calls_since (new_radio rfm69_regs) r') = Some b /\
              Z.of_nat (length [x02; x01; x05; x00; xaa; xbb]) = int_of_byte b.
Proof.
  eexists. split.
  - vm_compute. reflexivity.
  - eapply (ReceiveRadioHead_packet_length_is_length_byte rfm69_regs
             (feed_chip rfm69_regs 0 [x06; x02; x01; x05; x00; xaa; xbb]) 9 0%Z
             (new_radio rfm69_regs) _ [x02; x01; x05; x00; xaa; xbb] (-60)%Z).
    + vm_compute. discriminate.
    + vm_compute. reflexivity.
Defined.

(** X3. Entered with the latch clear, [Receive] and [ReceiveRadioHead]
    return, whatever the outcome (packet, timeout, register failure),
    the RSSI read right after the interrupt wait. *)
Theorem receive_returns_rssi_read_after_interrupt_wait
    (regs : RegMap) (chip : Chip) (fuel : nat) (timeout : Z) (r : Radio) :
  Error r = None ->
  (forall p x r', Receive regs chip fuel timeout r = Done (p, x) r' ->
     x = Receive_rssi regs chip timeout r) /\
  (forall p x r', ReceiveRadioHead regs chip fuel timeout r = Done (p, x) r' ->
     x = Receive_rssi regs chip timeout r).
Proof.
  intros HE. split; intros p x r' H.
  - destruct (Receive_Done_inv regs chip fuel timeout r _ r' HE H) as (r1 & Hloop & _).
    apply Receive_loop_inv in Hloop. now destruct Hloop.
  - destruct (ReceiveRadioHead_Done_inv regs chip fuel timeout r _ r' HE H)
      as (r1 & Hloop & _).
    now apply ReceiveRadioHead_loop_rssi in Hloop.
Qed.

Lemma receive_returns_rssi_read_after_interrupt_wait_witness :
  exists r1 r2,
    Receive rfm69_regs (feed_chip rfm69_regs 0 [x41]) 9 0 (new_radio rfm69_regs)
      = Done (None, (-60)%Z) r1 /\
    ReceiveRadioHead rfm69_regs dead_chip 9 0 (new_radio rfm69_regs)
      = Done (None, 0%Z) r2 /\
    (-60)%Z = Receive_rssi rfm69_regs (feed_chip rfm69_regs 0 [x41]) 0 (new_radio rfm69_regs) /\
    0%Z = Receive_rssi rfm69_regs dead_chip 0 (new_radio rfm69_regs).
Proof.
  eexists. eexists.
  split; [vm_compute; reflexivity|].
  split; [vm_compute; reflexivity|].
  split.
  - eapply (proj1 (receive_returns_rssi_read_after_interrupt_wait rfm69_regs
                     (feed_chip rfm69_regs 0 [x41]) 9 0%Z (new_radio rfm69_regs) eq_refl)).
    vm_compute. reflexivity.
  - eapply (proj2 (receive_returns_rssi_read_after_interrupt_wait rfm69_regs
                     dead_chip 9 0%Z (new_radio rfm69_regs) eq_refl)).
    vm_compute. reflexivity.
Defined.

(** X4. However a receive ends (returned or still polling), on any
    chip: it made no burst write to the FIFO, and it did not panic. *)
Theorem receive_never_writes_fifo_nor_panics
    (regs : RegMap) (chip : Chip) (fuel : nat) (timeout : Z) (r : Radio) :
  (fifo_bursts regs (calls (hw (state_of (Receive regs chip fuel timeout r))))
     = fifo_bursts regs (calls (hw r)) /\
   forall r', Receive regs chip fuel timeout r <> Panic r') /\
  (fifo_bursts regs (calls (hw (state_of (ReceiveRadioHead regs chip fuel timeout r))))
     = fifo_bursts regs (calls (hw r)) /\
   forall r', ReceiveRadioHead regs chip fuel timeout r <> Panic r').
Proof.
  assert (Harmed : fifo_bursts regs (calls (hw (Receive_armed regs chip timeout r)))
                   = fifo_bursts regs (calls (hw r))).
  { unfold Receive_armed. simpl. now rewrite !app_nil_r. }
  assert (Hsleep : forall r1, fifo_bursts regs (calls (hw (asleep regs chip r1)))
                              = fifo_bursts regs (calls (hw r1))).
  { intros r1. unfold asleep. simpl. apply app_nil_r. }
  destruct (Error r) eqn:HE.
  { unfold Receive, ReceiveRadioHead. rewrite HE. cbn [state_of].
    repeat split; intros ? H; discriminate H. }
  split.
  - rewrite Receive_unfold, deferred_Sleep by exact HE.
    destruct (Receive_loop_safe regs chip fuel timeout
                (Receive_rssi regs chip timeout r) (Receive_armed regs chip timeout r))
      as (HB & Hp & _).
    destruct (Receive_loop _ _ _ _ _ _) as [a r1|r1|r1]; cbn [state_of] in *.
    + split; [rewrite Hsleep; congruence|intros ? H; discriminate H].
    + exfalso. exact (Hp r1 eq_refl).
    + split; [congruence|intros ? H; discriminate H].
  - rewrite ReceiveRadioHead_unfold, deferred_Sleep by exact HE.
    destruct (ReceiveRadioHead_loop_safe regs chip fuel timeout
                (Receive_rssi regs chip timeout r) (-1)%Z (Receive_armed regs chip timeout r))
      as (HB & Hp & _).
    destruct (ReceiveRadioHead_loop _ _ _ _ _ _ _) as [a r1|r1|r1]; cbn [state_of] in *.
    + split; [rewrite Hsleep; congruence|intros ? H; discriminate H].
    + exfalso. exact (Hp r1 eq_refl).
    + split; [congruence|intros ? H; discriminate H].
Qed.

(** ** The timeout of a receive *)

Lemma wrap64_small z : (- 2 ^ 63 <= z < 2 ^ 63)%Z -> wrap64 z = z.
Proof.
  intros H. unfold wrap64.
  rewrite Z.mod_small by lia. lia.
Qed.

Section Timeout.

Variable regs : RegMap.
Variable chip : Chip.
Hypothesis HN : never_fails chip.

Lemma Receive_armed_ok timeout r :
  Error r = None -> Error (Receive_armed regs chip timeout r) = None.
Proof.
  intros HE. unfold Receive_armed.
  apply record_call_ok; [exact HN|].
  apply record_call_ok; [exact HN|].
  change (Error (record_call chip (WriteRegister (RegOpMode regs) (ReceiverMode regs))
            (record_call chip (WriteRegister (RegAutoModes regs) x00) r)) = None).
  apply record_call_ok; [exact HN|].
  apply record_call_ok; [exact HN|exact HE].
Qed.

Lemma asleep_ok r : Error r = None -> Error (asleep regs chip r) = None.
Proof.
  intros HE. unfold asleep.
  change (Error (record_call chip (WriteRegister (RegOpMode regs) (SleepMode regs)) r) = None).
  now apply record_call_ok.
Qed.

(** With the FIFO staying empty, the raw loop gives up after [m] polls
    of the flags register, [1 <= m <= n + 1], when the timeout is at most
    [n] byte durations; it makes no other call and leaves the accumulator
    alone. *)
Lemma Receive_loop_times_out n : forall fuel timeout rssi r,
  fifo_stays_empty regs chip ->
  Error r = None ->
  (- 2 ^ 63 <= timeout < 2 ^ 63)%Z ->
  (timeout <= Z.of_nat n * byteDuration)%Z ->
  n < fuel ->
  exists m r',
    1 <= m <= n + 1 /\
    Receive_loop regs chip fuel timeout rssi r = Done (None, rssi) r' /\
    Error r' = None /\
    receiveBuffer r' = receiveBuffer r /\
    calls (hw r') = polled chip (RegIrqFlags2 regs) m (calls (hw r)).
Proof.
  induction n as [|n IH]; intros fuel timeout rssi r Hempty HE Hrange Ht Hf;
    (destruct fuel as [|fuel]; [lia|]);
    rewrite Receive_loop_S by exact HE;
    rewrite (bind_eq _ _ _ _ _ (fifoEmpty_run regs chip r)); cbv zeta;
    rewrite Hempty, byte_eqb_refl;
    set (v := chip_read chip (calls (hw r)) (RegIrqFlags2 regs));
    set (r1 := record_call chip (ReadRegister (RegIrqFlags2 regs) v) r);
    assert (HE1 : Error r1 = None) by (now apply record_call_ok).
  - replace (timeout <=? 0)%Z with true by (symmetry; apply Z.leb_le; lia).
    exists 1, r1. repeat split; try assumption; lia.
  - destruct (timeout <=? 0)%Z eqn:E.
    + exists 1, r1. repeat split; try assumption; lia.
    + apply Z.leb_gt in E.
      rewrite wrap64_small by (unfold byteDuration in *; lia).
      destruct (IH fuel (timeout - byteDuration)%Z rssi r1 Hempty HE1)
        as (m & r' & Hm & Hrun & HE' & HB' & Hcalls);
        [unfold byteDuration in *; lia|unfold byteDuration in *; lia|lia|].
      exists (S m), r'. repeat split; try assumption; try lia.
Qed.

Lemma ReceiveRadioHead_loop_times_out n : forall fuel timeout rssi len r,
  fifo_stays_empty regs chip ->
  Error r = None ->
  (- 2 ^ 63 <= timeout < 2 ^ 63)%Z ->
  (timeout <= Z.of_nat n * byteDuration)%Z ->
  n < fuel ->
  exists m r',
    1 <= m <= n + 1 /\
    ReceiveRadioHead_loop regs chip fuel timeout rssi len r = Done (None, rssi) r' /\
    Error r' = None /\
    receiveBuffer r' = receiveBuffer r /\
    calls (hw r') = polled chip (RegIrqFlags2 regs) m (calls (hw r)).
Proof.
  induction n as [|n IH]; intros fuel timeout rssi len r Hempty HE Hrange Ht Hf;
    (destruct fuel as [|fuel]; [lia|]);
    rewrite ReceiveRadioHead_loop_S by exact HE;
    rewrite (bind_eq _ _ _ _ _ (fifoEmpty_run regs chip r)); cbv zeta;
    rewrite Hempty, byte_eqb_refl;
    set (v := chip_read chip (calls (hw r)) (RegIrqFlags2 regs));
    set (r1 := record_call chip (ReadRegister (RegIrqFlags2 regs) v) r);
    assert (HE1 : Error r1 = None) by (now apply record_call_ok).
  - replace (timeout <=? 0)%Z with true by (symmetry; apply Z.leb_le; lia).
    exists 1, r1. repeat split; try assumption; lia.
  - destruct (timeout <=? 0)%Z eqn:E.
    + exists 1, r1. repeat split; try assumption; lia.
    + apply Z.leb_gt in E.
      rewrite wrap64_small by (unfold byteDuration in *; lia).
      destruct (IH fuel (timeout - byteDuration)%Z rssi len r1 Hempty HE1)
        as (m & r' & Hm & Hrun & HE' & HB' & Hcalls);
        [unfold byteDuration in *; lia|unfold byteDuration in *; lia|lia|].
      exists (S m), r'. repeat split; try assumption; try lia.
Qed.

(** While non-zero bytes keep arriving, the raw loop never gets to look
    at the timeout: after [fuel] iterations it is still running and the
    accumulator has [fuel] more bytes. *)
Lemma Receive_loop_floods fuel : forall timeout rssi r,
  fifo_floods regs chip ->
  Error r = None ->
  exists r',
    Receive_loop regs chip fuel timeout rssi r = OutOfFuel r' /\
    length (receiveBuffer r') = length (receiveBuffer r) + fuel.
Proof.
  induction fuel as [|fuel IH]; intros timeout rssi r Hflood HE.
  - exists r. cbn [Receive_loop]. rewrite HE. split; [reflexivity|lia].
  - rewrite Receive_loop_S by exact HE.
    rewrite (bind_eq _ _ _ _ _ (fifoEmpty_run regs chip r)). cbv zeta.
    rewrite byte_eqb_neq by apply Hflood.
    set (v := chip_read chip (calls (hw r)) (RegIrqFlags2 regs)).
    set (r1 := record_call chip (ReadRegister (RegIrqFlags2 regs) v) r).
    assert (HE1 : Error r1 = None) by (now apply record_call_ok).
    rewrite (bind_eq _ _ _ _ _ (hw_ReadRegister_run chip (RegFifo regs) r1)). cbv zeta.
    set (c := chip_read chip (calls (hw r1)) (RegFifo regs)).
    set (r2 := record_call chip (ReadRegister (RegFifo regs) c) r1).
    assert (HE2 : Error r2 = None) by (now apply record_call_ok).
    rewrite (bind_eq _ _ r2 (Error r2) r2) by reflexivity. rewrite HE2.
    rewrite byte_eqb_neq by apply Hflood.
    set (r3 := set_err None (set_receiveBuffer (receiveBuffer r2 ++ [c]) r2)).
    rewrite (bind_eq _ _ r2 tt r3) by reflexivity.
    assert (HE3 : Error r3 = None).
    { unfold Error in *. cbn [hw fault err set_err set_receiveBuffer r3].
      destruct (fault (hw r2)); [discriminate|reflexivity]. }
    destruct (IH timeout rssi r3 Hflood HE3) as (r' & Hrun & Hlen).
    exists r'. split; [exact Hrun|].
    rewrite Hlen. subst r3 r2 r1. cbn [receiveBuffer set_err set_receiveBuffer record_call set_hw].
    rewrite length_app. simpl. lia.
Qed.

End Timeout.

(** X5. With a chip that fails no operation and whose FIFO stays empty,
    a receive with a timeout (a 64-bit duration) of at most [n] byte
    durations returns nil
    after at least one and at most [n + 1] polls of the flags register
    (one poll for a timeout of zero): it makes no other call before it
    requests Sleep, and it leaves the accumulator and the latch alone. *)
Theorem receive_gives_up_within_timeout
    (regs : RegMap) (chip : Chip) (n fuel : nat) (timeout : Z) (r : Radio) :
  never_fails chip ->
  fifo_stays_empty regs chip ->
  Error r = None ->
  (- 2 ^ 63 <= timeout < 2 ^ 63)%Z ->
  (timeout <= Z.of_nat n * byteDuration)%Z ->
  n < fuel ->
  (exists m r',
     1 <= m <= n + 1 /\
     Receive regs chip fuel timeout r = Done (None, Receive_rssi regs chip timeout r) r' /\
     Error r' = None /\
     receiveBuffer r' = receiveBuffer r /\
     curMode r' = SleepMode regs /\
     calls (hw r') =
       WriteRegister (RegOpMode regs) (SleepMode regs)
         :: polled chip (RegIrqFlags2 regs) m (calls (hw (Receive_armed regs chip timeout r)))) /\
  (exists m r',
     1 <= m <= n + 1 /\
     ReceiveRadioHead regs chip fuel timeout r
       = Done (None, Receive_rssi regs chip timeout r) r' /\
     Error r' = None /\
     receiveBuffer r' = receiveBuffer r /\
     curMode r' = SleepMode regs /\
     calls (hw r') =
       WriteRegister (RegOpMode regs) (SleepMode regs)
         :: polled chip (RegIrqFlags2 regs) m (calls (hw (Receive_armed regs chip timeout r)))).
Proof.
  intros HN Hempty HE Hrange Ht Hf.
  assert (HA := Receive_armed_ok regs chip HN timeout r HE).
  split.
  - destruct (Receive_loop_times_out regs chip HN n fuel timeout
                (Receive_rssi regs chip timeout r) _ Hempty HA Hrange Ht Hf)
      as (m & r1 & Hm & Hrun & HE1 & HB1 & Hcalls).
    exists m, (asleep regs chip r1).
    rewrite Receive_unfold, deferred_Sleep, Hrun by exact HE.
    repeat split; try lia.
    + now apply asleep_ok.
    + exact HB1.
    + unfold asleep. cbn [calls hw set_curMode]. now rewrite calls_record_call, Hcalls.
  - destruct (ReceiveRadioHead_loop_times_out regs chip HN n fuel timeout
                (Receive_rssi regs chip timeout r) (-1)%Z _ Hempty HA Hrange Ht Hf)
      as (m & r1 & Hm & Hrun & HE1 & HB1 & Hcalls).
    exists m, (asleep regs chip r1).
    rewrite ReceiveRadioHead_unfold, deferred_Sleep, Hrun by exact HE.
    repeat split; try lia.
    + now apply asleep_ok.
    + exact HB1.
    + unfold asleep. cbn [calls hw set_curMode]. now rewrite calls_record_call, Hcalls.
Qed.

Lemma idle_chip_never_fails regs : never_fails (idle_chip regs).
Proof. intros l. reflexivity. Qed.

Lemma idle_chip_fifo_stays_empty : fifo_stays_empty rfm69_regs (idle_chip rfm69_regs).
Proof. intros l. reflexivity. Qed.

Lemma receive_gives_up_within_timeout_witness :
  exists m r',
    1 <= m <= 0 + 1 /\
    Receive rfm69_regs (idle_chip rfm69_regs) 1 0 (new_radio rfm69_regs)
      = Done (None, Receive_rssi rfm69_regs (idle_chip rfm69_regs) 0 (new_radio rfm69_regs)) r' /\
    Error r' = None /\
    receiveBuffer r' = receiveBuffer (new_radio rfm69_regs) /\
    curMode r' = SleepMode rfm69_regs /\
    calls (hw r') =
      WriteRegister (RegOpMode rfm69_regs) (SleepMode rfm69_regs)
        :: polled (idle_chip rfm69_regs) (RegIrqFlags2 rfm69_regs) m
             (calls (hw (Receive_armed rfm69_regs (idle_chip rfm69_regs) 0
                           (new_radio rfm69_regs)))).
Proof.
  apply (receive_gives_up_within_timeout rfm69_regs (idle_chip rfm69_regs) 0 1 0%Z
           (new_radio rfm69_regs)).
  - apply idle_chip_never_fails.
  - exact idle_chip_fifo_stays_empty.
  - reflexivity.
  - vm_compute. split; [discriminate|reflexivity].
  - vm_compute. discriminate.
  - lia.
Defined.

(** X6. With a chip that fails no operation, always shows a byte in the
    FIFO and never delivers a zero byte, [Receive] does not return,
    whatever its timeout: the timeout is only looked at when the FIFO is
    empty.  After any number of iterations the loop is still running. *)
Theorem Receive_timeout_does_not_bound_a_flood
    (regs : RegMap) (chip : Chip) (fuel : nat) (timeout : Z) (r : Radio) :
  never_fails chip ->
  fifo_floods regs chip ->
  Error r = None ->
  exists r',
    Receive regs chip fuel timeout r = OutOfFuel r' /\
    length (receiveBuffer r') = length (receiveBuffer r) + fuel.
Proof.
  intros HN Hflood HE.
  assert (HA := Receive_armed_ok regs chip HN timeout r HE).
  destruct (Receive_loop_floods regs chip HN fuel timeout
              (Receive_rssi regs chip timeout r) _ Hflood HA) as (r' & Hrun & Hlen).
  exists r'. rewrite Receive_unfold, deferred_Sleep, Hrun by exact HE.
  split; [reflexivity|exact Hlen].
Qed.

Lemma Receive_timeout_does_not_bound_a_flood_witness :
  exists r',
    Receive rfm69_regs (flood_chip rfm69_regs) 40 0 (new_radio rfm69_regs) = OutOfFuel r' /\
    length (receiveBuffer r') = length (receiveBuffer (new_radio rfm69_regs)) + 40.
Proof.
  apply (Receive_timeout_does_not_bound_a_flood rfm69_regs (flood_chip rfm69_regs) 40 0%Z
           (new_radio rfm69_regs)).
  - intros l. reflexivity.
  - split; intros l; vm_compute; discriminate.
  - reflexivity.
Defined.

(** ** Receiving after an aborted receive *)

(** X7. [Receive] continues where an aborted receive stopped: fed the
    rest of a packet and the zero terminator, it returns the bytes the
    accumulator held at entry followed by the bytes that arrived, and
    leaves the accumulator empty. *)
Theorem Receive_resumes_partial_packet
    (regs : RegMap) (bs data junk : list byte) (fuel : nat) (timeout : Z) (r : Radio) :
  RegIrqFlags2 regs <> RegFifo regs ->
  FifoNotEmpty regs <> x00 ->
  bs = data ++ x00 :: junk ->
  ~ In x00 data ->
  Error r = None ->
  length data < fuel ->
  exists rssi r',
    Receive regs (feed_chip regs (fifo_reads regs (calls (hw r))) bs) fuel timeout r
      = Done (nil_if_empty (receiveBuffer r ++ data), rssi) r' /\
    receiveBuffer r' = [].
Proof.
  intros Hdistinct Hflag Hbs Hnz HE Hf.
  set (chip := feed_chip regs (fifo_reads regs (calls (hw r))) bs).
  assert (HN : never_fails chip) by (intros l; reflexivity).
  assert (HA := Receive_armed_ok regs chip HN timeout r HE).
  assert (HR : fifo_reads regs (calls (hw (Receive_armed regs chip timeout r)))
               = fifo_reads regs (calls (hw r)) + length (@nil byte)).
  { unfold Receive_armed. simpl. lia. }
  destruct (Receive_loop_feed regs (fifo_reads regs (calls (hw r))) bs Hdistinct Hflag
              data fuel timeout (Receive_rssi regs chip timeout r)
              (Receive_armed regs chip timeout r) [] junk Hbs Hnz HA HR Hf)
    as (r1 & Hrun & HE1 & HB1).
  exists (Receive_rssi regs chip timeout r), (asleep regs chip r1).
  rewrite Receive_unfold, deferred_Sleep by exact HE.
  fold chip in Hrun. rewrite Hrun. split; [reflexivity|exact HB1].
Qed.

(** A packet in two parts: [0x41] arrived and the first call timed
    out; [0x42] and the terminator arrive and the second call returns
    [0x41, 0x42]. *)
Lemma Receive_resumes_partial_packet_witness :
  receiveBuffer (radio_with_partial_packet rfm69_regs) = [x41] /\
  exists rssi r2,
    Receive rfm69_regs
      (feed_chip rfm69_regs
         (fifo_reads rfm69_regs (calls (hw (radio_with_partial_packet rfm69_regs))))
         [x42; x00]) 9 0 (radio_with_partial_packet rfm69_regs)
      = Done (nil_if_empty (receiveBuffer (radio_with_partial_packet rfm69_regs) ++ [x42]),
              rssi) r2 /\
    receiveBuffer r2 = [].
Proof.
  split; [vm_compute; reflexivity|].
  apply (Receive_resumes_partial_packet rfm69_regs [x42; x00] [x42] [] 9 0%Z
           (radio_with_partial_packet rfm69_regs)).
  - vm_compute. discriminate.
  - vm_compute. discriminate.
  - reflexivity.
  - vm_compute. intros [H|[]]. discriminate H.
  - vm_compute. reflexivity.
  - vm_compute. lia.
Defined.

(** ** How many bursts a send takes *)

Section Bursts.

Variable regs : RegMap.
Variable chip : Chip.
Hypothesis HN : never_fails chip.

(** Data that fits [avail] goes out in one burst, without a poll. *)
Lemma transmit_loop_one_burst fuel avail data r :
  Error r = None ->
  length data <= avail ->
  transmit_loop regs chip (S fuel) avail data r =
    Done (length data) (record_call chip (WriteBurst (RegFifo regs) data) r).
Proof.
  intros HE Hl. rewrite transmit_loop_S by exact HE. cbv zeta.
  replace (if length data <? avail then length data else avail) with (length data).
  - rewrite firstn_all, skipn_all.
    rewrite (bind_eq _ _ r tt (record_call chip (WriteBurst (RegFifo regs) data) r))
      by reflexivity.
    reflexivity.
  - destruct (length data <? avail) eqn:E; [reflexivity|].
    apply Nat.ltb_ge in E. lia.
Qed.

(** Data longer than the FIFO, but by no more than
    [fifoSize - fifoThreshold], goes out in two bursts. *)
Lemma transmit_loop_two_bursts k fuel data r :
  responsive regs chip k ->
  Error r = None ->
  fifoSize < length data <= fifoSize + (fifoSize - fifoThreshold) ->
  k + 1 < fuel ->
  exists a r',
    transmit_loop regs chip fuel fifoSize data r = Done a r' /\
    Error r' = None /\
    fifo_bursts regs (calls (hw r'))
      = fifo_bursts regs (calls (hw r)) ++ [firstn fifoSize data; skipn fifoSize data].
Proof.
  intros HR HE Hl Hf.
  destruct fuel as [|fuel]; [lia|].
  rewrite transmit_loop_S by exact HE. cbv zeta.
  replace (if length data <? fifoSize then length data else fifoSize) with fifoSize
    by (destruct (length data <? fifoSize) eqn:E; [apply Nat.ltb_lt in E; lia|reflexivity]).
  set (r1 := record_call chip (WriteBurst (RegFifo regs) (firstn fifoSize data)) r).
  rewrite (bind_eq _ _ r tt r1) by reflexivity.
  assert (HE1 : Error r1 = None) by (now apply record_call_ok).
  assert (HB1 : fifo_bursts regs (calls (hw r1))
                = fifo_bursts regs (calls (hw r)) ++ [firstn fifoSize data]).
  { subst r1. now rewrite calls_record_call, fifo_bursts_cons, burst_to_fifo. }
  assert (Hlen : length (skipn fifoSize data) = length data - fifoSize)
    by apply length_skipn.
  replace (length (skipn fifoSize data) =? 0) with false
    by (symmetry; apply Nat.eqb_neq; lia).
  destruct HR as (_ & Hlevel & _).
  destruct (Hlevel (calls (hw r1))) as (j & Hj & Hclear).
  destruct (awaitThreshold_answers regs chip HN j fuel fifoSize r1 HE1 ltac:(lia) Hclear)
    as (r2 & Hrun2 & HE2 & HB2).
  rewrite (bind_eq _ _ _ _ _ Hrun2).
  destruct fuel as [|fuel]; [lia|].
  rewrite transmit_loop_one_burst by (try exact HE2; lia).
  eexists _, _. split; [reflexivity|]. split.
  - now apply record_call_ok.
  - rewrite calls_record_call, fifo_bursts_cons, burst_to_fifo, HB2, HB1, <- app_assoc.
    reflexivity.
Qed.

(** The pacing poll never ends while the level stays above the
    threshold. *)
Lemma awaitThreshold_stuck fuel : forall avail r,
  level_stays_high regs chip ->
  Error r = None ->
  exists r',
    awaitThreshold regs chip fuel avail r = OutOfFuel r' /\
    fifo_bursts regs (calls (hw r')) = fifo_bursts regs (calls (hw r)).
Proof.
  induction fuel as [|fuel IH]; intros avail r Hhigh HE.
  - exists r. cbn [awaitThreshold]. now rewrite HE.
  - rewrite awaitThreshold_S by exact HE.
    erewrite bind_eq by apply fifoThresholdExceeded_run. cbv zeta.
    rewrite byte_eqb_neq by apply Hhigh. cbn [negb].
    set (r1 := record_call chip _ r).
    assert (HE1 : Error r1 = None) by (now apply record_call_ok).
    destruct (IH avail r1 Hhigh HE1) as (r' & Hrun & HB).
    exists r'. split; [exact Hrun|]. rewrite HB. subst r1. simpl. apply app_nil_r.
Qed.

End Bursts.

(** X8. On a chip that answers its polls, [Send] writes the frame
    (payload and zero terminator) in one burst when it fits the 66-byte
    FIFO, and otherwise in exactly two, the first of 66 bytes: a
    maximum-sized packet is written in two bursts. *)
Theorem Send_takes_one_or_two_bursts
    (regs : RegMap) (chip : Chip) (k fuel : nat) (data : list byte) (r : Radio) :
  responsive regs chip k ->
  Error r = None ->
  length data <= maxPacketSize ->
  maxPacketSize < length (txPacket r) ->
  k + 1 < fuel ->
  exists r',
    Send regs chip fuel data r = Done tt r' /\
    Error r' = None /\
    fifo_bursts regs (calls (hw r')) =
      fifo_bursts regs (calls (hw r))
        ++ (if length data <? fifoSize then [data ++ [x00]]
            else [firstn fifoSize (data ++ [x00]); skipn fifoSize (data ++ [x00])]).
Proof.
  intros HR HE HL HT Hf.
  assert (HN := proj1 HR).
  destruct (Send_reaches_transmit regs chip fuel data r HE HL HT) as (tx' & ->).
  assert (HA := Send_armed_ok regs chip tx' r HN HE).
  assert (HBA : fifo_bursts regs (calls (hw (Send_armed regs chip tx' r)))
                = fifo_bursts regs (calls (hw r))).
  { unfold Send_armed. simpl. now rewrite !app_nil_r. }
  generalize dependent (Send_armed regs chip tx' r). intros r0 HA HBA.
  assert (Hframe : length (data ++ [x00]) = length data + 1)
    by (rewrite length_app; reflexivity).
  assert (Hloop : exists a r1,
            transmit_loop regs chip fuel fifoSize (data ++ [x00]) r0 = Done a r1 /\
            Error r1 = None /\
            fifo_bursts regs (calls (hw r1)) =
              fifo_bursts regs (calls (hw r0))
                ++ (if length data <? fifoSize then [data ++ [x00]]
                    else [firstn fifoSize (data ++ [x00]);
                          skipn fifoSize (data ++ [x00])])).
  { destruct (length data <? fifoSize) eqn:E.
    - apply Nat.ltb_lt in E.
      destruct fuel as [|fuel]; [lia|].
      rewrite transmit_loop_one_burst by (try exact HA; lia).
      eexists _, _. split; [reflexivity|]. split.
      + now apply record_call_ok.
      + now rewrite calls_record_call, fifo_bursts_cons, burst_to_fifo.
    - apply Nat.ltb_ge in E.
      apply (transmit_loop_two_bursts regs chip HN k); try assumption.
      unfold maxPacketSize, fifoSize, fifoThreshold in *. lia. }
  destruct Hloop as (a & r1 & Hrun & HE1 & HB1).
  destruct HR as (_ & _ & Hmode).
  destruct (Hmode (calls (hw r1))) as (j & Hj & Hsb).
  destruct (finishTX_loop_answers regs chip HN j fuel r1 HE1 ltac:(lia) Hsb)
    as (r2 & Hrun2 & HE2 & HB2).
  unfold transmit.
  erewrite bind_eq; cycle 1.
  { erewrite bind_eq by exact Hrun. unfold finishTX. exact Hrun2. }
  rewrite setMode_run.
  eexists. split; [reflexivity|]. split.
  - change (Error (record_call chip (WriteRegister (RegOpMode regs) (StandbyMode regs)) r2)
            = None).
    now apply record_call_ok.
  - simpl fifo_bursts at 1. rewrite app_nil_r, HB2, HB1, HBA. reflexivity.
Qed.

Lemma Send_takes_one_or_two_bursts_witness :
  exists r',
    Send rfm69_regs (idle_chip rfm69_regs) 3 (repeat x07 110) (new_radio rfm69_regs)
      = Done tt r' /\
    Error r' = None /\
    fifo_bursts rfm69_regs (calls (hw r')) =
      fifo_bursts rfm69_regs (calls (hw (new_radio rfm69_regs)))
        ++ (if length (repeat x07 110) <? fifoSize then [repeat x07 110 ++ [x00]]
            else [firstn fifoSize (repeat x07 110 ++ [x00]);
                  skipn fifoSize (repeat x07 110 ++ [x00])]).
Proof.
  apply (Send_takes_one_or_two_bursts rfm69_regs (idle_chip rfm69_regs) 1 3
           (repeat x07 110) (new_radio rfm69_regs)).
  - exact idle_chip_responsive.
  - reflexivity.
  - vm_compute. lia.
  - vm_compute. lia.
  - lia.
Defined.

(** X9. The pacing poll in [transmit] has no bound either: with a chip
    that fails no operation but keeps the FIFO level above the threshold,
    [Send] of a payload of 66 bytes or more never returns; as soon as it
    runs at all, what it has written is the first 66 bytes of the
    frame. *)
Theorem Send_never_returns_while_level_stays_high
    (regs : RegMap) (chip : Chip) (fuel : nat) (data : list byte) (r : Radio) :
  never_fails chip ->
  level_stays_high regs chip ->
  Error r = None ->
  fifoSize <= length data <= maxPacketSize ->
  maxPacketSize < length (txPacket r) ->
  exists r',
    Send regs chip fuel data r = OutOfFuel r' /\
    (0 < fuel ->
     fifo_bursts regs (calls (hw r'))
       = fifo_bursts regs (calls (hw r)) ++ [firstn fifoSize (data ++ [x00])]).
Proof.
  intros HN Hhigh HE HL HT.
  destruct (Send_reaches_transmit regs chip fuel data r HE ltac:(lia) HT) as (tx' & ->).
  assert (HA := Send_armed_ok regs chip tx' r HN HE).
  assert (HBA : fifo_bursts regs (calls (hw (Send_armed regs chip tx' r)))
                = fifo_bursts regs (calls (hw r))).
  { unfold Send_armed. simpl. now rewrite !app_nil_r. }
  generalize dependent (Send_armed regs chip tx' r). intros r0 HA HBA.
  unfold transmit.
  destruct fuel as [|fuel].
  - exists r0. split; [|lia].
    apply bind_OutOfFuel, bind_OutOfFuel. cbn [transmit_loop]. now rewrite HA.
  - set (frame := data ++ [x00]).
    assert (Hframe : length frame = length data + 1)
      by (subst frame; rewrite length_app; reflexivity).
    set (r1 := record_call chip (WriteBurst (RegFifo regs) (firstn fifoSize frame)) r0).
    assert (HE1 : Error r1 = None) by (now apply record_call_ok).
    destruct (awaitThreshold_stuck regs chip HN fuel fifoSize r1 Hhigh HE1)
      as (r' & Hrun & HB).
    exists r'. split.
    + apply bind_OutOfFuel, bind_OutOfFuel.
      rewrite transmit_loop_S by exact HA. cbv zeta.
      replace (if length frame <? fifoSize then length frame else fifoSize) with fifoSize
        by (destruct (length frame <? fifoSize) eqn:E;
            [apply Nat.ltb_lt in E; lia|reflexivity]).
      rewrite (bind_eq _ _ r0 tt r1) by reflexivity.
      replace (length (skipn fifoSize frame) =? 0) with false
        by (symmetry; apply Nat.eqb_neq; rewrite length_skipn; lia).
      now apply bind_OutOfFuel.
    + intros _. rewrite HB. subst r1.
      now rewrite calls_record_call, fifo_bursts_cons, burst_to_fifo, HBA.
Qed.

Lemma Send_never_returns_while_level_stays_high_witness :
  exists r',
    Send rfm69_regs (full_chip rfm69_regs) 25 (repeat x07 100) (new_radio rfm69_regs)
      = OutOfFuel r' /\
    (0 < 25 ->
     fifo_bursts rfm69_regs (calls (hw r'))
       = fifo_bursts rfm69_regs (calls (hw (new_radio rfm69_regs)))
           ++ [firstn fifoSize (repeat x07 100 ++ [x00])]).
Proof.
  apply (Send_never_returns_while_level_stays_high rfm69_regs (full_chip rfm69_regs) 25
           (repeat x07 100) (new_radio rfm69_regs)).
  - intros l. reflexivity.
  - intros l. vm_compute. discriminate.
  - reflexivity.
  - vm_compute. split; lia.
  - vm_compute. lia.
Defined.

(** ** The composite operation *)

Section SendFrame.

Variable regs : RegMap.
Variable chip : Chip.
Hypothesis Hflags : RegIrqFlags2 regs <> RegFifo regs.
Hypothesis Hmode : RegOpMode regs <> RegFifo regs.

(** A call that is no read of the FIFO register changes neither the
    count of FIFO reads nor the accumulator. *)
Lemma record_call_frame c r :
  reads_from (RegFifo regs) c = None ->
  fifo_reads regs (calls (hw (record_call chip c r))) = fifo_reads regs (calls (hw r)) /\
  receiveBuffer (record_call chip c r) = receiveBuffer r.
Proof.
  intros H. split; [|reflexivity].
  rewrite calls_record_call. now apply fifo_reads_skip.
Qed.

Lemma awaitThreshold_frame fuel : forall avail r a r1,
  awaitThreshold regs chip fuel avail r = Done a r1 ->
  fifo_reads regs (calls (hw r1)) = fifo_reads regs (calls (hw r)) /\
  receiveBuffer r1 = receiveBuffer r.
Proof.
  induction fuel as [|fuel IH]; intros avail r a r1 H.
  - cbn [awaitThreshold] in H. destruct (Error r); [|discriminate].
    injection H as _ <-. now split.
  - destruct (Error r) eqn:HE.
    { cbn [awaitThreshold] in H. rewrite HE in H. injection H as _ <-. now split. }
    rewrite awaitThreshold_S in H by exact HE.
    step_in H as ex r2 Hs. rewrite fifoThresholdExceeded_run in Hs. cbv zeta in Hs.
    injection Hs as _ <-.
    match type of H with
    | context [record_call chip ?c r] =>
        destruct (record_call_frame c r) as (H1 & H2);
          [cbn [reads_from]; now rewrite byte_eqb_neq by exact Hflags|]
    end.
    destruct ex.
    + apply IH in H. destruct H as (H3 & H4). now rewrite H3, H4.
    + unfold ret in H. injection H as _ <-. now split.
Qed.

Lemma finishTX_loop_frame fuel : forall r u r1,
  finishTX_loop regs chip fuel r = Done u r1 ->
  fifo_reads regs (calls (hw r1)) = fifo_reads regs (calls (hw r)) /\
  receiveBuffer r1 = receiveBuffer r.
Proof.
  induction fuel as [|fuel IH]; intros r u r1 H.
  - cbn [finishTX_loop] in H. destruct (Error r); [|discriminate].
    injection H as _ <-. now split.
  - destruct (Error r) eqn:HE.
    { cbn [finishTX_loop] in H. rewrite HE in H. injection H as _ <-. now split. }
    rewrite finishTX_loop_S in H by exact HE.
    step_in H as s r2 Hs. rewrite mode_run in Hs. cbv zeta in Hs.
    injection Hs as _ <-.
    match type of H with
    | context [record_call chip ?c r] =>
        destruct (record_call_frame c r) as (H1 & H2);
          [cbn [reads_from]; now rewrite byte_eqb_neq by exact Hmode|]
    end.
    destruct (Byte.eqb s (StandbyMode regs)).
    + unfold ret in H. injection H as _ <-. now split.
    + apply IH in H. destruct H as (H3 & H4).
      cbn [calls hw set_curMode receiveBuffer] in H3, H4. now rewrite H3, H4.
Qed.

Lemma transmit_loop_frame fuel : forall avail data r a r1,
  transmit_loop regs chip fuel avail data r = Done a r1 ->
  fifo_reads regs (calls (hw r1)) = fifo_reads regs (calls (hw r)) /\
  receiveBuffer r1 = receiveBuffer r.
Proof.
  induction fuel as [|fuel IH]; intros avail data r a r1 H.
  - cbn [transmit_loop] in H. destruct (Error r); [|discriminate].
    injection H as _ <-. now split.
  - destruct (Error r) eqn:HE.
    { cbn [transmit_loop] in H. rewrite HE in H. injection H as _ <-. now split. }
    rewrite transmit_loop_S in H by exact HE. cbv zeta in H.
    step_in H as u r2 Hs.
    unfold hw_WriteBurst, hw_record, modify in Hs. injection Hs as _ <-.
    match type of H with
    | context [record_call chip ?c r] =>
        destruct (record_call_frame c r) as (H1 & H2); [reflexivity|]
    end.
    destruct (length _ =? 0).
    + unfold ret in H. injection H as _ <-. now split.
    + step_in H as avail2 r3 Hs.
      apply awaitThreshold_frame in Hs. destruct Hs as (H3 & H4).
      apply IH in H. destruct H as (H5 & H6).
      split; congruence.
Qed.

(** [Send] reads nothing from the FIFO and leaves the accumulator
    alone. *)
Lemma Send_frame fuel data r r1 :
  Error r = None ->
  length data <= maxPacketSize ->
  maxPacketSize < length (txPacket r) ->
  Send regs chip fuel data r = Done tt r1 ->
  fifo_reads regs (calls (hw r1)) = fifo_reads regs (calls (hw r)) /\
  receiveBuffer r1 = receiveBuffer r.
Proof.
  intros HE HL HT H.
  destruct (Send_reaches_transmit regs chip fuel data r HE HL HT) as (tx' & Heq).
  rewrite Heq in H. clear Heq.
  assert (HA : fifo_reads regs (calls (hw (Send_armed regs chip tx' r)))
               = fifo_reads regs (calls (hw r)) /\
               receiveBuffer (Send_armed regs chip tx' r) = receiveBuffer r)
    by (split; reflexivity).
  destruct HA as (HA1 & HA2).
  generalize dependent (Send_armed regs chip tx' r). intros r0 H HA1 HA2.
  step_in H as u r2 Hs. unfold transmit, finishTX in Hs.
  step_in Hs as avail r3 Ht.
  apply transmit_loop_frame in Ht. destruct Ht as (H1 & H2).
  apply finishTX_loop_frame in Hs. destruct Hs as (H3 & H4).
  rewrite setMode_run in H. injection H as <-.
  cbn [calls hw set_curMode receiveBuffer].
  destruct (record_call_frame (WriteRegister (RegOpMode regs) (StandbyMode regs)) r2)
    as (H5 & H6); [reflexivity|].
  split; congruence.
Qed.

(** A receive that returns has made no burst write. *)
Lemma Receive_Done_bursts fuel timeout r res r' :
  Error r = None ->
  Receive regs chip fuel timeout r = Done res r' ->
  fifo_bursts regs (calls (hw r')) = fifo_bursts regs (calls (hw r)).
Proof.
  intros HE H.
  destruct (Receive_Done_inv regs chip fuel timeout r _ r' HE H) as (r1 & Hloop & ->).
  destruct (Receive_loop_safe regs chip fuel timeout
              (Receive_rssi regs chip timeout r) (Receive_armed regs chip timeout r))
    as (HB & _).
  rewrite Hloop in HB. cbn [state_of] in HB.
  transitivity (fifo_bursts regs (calls (hw r1))).
  - unfold asleep. simpl. apply app_nil_r.
  - rewrite HB. unfold Receive_armed. simpl. now rewrite !app_nil_r.
Qed.

End SendFrame.

Section Reply.

Variable regs : RegMap.
Variable base : nat.
Variable bs : list byte.
Hypothesis Hflags : RegIrqFlags2 regs <> RegFifo regs.
Hypothesis Hmode : RegOpMode regs <> RegFifo regs.
Hypothesis Hmodeflags : RegOpMode regs <> RegIrqFlags2 regs.
Hypothesis Hbits : byte_and (FifoNotEmpty regs) (FifoLevel regs) = x00.

(** A FIFO that holds bytes to be read does not hold up a send: the
    level flag is clear and the mode register reads Standby. *)
Lemma feed_chip_responsive : responsive regs (feed_chip regs base bs) 1.
Proof.
  split; [intros l; reflexivity|].
  split; intros l; exists 0; (split; [lia|]); cbn [polled feed_chip chip_read].
  - rewrite (byte_eqb_neq _ _ Hflags), byte_eqb_refl.
    destruct (_ <? _); [exact Hbits|].
    unfold byte_and. reflexivity.
  - now rewrite (byte_eqb_neq _ _ Hmode), (byte_eqb_neq _ _ Hmodeflags).
Qed.

End Reply.

(** X10. [SendAndReceive] end to end, on one instance and one chip.
    The chip paces the send without delay, and its FIFO holds a reply:
    bytes without a zero, then a zero, then anything.  Entered with the
    latch clear and an empty accumulator, the call writes the payload
    and its zero terminator to the FIFO and returns the reply (nil for
    an empty one), with the latch clear and the accumulator empty: the
    send reads nothing from the FIFO and leaves the accumulator alone,
    so the receive that follows starts at the first byte of the
    reply. *)
Theorem SendAndReceive_sends_then_returns_reply
    (regs : RegMap) (fuel : nat) (data reply junk : list byte) (timeout : Z)
    (r : Radio) :
  RegIrqFlags2 regs <> RegFifo regs ->
  RegOpMode regs <> RegFifo regs ->
  RegOpMode regs <> RegIrqFlags2 regs ->
  FifoNotEmpty regs <> x00 ->
  byte_and (FifoNotEmpty regs) (FifoLevel regs) = x00 ->
  Error r = None ->
  receiveBuffer r = [] ->
  length data <= maxPacketSize ->
  maxPacketSize < length (txPacket r) ->
  ~ In x00 reply ->
  length data + 2 < fuel ->
  length reply < fuel ->
  exists rssi r',
    SendAndReceive regs
      (feed_chip regs (fifo_reads regs (calls (hw r))) (reply ++ x00 :: junk))
      fuel data timeout r = Done (nil_if_empty reply, rssi) r' /\
    Error r' = None /\
    receiveBuffer r' = [] /\
    fifo_written regs (calls (hw r'))
      = fifo_written regs (calls (hw r)) ++ data ++ [x00].
Proof.
  intros Hflags Hmode Hmodeflags Hne Hbits HE HB HL HT Hnz Hf Hfr.
  set (chip := feed_chip regs (fifo_reads regs (calls (hw r))) (reply ++ x00 :: junk)).
  pose proof (feed_chip_responsive regs (fifo_reads regs (calls (hw r)))
                (reply ++ x00 :: junk) Hflags Hmode Hmodeflags Hbits) as HR.
  fold chip in HR.
  destruct (Send_on_responsive_chip regs chip (proj1 HR) 1 HR fuel data r HE HL HT)
    as (r1 & c & rest & Hrun & HE1 & _ & Hbursts & Hcat & _); [lia|].
  destruct (Send_frame regs chip Hflags Hmode fuel data r r1 HE HL HT Hrun)
    as (Hreads1 & HB1).
  rewrite HB in HB1.
  destruct (Receive_feed regs (fifo_reads regs (calls (hw r))) (reply ++ x00 :: junk)
              Hflags Hne fuel timeout r1 reply junk eq_refl Hnz HE1 HB1 Hreads1 Hfr)
    as (rssi & r' & Hrx & HE' & HB').
  fold chip in Hrx.
  exists rssi, r'.
  split.
  { unfold SendAndReceive. rewrite (bind_eq _ _ _ _ _ Hrun).
    rewrite (bind_eq _ _ r1 (Error r1) r1) by reflexivity.
    rewrite HE1. exact Hrx. }
  split; [exact HE'|]. split; [exact HB'|].
  unfold fifo_written.
  rewrite (Receive_Done_bursts regs chip fuel timeout r1 _ r' HE1 Hrx).
  rewrite Hbursts, concat_app, Hcat. reflexivity.
Qed.

Lemma SendAndReceive_sends_then_returns_reply_witness :
  exists rssi r',
    SendAndReceive rfm69_regs
      (feed_chip rfm69_regs (fifo_reads rfm69_regs (calls (hw (new_radio rfm69_regs))))
         ([x6f; x6b] ++ x00 :: [x07]))
      9 [x68; x69] 0 (new_radio rfm69_regs)
      = Done (nil_if_empty [x6f; x6b], rssi) r' /\
    Error r' = None /\
    receiveBuffer r' = [] /\
    fifo_written rfm69_regs (calls (hw r'))
      = fifo_written rfm69_regs (calls (hw (new_radio rfm69_regs))) ++ [x68; x69] ++ [x00].
Proof.
  apply (SendAndReceive_sends_then_returns_reply rfm69_regs 9 [x68; x69] [x6f; x6b] [x07]
           0%Z (new_radio rfm69_regs)).
  - vm_compute. discriminate.
  - vm_compute. discriminate.
  - vm_compute. discriminate.
  - vm_compute. discriminate.
  - vm_compute. reflexivity.
  - reflexivity.
  - reflexivity.
  - vm_compute. lia.
  - vm_compute. lia.
  - vm_compute. intros H. decompose [or] H; discriminate || contradiction.
  - vm_compute. lia.
  - vm_compute. lia.
Defined.

(** ** The earlier variant *)

Lemma length_byte_plus_5 (n : nat) :
  n <= maxPacketSize ->
  N.to_nat (Byte.to_N (byte_add (byte_of_len n) x05)) = n + 5.
Proof.
  unfold maxPacketSize. intros H. unfold byte_add, byte_of_len.
  rewrite !to_N_byte_of_N. change (Byte.to_N x05) with 5%N.
  rewrite (N.mod_small (N.of_nat n)) by lia.
  rewrite N.mod_small by lia. lia.
Qed.

(** The earlier and the later headered receive loops are the same
    function. *)
Lemma Legacy_Receive_is_ReceiveRadioHead regs chip fuel timeout :
  Legacy.Receive regs chip fuel timeout = ReceiveRadioHead regs chip fuel timeout.
Proof. reflexivity. Qed.

Section LegacySend.

Variable regs : RegMap.
Variable chip : Chip.

Lemma awaitPacketSent_S fuel r :
  Error r = None ->
  Legacy.awaitPacketSent regs chip (S fuel) r =
    (v <- hw_ReadRegister chip (RegIrqFlags2 regs) ;;
     if negb (Byte.eqb (byte_and v x08) x00) then ret tt
     else Legacy.awaitPacketSent regs chip fuel) r.
Proof. intros HE. cbn [Legacy.awaitPacketSent]. now rewrite HE. Qed.

(** The header stores, [copy(r.txPacket[5:], data)] and the slice
    [r.txPacket[:len+5]] give the frame: header, then payload. *)
Lemma Legacy_SendRadioHead_reaches_transmit fuel data to from id flags r :
  Error r = None ->
  length data <= maxPacketSize ->
  length data + 5 <= length (txPacket r) ->
  exists r0,
    Legacy.SendRadioHead regs chip fuel data to from id flags r =
      (Legacy.transmit regs chip fuel
         (radiohead_header (length data) to from id flags ++ data) ;;
       setMode regs chip (StandbyMode regs)) r0 /\
    calls (hw r0) = WriteRegister (RegOpMode regs) (StandbyMode regs) :: calls (hw r) /\
    receiveBuffer r0 = receiveBuffer r /\
    curMode r0 = StandbyMode regs /\
    (never_fails chip -> Error r0 = None).
Proof.
  intros HE HL HT.
  unfold Legacy.SendRadioHead. rewrite HE.
  replace (maxPacketSize <? length data) with false
    by (symmetry; apply Nat.ltb_ge; exact HL).
  rewrite (length_byte_plus_5 _ HL).
  destruct r as [h rb tx e m]. cbn [txPacket] in HT.
  destruct tx as [|t0 [|t1 [|t2 [|t3 [|t4 rest]]]]]; simpl in HT; try lia.
  set (tx' := radiohead_header (length data) to from id flags ++ go_copy rest data).
  set (r0 := set_curMode (StandbyMode regs)
               (record_call chip (WriteRegister (RegOpMode regs) (StandbyMode regs))
                  (set_txPacket tx'
                     {| hw := h; receiveBuffer := rb; txPacket := t0 :: t1 :: t2 :: t3 :: t4 :: rest;
                        err := e; curMode := m |}))).
  exists r0.
  assert (Hslice : slice_to tx' (length data + 5)
                   = Some (radiohead_header (length data) to from id flags ++ data)).
  { subst tx'. rewrite go_copy_fits by lia.
    unfold slice_to, radiohead_header. rewrite !length_app. cbn [length].
    replace (length data + 5 <=? 5 + (length data + length (skipn (length data) rest)))
      with true by (symmetry; apply Nat.leb_le; lia).
    f_equal.
    replace (length data + 5) with (5 + length data) by lia.
    cbn [firstn app Nat.add]. do 5 f_equal.
    rewrite firstn_app, Nat.sub_diag, firstn_all, firstn_0. apply app_nil_r. }
  split; [|split; [reflexivity|split; [reflexivity|split; [reflexivity|]]]].
  - change (Legacy.transmit regs chip fuel
              (radiohead_header (length data) to from id flags ++ data) ;;
            setMode regs chip (StandbyMode regs))
      with (match Some (radiohead_header (length data) to from id flags ++ data) with
            | None => @panic unit
            | Some frame =>
                Legacy.transmit regs chip fuel frame ;; setMode regs chip (StandbyMode regs)
            end).
    rewrite <- Hslice. reflexivity.
  - intros HN. subst r0.
    change (Error (record_call chip (WriteRegister (RegOpMode regs) (StandbyMode regs))
              (set_txPacket tx'
                 {| hw := h; receiveBuffer := rb; txPacket := t0 :: t1 :: t2 :: t3 :: t4 :: rest;
                    err := e; curMode := m |})) = None).
    apply record_call_ok; [exact HN|exact HE].
Qed.

Hypothesis HN : never_fails chip.

Lemma awaitPacketSent_answers j : forall fuel r,
  Error r = None ->
  j < fuel ->
  byte_and (chip_read chip (polled chip (RegIrqFlags2 regs) j (calls (hw r)))
              (RegIrqFlags2 regs)) x08 <> x00 ->
  exists r',
    Legacy.awaitPacketSent regs chip fuel r = Done tt r' /\
    Error r' = None /\
    curMode r' = curMode r /\
    fifo_bursts regs (calls (hw r')) = fifo_bursts regs (calls (hw r)).
Proof.
  induction j as [|j IH]; intros fuel r HE Hj Hsent;
    (destruct fuel as [|fuel]; [lia|]);
    rewrite awaitPacketSent_S by exact HE;
    rewrite (bind_eq _ _ _ _ _ (hw_ReadRegister_run chip (RegIrqFlags2 regs) r)); cbv zeta;
    set (v := chip_read chip (calls (hw r)) (RegIrqFlags2 regs));
    set (r1 := record_call chip (ReadRegister (RegIrqFlags2 regs) v) r);
    assert (HE1 : Error r1 = None) by (now apply record_call_ok);
    assert (HB1 : fifo_bursts regs (calls (hw r1)) = fifo_bursts regs (calls (hw r)))
      by (subst r1; simpl; apply app_nil_r).
  - simpl in Hsent. fold v in Hsent. rewrite (byte_eqb_neq _ _ Hsent). cbn [negb].
    exists r1. now repeat split.
  - destruct (negb (Byte.eqb (byte_and v x08) x00)).
    + exists r1. now repeat split.
    + destruct (IH fuel r1 HE1 ltac:(lia) Hsent) as (r' & Hrun & HE' & Hm & HB').
      exists r'. repeat split; [exact Hrun|exact HE'|exact Hm|congruence].
Qed.

Lemma awaitPacketSent_stuck fuel : forall r,
  never_sent regs chip ->
  Error r = None ->
  exists r',
    Legacy.awaitPacketSent regs chip fuel r = OutOfFuel r' /\
    fifo_bursts regs (calls (hw r')) = fifo_bursts regs (calls (hw r)).
Proof.
  induction fuel as [|fuel IH]; intros r Hnever HE.
  - exists r. cbn [Legacy.awaitPacketSent]. now rewrite HE.
  - rewrite awaitPacketSent_S by exact HE.
    rewrite (bind_eq _ _ _ _ _ (hw_ReadRegister_run chip (RegIrqFlags2 regs) r)). cbv zeta.
    rewrite Hnever, byte_eqb_refl. cbn [negb].
    set (r1 := record_call chip _ r).
    assert (HE1 : Error r1 = None) by (now apply record_call_ok).
    destruct (IH r1 Hnever HE1) as (r' & Hrun & HB).
    exists r'. split; [exact Hrun|]. rewrite HB. subst r1. simpl. apply app_nil_r.
Qed.

(** [transmit] of the earlier variant, for a frame that fits the FIFO:
    the instance when the packet-sent poll starts. *)
Lemma Legacy_transmit_unfold fuel frame r :
  length frame <= fifoSize ->
  exists r1,
    Legacy.transmit regs chip fuel frame r = Legacy.awaitPacketSent regs chip fuel r1 /\
    (Error r = None -> Error r1 = None) /\
    curMode r1 = TransmitterMode regs /\
    fifo_bursts regs (calls (hw r1)) = fifo_bursts regs (calls (hw r)) ++ [frame].
Proof.
  intros Hl. unfold Legacy.transmit.
  replace (fifoSize <? length frame) with false by (symmetry; apply Nat.ltb_ge; exact Hl).
  eexists. split; [reflexivity|]. split; [|split].
  - intros HE.
    change (Error (record_call chip (WriteRegister (RegOpMode regs) (TransmitterMode regs))
              (record_call chip (WriteBurst (RegFifo regs) frame)
                 (record_call chip (WriteRegister (RegAutoModes regs) x00)
                    (record_call chip (WriteRegister (RegIrqFlags2 regs) (FifoOverrun regs))
                       r)))) = None).
    repeat (apply record_call_ok; [exact HN|]). exact HE.
  - reflexivity.
  - cbn [calls hw set_curMode].
    rewrite !calls_record_call, !fifo_bursts_cons, burst_to_fifo. simpl.
    now rewrite !app_nil_r.
Qed.

End LegacySend.

(** The earlier [SendRadioHead] on a chip that shows the packet-sent
    bit within [k] polls, for a frame that fits the FIFO. *)
Lemma Legacy_SendRadioHead_writes_frame_in_one_burst_aux
    (regs : RegMap) (chip : Chip) (k fuel : nat) (data : list byte)
    (to from id flags : byte) (r : Radio) :
  sends_within regs chip k ->
  Error r = None ->
  length data + 5 <= fifoSize ->
  length data + 5 <= length (txPacket r) ->
  k <= fuel ->
  exists r',
    Legacy.SendRadioHead regs chip fuel data to from id flags r = Done tt r' /\
    Error r' = None /\
    curMode r' = StandbyMode regs /\
    fifo_bursts regs (calls (hw r'))
      = fifo_bursts regs (calls (hw r))
          ++ [radiohead_header (length data) to from id flags ++ data].
Proof.
  intros (HN & Hsent) HE HL HT Hf.
  destruct (Legacy_SendRadioHead_reaches_transmit regs chip fuel data to from id flags r HE)
    as (r0 & -> & Hcalls0 & _ & _ & HE0); [unfold fifoSize, maxPacketSize in *; lia|exact HT|].
  specialize (HE0 HN).
  destruct (Legacy_transmit_unfold regs chip HN fuel
              (radiohead_header (length data) to from id flags ++ data) r0)
    as (r1 & Htx & HE1 & _ & HB1).
  { rewrite length_app. simpl. lia. }
  specialize (HE1 HE0).
  destruct (Hsent (calls (hw r1))) as (j & Hj & Hbit).
  destruct (awaitPacketSent_answers regs chip HN j fuel r1 HE1 ltac:(lia) Hbit)
    as (r2 & Hrun & HE2 & _ & HB2).
  rewrite (bind_eq _ _ r0 tt r2) by (rewrite Htx; exact Hrun).
  rewrite setMode_run. eexists. split; [reflexivity|]. split; [|split].
  - change (Error (record_call chip (WriteRegister (RegOpMode regs) (StandbyMode regs)) r2)
            = None).
    now apply record_call_ok.
  - reflexivity.
  - cbn [calls hw set_curMode].
    rewrite calls_record_call, fifo_bursts_cons. simpl burst_to.
    rewrite app_nil_r, HB2, HB1, Hcalls0, fifo_bursts_cons. simpl burst_to.
    now rewrite app_nil_r.
Qed.

(** X11. The earlier [SendRadioHead], for a payload whose frame fits
    the 66-byte FIFO (at most 61 bytes), on a chip that shows the
    packet-sent bit within [k] polls: it returns in Standby mode with the
    latch clear, having written to the FIFO one burst, the header
    [len+4, to, from, id, flags] followed by the payload; the earlier
    [Send] does the same with the broadcast header [FF FF 00 00]. *)
Theorem Legacy_SendRadioHead_writes_frame_in_one_burst
    (regs : RegMap) (chip : Chip) (k fuel : nat) (data : list byte)
    (to from id flags : byte) (r : Radio) :
  sends_within regs chip k ->
  Error r = None ->
  length data + 5 <= fifoSize ->
  length data + 5 <= length (txPacket r) ->
  k <= fuel ->
  (exists r',
     Legacy.SendRadioHead regs chip fuel data to from id flags r = Done tt r' /\
     Error r' = None /\
     curMode r' = StandbyMode regs /\
     fifo_bursts regs (calls (hw r'))
       = fifo_bursts regs (calls (hw r))
           ++ [radiohead_header (length data) to from id flags ++ data]) /\
  (exists r',
     Legacy.Send regs chip fuel data r = Done tt r' /\
     fifo_bursts regs (calls (hw r'))
       = fifo_bursts regs (calls (hw r))
           ++ [[byte_add (byte_of_len (length data)) x04; xff; xff; x00; x00] ++ data]).
Proof.
  intros Hsent HE HL HT Hf. split.
  - now apply (Legacy_SendRadioHead_writes_frame_in_one_burst_aux regs chip k).
  - destruct (Legacy_SendRadioHead_writes_frame_in_one_burst_aux regs chip k fuel data
                xff xff x00 x00 r Hsent HE HL HT Hf) as (r' & Hrun & _ & _ & HB).
    exists r'. split; [exact Hrun|exact HB].
Qed.

Lemma sent_chip_sends_within : sends_within rfm69_regs (sent_chip rfm69_regs) 1.
Proof.
  split; [intros l; reflexivity|].
  intros l. exists 0. split; [lia|]. vm_compute. discriminate.
Qed.

Lemma Legacy_SendRadioHead_writes_frame_in_one_burst_witness :
  (exists r',
     Legacy.SendRadioHead rfm69_regs (sent_chip rfm69_regs) 2 (repeat x07 61)
       x02 x01 x05 x00 (new_radio rfm69_regs) = Done tt r' /\
     Error r' = None /\
     curMode r' = StandbyMode rfm69_regs /\
     fifo_bursts rfm69_regs (calls (hw r'))
       = fifo_bursts rfm69_regs (calls (hw (new_radio rfm69_regs)))
           ++ [radiohead_header (length (repeat x07 61)) x02 x01 x05 x00 ++ repeat x07 61]) /\
  (exists r',
     Legacy.Send rfm69_regs (sent_chip rfm69_regs) 2 (repeat x07 61) (new_radio rfm69_regs)
       = Done tt r' /\
     fifo_bursts rfm69_regs (calls (hw r'))
       = fifo_bursts rfm69_regs (calls (hw (new_radio rfm69_regs)))
           ++ [[byte_add (byte_of_len (length (repeat x07 61))) x04; xff; xff; x00; x00]
                 ++ repeat x07 61]).
Proof.
  apply (Legacy_SendRadioHead_writes_frame_in_one_burst rfm69_regs (sent_chip rfm69_regs)
           1 2 (repeat x07 61) x02 x01 x05 x00 (new_radio rfm69_regs)).
  - exact sent_chip_sends_within.
  - reflexivity.
  - vm_compute. lia.
  - vm_compute. lia.
  - lia.
Defined.

(** X12. The earlier [SendRadioHead] accepts payloads of up to 110
    bytes, but its [transmit] panics on a frame longer than the 66-byte
    FIFO: for a payload of 62 to 110 bytes the call panics after it
    requested Standby mode, with nothing written to the FIFO. *)
Theorem Legacy_SendRadioHead_panics_beyond_fifo
    (regs : RegMap) (chip : Chip) (fuel : nat) (data : list byte)
    (to from id flags : byte) (r : Radio) :
  Error r = None ->
  fifoSize < length data + 5 ->
  length data <= maxPacketSize ->
  length data + 5 <= length (txPacket r) ->
  exists r',
    Legacy.SendRadioHead regs chip fuel data to from id flags r = Panic r' /\
    calls (hw r') = WriteRegister (RegOpMode regs) (StandbyMode regs) :: calls (hw r) /\
    curMode r' = StandbyMode regs.
Proof.
  intros HE Hbig HL HT.
  destruct (Legacy_SendRadioHead_reaches_transmit regs chip fuel data to from id flags r
              HE HL HT) as (r0 & -> & Hcalls0 & _ & Hmode0 & _).
  exists r0. split; [|split; [exact Hcalls0|exact Hmode0]].
  unfold bind, Legacy.transmit.
  replace (fifoSize <? length (radiohead_header (length data) to from id flags ++ data))
    with true; [reflexivity|].
  symmetry. apply Nat.ltb_lt. rewrite length_app. simpl. lia.
Qed.

Lemma Legacy_SendRadioHead_panics_beyond_fifo_witness :
  exists r',
    Legacy.SendRadioHead rfm69_regs (sent_chip rfm69_regs) 2 (repeat x07 62)
      x02 x01 x05 x00 (new_radio rfm69_regs) = Panic r' /\
    calls (hw r')
      = WriteRegister (RegOpMode rfm69_regs) (StandbyMode rfm69_regs)
          :: calls (hw (new_radio rfm69_regs)) /\
    curMode r' = StandbyMode rfm69_regs.
Proof.
  apply (Legacy_SendRadioHead_panics_beyond_fifo rfm69_regs (sent_chip rfm69_regs) 2
           (repeat x07 62) x02 x01 x05 x00 (new_radio rfm69_regs)).
  - reflexivity.
  - vm_compute. lia.
  - vm_compute. lia.
  - vm_compute. lia.
Defined.

(** X13. Round trip in the earlier variant: the burst its
    [SendRadioHead] writes for a payload of at most 61 bytes, delivered
    through the FIFO to its [Receive] on an instance with an empty
    accumulator, comes back as [to, from, id, flags] followed by the
    payload. *)
Theorem Legacy_headered_round_trip
    (regs : RegMap) (txchip : Chip) (k fuel : nat) (data : list byte)
    (to from id flags : byte) (r rx : Radio) (rxfuel : nat) (timeout : Z) :
  RegIrqFlags2 regs <> RegFifo regs ->
  FifoNotEmpty regs <> x00 ->
  sends_within regs txchip k ->
  Error r = None ->
  length data + 5 <= fifoSize ->
  length data + 5 <= length (txPacket r) ->
  k <= fuel ->
  Error rx = None ->
  receiveBuffer rx = [] ->
  length data + 4 < rxfuel ->
  exists r' frame rssi rx',
    Legacy.SendRadioHead regs txchip fuel data to from id flags r = Done tt r' /\
    fifo_bursts regs (calls (hw r')) = fifo_bursts regs (calls (hw r)) ++ [frame] /\
    Legacy.Receive regs (feed_chip regs (fifo_reads regs (calls (hw rx))) frame)
      rxfuel timeout rx
      = Done (Some ([to; from; id; flags] ++ data), rssi) rx'.
Proof.
  intros Hdistinct Hflag Hsent HE HL HT Hf HErx HBrx Hfrx.
  destruct (Legacy_SendRadioHead_writes_frame_in_one_burst_aux regs txchip k fuel data
              to from id flags r Hsent HE HL HT Hf) as (r' & Hrun & _ & _ & HB).
  destruct (ReceiveRadioHead_feed regs (fifo_reads regs (calls (hw rx)))
              (radiohead_header (length data) to from id flags ++ data)
              Hdistinct Hflag rxfuel timeout rx
              (byte_add (byte_of_len (length data)) x04)
              ([to; from; id; flags] ++ data) [])
    as (rssi & rx' & Hrx & _).
  - unfold radiohead_header. simpl. now rewrite app_nil_r.
  - rewrite int_of_length_byte by (unfold fifoSize in HL; lia).
    simpl length. f_equal. lia.
  - discriminate.
  - exact HErx.
  - exact HBrx.
  - reflexivity.
  - simpl length. lia.
  - exists r', (radiohead_header (length data) to from id flags ++ data), rssi, rx'.
    rewrite Legacy_Receive_is_ReceiveRadioHead.
    split; [exact Hrun|]. split; [exact HB|exact Hrx].
Qed.

Lemma Legacy_headered_round_trip_witness :
  exists r' frame rssi rx',
    Legacy.SendRadioHead rfm69_regs (sent_chip rfm69_regs) 2 [xaa; xbb] x02 x01 x05 x00
      (new_radio rfm69_regs) = Done tt r' /\
    fifo_bursts rfm69_regs (calls (hw r'))
      = fifo_bursts rfm69_regs (calls (hw (new_radio rfm69_regs))) ++ [frame] /\
    Legacy.Receive rfm69_regs
      (feed_chip rfm69_regs (fifo_reads rfm69_regs (calls (hw (new_radio rfm69_regs)))) frame)
      9 0 (new_radio rfm69_regs)
      = Done (Some ([x02; x01; x05; x00] ++ [xaa; xbb]), rssi) rx'.
Proof.
  apply (Legacy_headered_round_trip rfm69_regs (sent_chip rfm69_regs) 1 2 [xaa; xbb]
           x02 x01 x05 x00 (new_radio rfm69_regs) (new_radio rfm69_regs) 9 0%Z).
  - vm_compute. discriminate.
  - vm_compute. discriminate.
  - exact sent_chip_sends_within.
  - reflexivity.
  - vm_compute. lia.
  - vm_compute. lia.
  - lia.
  - reflexivity.
  - reflexivity.
  - vm_compute. lia.
Defined.

(** X14. The packet-sent poll of the earlier [transmit] has no bound:
    with a chip that fails no operation and never shows the packet-sent
    bit, the earlier [SendRadioHead] of a payload of at most 61 bytes
    never returns; the frame is in the FIFO and the loop is still
    polling, whatever the fuel. *)
Theorem Legacy_transmit_never_returns_without_packet_sent
    (regs : RegMap) (chip : Chip) (fuel : nat) (data : list byte)
    (to from id flags : byte) (r : Radio) :
  never_fails chip ->
  never_sent regs chip ->
  Error r = None ->
  length data + 5 <= fifoSize ->
  length data + 5 <= length (txPacket r) ->
  exists r',
    Legacy.SendRadioHead regs chip fuel data to from id flags r = OutOfFuel r' /\
    fifo_bursts regs (calls (hw r'))
      = fifo_bursts regs (calls (hw r))
          ++ [radiohead_header (length data) to from id flags ++ data].
Proof.
  intros HN Hnever HE HL HT.
  destruct (Legacy_SendRadioHead_reaches_transmit regs chip fuel data to from id flags r HE)
    as (r0 & -> & Hcalls0 & _ & _ & HE0); [unfold fifoSize, maxPacketSize in *; lia|exact HT|].
  specialize (HE0 HN).
  destruct (Legacy_transmit_unfold regs chip HN fuel
              (radiohead_header (length data) to from id flags ++ data) r0)
    as (r1 & Htx & HE1 & _ & HB1).
  { rewrite length_app. simpl. lia. }
  specialize (HE1 HE0).
  destruct (awaitPacketSent_stuck regs chip HN fuel r1 Hnever HE1) as (r' & Hrun & HB).
  exists r'. split.
  - apply bind_OutOfFuel. rewrite Htx. exact Hrun.
  - rewrite HB, HB1, Hcalls0, fifo_bursts_cons. simpl burst_to. now rewrite app_nil_r.
Qed.

Lemma Legacy_transmit_never_returns_without_packet_sent_witness :
  exists r',
    Legacy.SendRadioHead rfm69_regs (idle_chip rfm69_regs) 30 [xaa; xbb] x02 x01 x05 x00
      (new_radio rfm69_regs) = OutOfFuel r' /\
    fifo_bursts rfm69_regs (calls (hw r'))
      = fifo_bursts rfm69_regs (calls (hw (new_radio rfm69_regs)))
          ++ [radiohead_header (length [xaa; xbb]) x02 x01 x05 x00 ++ [xaa; xbb]].
Proof.
  apply (Legacy_transmit_never_returns_without_packet_sent rfm69_regs (idle_chip rfm69_regs)
           30 [xaa; xbb] x02 x01 x05 x00 (new_radio rfm69_regs)).
  - intros l. reflexivity.
  - intros l. reflexivity.
  - reflexivity.
  - vm_compute. lia.
  - vm_compute. lia.
Defined.

(** ** Where the latch can come from *)

Section LatchOrigin.

Variable regs : RegMap.
Variable chip : Chip.
Hypothesis HN : never_fails chip.

Lemma awaitThreshold_keeps_latch fuel : forall avail r,
  Error r = None ->
  Error (state_of (awaitThreshold regs chip fuel avail r)) = None.
Proof.
  induction fuel as [|fuel IH]; intros avail r HE.
  - cbn [awaitThreshold]. now rewrite HE.
  - rewrite awaitThreshold_S by exact HE.
    erewrite bind_eq by apply fifoThresholdExceeded_run. cbv zeta.
    set (r1 := record_call chip _ r).
    assert (HE1 : Error r1 = None) by (now apply record_call_ok).
    destruct (negb _); [now apply IH|exact HE1].
Qed.

Lemma finishTX_loop_keeps_latch fuel : forall r,
  Error r = None ->
  Error (state_of (finishTX_loop regs chip fuel r)) = None.
Proof.
  induction fuel as [|fuel IH]; intros r HE.
  - cbn [finishTX_loop]. now rewrite HE.
  - rewrite finishTX_loop_S by exact HE.
    erewrite bind_eq by apply mode_run. cbv zeta.
    set (r1 := set_curMode _ _).
    assert (HE1 : Error r1 = None).
    { subst r1.
      match goal with |- Error (set_curMode ?m ?x) = None => change (Error x = None) end.
      now apply record_call_ok. }
    destruct (Byte.eqb _ _); [exact HE1|now apply IH].
Qed.

Lemma transmit_loop_keeps_latch fuel : forall avail data r,
  Error r = None ->
  Error (state_of (transmit_loop regs chip fuel avail data r)) = None.
Proof.
  induction fuel as [|fuel IH]; intros avail data r HE.
  - cbn [transmit_loop]. now rewrite HE.
  - rewrite transmit_loop_S by exact HE. cbv zeta.
    set (avail1 := if length data <? avail then length data else avail).
    set (r1 := record_call chip (WriteBurst (RegFifo regs) (firstn avail1 data)) r).
    rewrite (bind_eq _ _ r tt r1) by reflexivity.
    assert (HE1 : Error r1 = None) by (now apply record_call_ok).
    destruct (length (skipn avail1 data) =? 0); [exact HE1|].
    pose proof (awaitThreshold_keeps_latch fuel avail1 r1 HE1) as H2.
    destruct (awaitThreshold regs chip fuel avail1 r1) as [a2 r2|r2|r2] eqn:Hrun;
      cbn [state_of] in H2.
    + rewrite (bind_eq _ _ _ _ _ Hrun). now apply IH.
    + unfold bind. rewrite Hrun. exact H2.
    + rewrite (bind_OutOfFuel _ _ _ _ Hrun). exact H2.
Qed.

(** Both sends end with [transmit] and the Standby request. *)
Lemma transmit_then_Standby_keeps_latch fuel data r :
  Error r = None ->
  Error (state_of ((transmit regs chip fuel data ;;
                    setMode regs chip (StandbyMode regs)) r)) = None.
Proof.
  intros HE. unfold transmit, finishTX.
  pose proof (transmit_loop_keeps_latch fuel fifoSize data r HE) as H1.
  destruct (transmit_loop regs chip fuel fifoSize data r) as [a r1|r1|r1] eqn:Hrun;
    cbn [state_of] in H1.
  - pose proof (finishTX_loop_keeps_latch fuel r1 H1) as H2.
    destruct (finishTX_loop regs chip fuel r1) as [u r2|r2|r2] eqn:Hrun2;
      cbn [state_of] in H2.
    + erewrite bind_eq; cycle 1.
      { erewrite bind_eq by exact Hrun. exact Hrun2. }
      rewrite setMode_run. cbn [state_of].
      change (Error (record_call chip (WriteRegister (RegOpMode regs) (StandbyMode regs)) r2)
              = None).
      now apply record_call_ok.
    + unfold bind. rewrite Hrun, Hrun2. exact H2.
    + erewrite bind_OutOfFuel; [exact H2|].
      erewrite bind_eq by exact Hrun. exact Hrun2.
  - unfold bind. rewrite Hrun. exact H1.
  - erewrite bind_OutOfFuel; [exact H1|]. now apply bind_OutOfFuel.
Qed.

Lemma Send_keeps_latch fuel data r :
  Error r = None ->
  Error (state_of (Send regs chip fuel data r)) = None.
Proof.
  intros HE. unfold Send. rewrite HE.
  destruct (maxPacketSize <? length data); [exact HE|].
  unfold bind at 1. unfold modify at 1.
  unfold bind at 1. unfold txPacket_store at 1.
  set (ra := set_txPacket (go_copy (txPacket r) data) r).
  destruct (store (txPacket ra) (length data) x00) as [p|]; [|exact HE].
  unfold bind at 1. unfold gets at 1.
  set (rb := set_txPacket p ra).
  destruct (slice_to (txPacket rb) (length data + 1)) as [packet|]; [|exact HE].
  change ((clearFIFO regs chip ;;
           setMode regs chip (StandbyMode regs) ;;
           hw_WriteRegister chip (RegAutoModes regs) (autoTransmit regs) ;;
           transmit regs chip fuel packet ;; setMode regs chip (StandbyMode regs)) rb)
    with ((transmit regs chip fuel packet ;; setMode regs chip (StandbyMode regs))
            (Send_armed regs chip p r)).
  apply transmit_then_Standby_keeps_latch.
  now apply Send_armed_ok.
Qed.

Lemma SendRadioHead_keeps_latch fuel data to from id flags r :
  Error r = None ->
  Error (state_of (SendRadioHead regs chip fuel data to from id flags r)) = None.
Proof.
  intros HE.
  destruct (maxPacketSize <? length data) eqn:HL.
  { unfold SendRadioHead. now rewrite HE, HL. }
  apply Nat.ltb_ge in HL.
  destruct (Nat.le_gt_cases 5 (length (txPacket r))) as [HT|HT].
  - rewrite SendRadioHead_reaches_transmit by assumption. cbv zeta.
    apply transmit_then_Standby_keeps_latch.
    now apply Send_armed_ok.
  - unfold SendRadioHead. rewrite HE.
    replace (maxPacketSize <? length data) with false
      by (symmetry; apply Nat.ltb_ge; exact HL).
    destruct r as [h rb tx e m]. cbn [txPacket] in HT.
    destruct tx as [|t0 [|t1 [|t2 [|t3 [|t4 rest]]]]]; simpl in HT; try lia; exact HE.
Qed.

End LatchOrigin.

(** X15. The latch is only ever set by a failing register operation:
    with a chip that fails none, every public operation entered with the
    latch clear leaves it clear, however the operation ends (returned,
    panicked, or still polling). *)
Theorem latch_set_only_by_register_failure
    (regs : RegMap) (chip : Chip) (fuel : nat) (data : list byte)
    (to from id flags : byte) (timeout : Z) (r : Radio) :
  never_fails chip ->
  Error r = None ->
  Error (state_of (Send regs chip fuel data r)) = None /\
  Error (state_of (SendRadioHead regs chip fuel data to from id flags r)) = None /\
  Error (state_of (Receive regs chip fuel timeout r)) = None /\
  Error (state_of (ReceiveRadioHead regs chip fuel timeout r)) = None /\
  Error (state_of (SendAndReceive regs chip fuel data timeout r)) = None.
Proof.
  intros HN HE.
  assert (HRx : forall r0, Error r0 = None ->
            Error (state_of (Receive regs chip fuel timeout r0)) = None).
  { intros r0 HE0.
    rewrite Receive_unfold, deferred_Sleep by exact HE0.
    destruct (Receive_loop_safe regs chip fuel timeout
                (Receive_rssi regs chip timeout r0) (Receive_armed regs chip timeout r0))
      as (_ & _ & Hlatch).
    specialize (Hlatch HN (Receive_armed_ok regs chip HN timeout r0 HE0)).
    destruct (Receive_loop _ _ _ _ _ _) as [a r1|r1|r1]; cbn [state_of] in *;
      try exact Hlatch; now apply asleep_ok. }
  split; [now apply Send_keeps_latch|].
  split; [now apply SendRadioHead_keeps_latch|].
  split; [now apply HRx|].
  split.
  - rewrite ReceiveRadioHead_unfold, deferred_Sleep by exact HE.
    destruct (ReceiveRadioHead_loop_safe regs chip fuel timeout
                (Receive_rssi regs chip timeout r) (-1)%Z (Receive_armed regs chip timeout r))
      as (_ & _ & Hlatch).
    specialize (Hlatch HN (Receive_armed_ok regs chip HN timeout r HE)).
    destruct (ReceiveRadioHead_loop _ _ _ _ _ _ _) as [a r1|r1|r1]; cbn [state_of] in *;
      try exact Hlatch; now apply asleep_ok.
  - unfold SendAndReceive.
    pose proof (Send_keeps_latch regs chip HN fuel data r HE) as HS.
    destruct (Send regs chip fuel data r) as [u r1|r1|r1] eqn:Hrun; cbn [state_of] in HS.
    + rewrite (bind_eq _ _ _ _ _ Hrun).
      rewrite (bind_eq _ _ r1 (Error r1) r1) by reflexivity.
      rewrite HS. now apply HRx.
    + unfold bind. rewrite Hrun. exact HS.
    + rewrite (bind_OutOfFuel _ _ _ _ Hrun). exact HS.
Qed.

Lemma latch_set_only_by_register_failure_witness :
  Error (state_of (Send rfm69_regs (idle_chip rfm69_regs) 9 [x01] (new_radio rfm69_regs)))
    = None /\
  Error (state_of (SendRadioHead rfm69_regs (idle_chip rfm69_regs) 9 [x01] x02 x01 x05 x00
                     (new_radio rfm69_regs))) = None /\
  Error (state_of (Receive rfm69_regs (idle_chip rfm69_regs) 9 0 (new_radio rfm69_regs)))
    = None /\
  Error (state_of (ReceiveRadioHead rfm69_regs (idle_chip rfm69_regs) 9 0
                     (new_radio rfm69_regs))) = None /\
  Error (state_of (SendAndReceive rfm69_regs (idle_chip rfm69_regs) 9 [x01] 0
                     (new_radio rfm69_regs))) = None.
Proof.
  apply (latch_set_only_by_register_failure rfm69_regs (idle_chip rfm69_regs) 9 [x01]
           x02 x01 x05 x00 0%Z (new_radio rfm69_regs)).
  - apply idle_chip_never_fails.
  - reflexivity.
Defined.

(** X16. The headered delimiter on a well-formed frame: fed the length
    byte [len+4], then [to, from, id, flags] and the payload, and
    whatever bytes follow, [ReceiveRadioHead] on an instance with an
    empty accumulator returns [to, from, id, flags] followed by the
    payload, and leaves the accumulator empty and the latch clear. *)
Theorem ReceiveRadioHead_decodes_frame
    (regs : RegMap) (data junk : list byte) (to from id flags : byte)
    (r : Radio) (fuel : nat) (timeout : Z) :
  RegIrqFlags2 regs <> RegFifo regs ->
  FifoNotEmpty regs <> x00 ->
  length data <= maxPacketSize ->
  Error r = None ->
  receiveBuffer r = [] ->
  length data + 4 < fuel ->
  exists rssi r',
    ReceiveRadioHead regs
      (feed_chip regs (fifo_reads regs (calls (hw r)))
         (radiohead_header (length data) to from id flags ++ data ++ junk))
      fuel timeout r
    = Done (Some ([to; from; id; flags] ++ data), rssi) r' /\
    Error r' = None /\
    receiveBuffer r' = [].
Proof.
  intros Hdistinct Hflag HL HE HB Hf.
  destruct (ReceiveRadioHead_feed regs (fifo_reads regs (calls (hw r)))
              (radiohead_header (length data) to from id flags ++ data ++ junk)
              Hdistinct Hflag fuel timeout r
              (byte_add (byte_of_len (length data)) x04)
              ([to; from; id; flags] ++ data) junk)
    as (rssi & r' & Hrun & HE' & HB').
  - unfold radiohead_header. reflexivity.
  - rewrite int_of_length_byte by (unfold maxPacketSize in HL; lia).
    simpl length. f_equal. lia.
  - discriminate.
  - exact HE.
  - exact HB.
  - reflexivity.
  - simpl length. lia.
  - now exists rssi, r'.
Qed.

Lemma ReceiveRadioHead_decodes_frame_witness :
  exists rssi r',
    ReceiveRadioHead rfm69_regs
      (feed_chip rfm69_regs (fifo_reads rfm69_regs (calls (hw (new_radio rfm69_regs))))
         (radiohead_header (length [xaa; xbb]) x02 x01 x05 x00 ++ [xaa; xbb] ++ [x99; x98]))
      9 0 (new_radio rfm69_regs)
    = Done (Some ([x02; x01; x05; x00] ++ [xaa; xbb]), rssi) r' /\
    Error r' = None /\
    receiveBuffer r' = [].
Proof.
  apply (ReceiveRadioHead_decodes_frame rfm69_regs [xaa; xbb] [x99; x98] x02 x01 x05 x00
           (new_radio rfm69_regs) 9 0%Z).
  - vm_compute. discriminate.
  - vm_compute. discriminate.
  - vm_compute. lia.
  - reflexivity.
  - reflexivity.
  - vm_compute. lia.
Defined.
